(** * Interview coach: the realtime session pipeline of [App.tsx]

    A shallow embedding of the session controller of the interview coach
    (message handler, playback scheduler, transcript assembler, frame
    sampler, teardown, feedback synthesizer) together with the PCM codec it
    imports, and the properties its specification states about them.

    Conventions.
    - A JavaScript string is the list of its UTF-16 code units.
    - Audio samples, clock readings and durations are rationals: every finite
      float is one.  Comparison, maximum, the product of a sample with a
      16-bit constant and its division by a power of two are exact on the
      values the code applies them to; the duration of a buffer and the sum
      of a start time and a duration are rounded to the nearest double, as
      the number type of JavaScript does ([Double]).
    - [Date.now()] readings are integers (milliseconds); every call is a
      reading of its own.
    - A handler is a command: it maps a state to a state, a trace of the
      calls it made and a completion; a thrown exception is the [Abrupt]
      completion, and [try] blocks are written with [try_catch]. *)

From Stdlib Require Import ZArith QArith Qminmax Qround Qabs Qpower Lqa Lia.
From Stdlib Require Import String Ascii Bool List.
Import ListNotations.

Local Open Scope Z_scope.

(* ================================================================== *)
(** * JavaScript strings *)
(* ================================================================== *)

Module Js.

Definition JsString := list Z.

(** A string literal of the source. *)
Definition lit (s : string) : JsString :=
  map (fun a => Z.of_N (N_of_ascii a)) (list_ascii_of_string s).

(** Truthiness of a string: [if (s)] holds when [s] is not empty. *)
Definition truthy (s : JsString) : bool :=
  match s with
  | [] => false
  | _ :: _ => true
  end.

(** [WhiteSpace] and [LineTerminator] code units, as [String.prototype.trim]
    strips them. *)
Definition isWhiteSpace (c : Z) : bool :=
  existsb (Z.eqb c)
    [9; 10; 11; 12; 13; 32; 160; 5760; 8232; 8233; 8239; 8287; 12288; 65279]
  || ((8192 <=? c) && (c <=? 8202)).

Fixpoint trimStart (s : JsString) : JsString :=
  match s with
  | [] => []
  | c :: r => if isWhiteSpace c then trimStart r else s
  end.

Definition trimEnd (s : JsString) : JsString := rev (trimStart (rev s)).

Definition trim (s : JsString) : JsString := trimEnd (trimStart s).

(** [a || b] on strings. *)
Definition orElse (a b : JsString) : JsString :=
  if truthy a then a else b.

End Js.

(* ================================================================== *)
(** * JavaScript numbers *)
(* ================================================================== *)

(** A finite double is the rational it denotes; an operation on doubles is
    the exact operation followed by rounding to the nearest double, ties to
    the even significand (IEEE 754 binary64: 53 significant bits, spacing
    [2 ^ -1074] at the bottom).  The range is not bounded from above: no
    value met here comes near the largest finite double. *)
Module Double.

(** The largest [k] with [2 ^ k <= x], for a positive [x]. *)
Definition floorLog2 (x : Q) : Z :=
  let k := Z.log2 (Qnum x) - Z.log2 (Z.pos (Qden x)) in
  if Qle_bool (2 ^ k) x then k else k - 1.

(** The exponent of the spacing of the doubles around a positive [x]: 52
    binary places below its leading bit, and not below the spacing of the
    subnormal numbers. *)
Definition quantum (x : Q) : Z := Z.max (-1074) (floorLog2 x - 52).

(** The nearest integer, the even one of two that are equally near. *)
Definition roundHalfEven (q : Q) : Z :=
  let f := Qfloor q in
  match (q - inject_Z f ?= 1 # 2)%Q with
  | Lt => f
  | Gt => f + 1
  | Eq => if Z.even f then f else f + 1
  end.

Definition roundPositive (x : Q) : Q :=
  (inject_Z (roundHalfEven (x / 2 ^ quantum x)) * 2 ^ quantum x)%Q.

(** The double nearest to [x], ties to even, as the rational it denotes. *)
Definition round64 (x : Q) : Q :=
  match (x ?= 0)%Q with
  | Eq => 0%Q
  | Gt => roundPositive x
  | Lt => (- roundPositive (- x))%Q
  end.

(** [a + b] on doubles. *)
Definition add (a b : Q) : Q := round64 (a + b).

(** [a / b] on doubles. *)
Definition div (a b : Q) : Q := round64 (a / b).

(** [x] is the value of a double. *)
Definition isDouble (x : Q) : bool := Qeq_bool (round64 x) x.

End Double.

(* ================================================================== *)
(** * The PCM codec ([services/audio-processing]) *)
(* ================================================================== *)

Module AudioProcessing.
Import Js.

(** ** Base64 transport ([btoa] / [atob]) *)

Definition padChar : Z := 61.

Definition charOfSextet (n : Z) : Z :=
  if n <? 26 then n + 65
  else if n <? 52 then n + 71
  else if n <? 62 then n - 4
  else if n =? 62 then 43
  else 47.

Definition sextetOfChar (c : Z) : option Z :=
  if (65 <=? c) && (c <=? 90) then Some (c - 65)
  else if (97 <=? c) && (c <=? 122) then Some (c - 71)
  else if (48 <=? c) && (c <=? 57) then Some (c + 4)
  else if c =? 43 then Some 62
  else if c =? 47 then Some 63
  else None.

Fixpoint sextetsOfBytes (bs : list Z) : list Z :=
  match bs with
  | [] => []
  | [a] => [a / 4; (a mod 4) * 16]
  | [a; b] => [a / 4; (a mod 4) * 16 + b / 16; (b mod 16) * 4]
  | a :: b :: c :: rest =>
      a / 4 :: (a mod 4) * 16 + b / 16 :: (b mod 16) * 4 + c / 64 :: c mod 64
        :: sextetsOfBytes rest
  end.

Definition padding (len : nat) : JsString :=
  match (len mod 3)%nat with
  | 1%nat => [padChar; padChar]
  | 2%nat => [padChar]
  | _ => []
  end.

(** Modelled from the spec: the codec's [encode] helper, "base64 encode ...
    for wire transport" of a byte buffer, is not part of the sources at
    hand; it is the standard alphabet with [=] padding, as [btoa] produces
    it. *)
Definition encode (bytes : list Z) : JsString :=
  map charOfSextet (sextetsOfBytes bytes) ++ padding (length bytes).

Definition isAsciiWhitespace (c : Z) : bool :=
  existsb (Z.eqb c) [9; 10; 12; 13; 32].

Definition stripPadding (s : JsString) : JsString :=
  if (length s mod 4 =? 0)%nat then
    match rev s with
    | p :: q :: r =>
        if p =? padChar then
          if q =? padChar then rev r else rev (q :: r)
        else s
    | _ => s
    end
  else s.

Fixpoint sextetsOfChars (s : JsString) : option (list Z) :=
  match s with
  | [] => Some []
  | c :: r =>
      match sextetOfChar c, sextetsOfChars r with
      | Some n, Some ns => Some (n :: ns)
      | _, _ => None
      end
  end.

Fixpoint bytesOfSextets (ns : list Z) : option (list Z) :=
  match ns with
  | [] => Some []
  | [_] => None
  | [a; b] => Some [a * 4 + b / 16]
  | [a; b; c] => Some [a * 4 + b / 16; (b mod 16) * 16 + c / 4]
  | a :: b :: c :: d :: rest =>
      match bytesOfSextets rest with
      | Some bs =>
          Some (a * 4 + b / 16 :: (b mod 16) * 16 + c / 4
                  :: (c mod 4) * 64 + d :: bs)
      | None => None
      end
  end.

(** Modelled from the spec: the codec's [decode] helper,
    "decode(base64) -> raw byte buffer", is not part of the sources at
    hand; it is [atob]: whitespace is dropped, up to two padding characters
    are removed from an input whose length is a multiple of four, and a
    character outside the alphabet or a dangling single character is an
    error ([None] stands for the exception). *)
Definition decode (base64 : JsString) : option (list Z) :=
  let s := stripPadding (filter (fun c => negb (isAsciiWhitespace c)) base64) in
  match sextetsOfChars s with
  | Some ns => bytesOfSextets ns
  | None => None
  end.

(** ** Float samples to 16-bit PCM *)

(** [Math.max(-1, Math.min(1, x))]. *)
Definition clamp (x : Q) : Q := Qmax (-1) (Qmin 1 x).

(** Conversion of a number to an integer drops the fraction (towards zero). *)
Definition truncate (q : Q) : Z :=
  if Qle_bool 0 q then Qfloor q else Qceiling q.

(** Storing a number into an [Int16Array] slot: truncate, wrap modulo
    2^16, read as signed. *)
Definition toInt16 (q : Q) : Z :=
  let n := truncate q mod 65536 in
  if 32768 <=? n then n - 65536 else n.

(** Modelled from the spec: the sample conversion of [createPcmBlob] is not
    part of the sources at hand. "Encoding clamps each sample to [-1,1]
    before scaling to the 16-bit signed range to avoid overflow
    wraparound": the clamped sample [s] is scaled onto [-32768, 32767],
    that is by [0x8000] below zero and by [0x7FFF] from zero on. *)
Definition floatTo16BitPCM (x : Q) : Z :=
  let s := clamp x in
  toInt16 (if Qle_bool 0 s then s * 32767 else s * 32768)%Q.

(** The two bytes of a 16-bit sample, little-endian. *)
Definition int16Bytes (v : Z) : list Z :=
  let u := v mod 65536 in [u mod 256; u / 256].

Record PcmBlob := mkPcmBlob { data : JsString; mimeType : JsString }.

(** Modelled from the spec: [createPcmBlob], "encode(float samples[-1,1])
    -> base64 PCM16LE bytes" with the capture rate of 16 kHz in its MIME
    type. *)
Definition createPcmBlob (samples : list Q) : PcmBlob :=
  {| data := encode (flat_map int16Bytes (map floatTo16BitPCM samples));
     mimeType := lit "audio/pcm;rate=16000" |}.

(** ** 16-bit PCM to a playable buffer *)

(** Reading a byte buffer as an [Int16Array]: an odd byte length is an
    error. *)
Fixpoint int16OfBytes (bs : list Z) : option (list Z) :=
  match bs with
  | [] => Some []
  | [_] => None
  | lo :: hi :: rest =>
      match int16OfBytes rest with
      | Some vs =>
          let u := lo + 256 * hi in
          Some ((if 32768 <=? u then u - 65536 else u) :: vs)
      | None => None
      end
  end.

Record AudioBuffer := mkAudioBuffer {
  channelData : list (list Q);
  sampleRate : Z;
  frameCount : nat
}.

(** [buffer.duration]: frames over sample rate, in seconds, a double. *)
Definition duration (b : AudioBuffer) : Q :=
  Double.div (inject_Z (Z.of_nat (frameCount b))) (inject_Z (sampleRate b)).

(** Modelled from the spec: [decodeAudioData], "decodeAudioData(bytes,
    targetSampleRate, channels) -> playable audio buffer", which "must
    reconstruct multi-channel interleaved buffers sample-accurately" from
    "16-bit signed PCM, little-endian"; a byte length that is not "a
    multiple of 2 bytes x channel count" is an error. *)
Definition decodeAudioData (bytes : list Z) (rate : Z) (numChannels : nat)
  : option AudioBuffer :=
  match int16OfBytes bytes with
  | None => None
  | Some ints =>
      if ((numChannels =? 0) || negb (length ints mod numChannels =? 0))%nat
      then None
      else
        let frames := (length ints / numChannels)%nat in
        Some {| channelData :=
                  map (fun ch =>
                         map (fun i =>
                                (inject_Z (nth (i * numChannels + ch) ints 0%Z)
                                 / 32768)%Q)
                             (seq 0 frames))
                      (seq 0 numChannels);
                sampleRate := rate;
                frameCount := frames |}
  end.

End AudioProcessing.


(* ================================================================== *)
(** * The session controller ([App.tsx]) *)
(* ================================================================== *)

Module App.
Import Js.

(** ** Values the component handles *)

(** A thrown value: whether it is an [Error] instance, and its message. *)
Record JsError := mkJsError { isErrorInstance : bool; message : JsString }.

Inductive Role := role_user | role_model.

Record TranscriptionEntry := mkEntry {
  role : Role;
  text : JsString;
  timestamp : Z
}.

(** The [{ user: '', model: '' }] objects. *)
Record TextPair := mkTextPair { user : JsString; model : JsString }.

Definition emptyPair : TextPair := {| user := []; model := [] |}.

(** A node of the capture graph; [disconnect()] may throw. *)
Record AudioNode := mkAudioNode {
  nodeId : nat;
  disconnectFails : option JsError
}.

(** The microphone stream and its tracks. *)
Record MediaStream := mkMediaStream { getTracks : list nat }.

(** An [AudioBufferSourceNode] that has been started: the time it was
    scheduled at, the duration of its buffer; [stop()] may throw. *)
Record Source := mkSource {
  sourceId : nat;
  startedAt : Q;
  bufferDuration : Q;
  stopFails : option JsError
}.

(** The live session handle; [close] may be missing and may throw. *)
Record Session := mkSession {
  sessionId : nat;
  hasClose : bool;
  closeFails : option JsError
}.

Record InterviewContext := mkInterviewContext {
  jd : JsString;
  resume : JsString;
  apiKey : JsString
}.

(** The content parts of the feedback request.  The prompt text is business
    copy: it is kept as the arguments of [getFeedbackPrompt] next to the
    formatted transcript and the frame count the template interpolates. *)
Inductive ContentPart :=
| PromptAndTranscript (jd resume : option JsString)
    (formattedTranscript : JsString) (frameCount : nat)
| InlineJpeg (frame : JsString)
| FrameLabel (index : nat)
| NoFramesNote.

(** ** Inbound server messages *)

Module Msg.
Record Blob := mkBlob { data : option JsString }.
Record Part := mkPart { inlineData : option Blob }.
Record Content := mkContent { parts : option (list Part) }.
Record Transcription := mkTranscription { text : option JsString }.
Record ServerContent := mkServerContent {
  modelTurn : option Content;
  interrupted : bool;
  inputTranscription : option Transcription;
  outputTranscription : option Transcription;
  turnComplete : bool
}.
Record LiveServerMessage := mkMessage {
  serverContent : option ServerContent
}.
End Msg.

Definition opt {A B : Type} (o : option A) (f : A -> option B) : option B :=
  match o with
  | Some a => f a
  | None => None
  end.

(** [msg.serverContent?.modelTurn?.parts?.[0]?.inlineData?.data] *)
Definition audioDataOf (msg : Msg.LiveServerMessage) : option JsString :=
  opt (Msg.serverContent msg) (fun sc =>
  opt (Msg.modelTurn sc) (fun mt =>
  opt (Msg.parts mt) (fun ps =>
  opt (nth_error ps 0) (fun p =>
  opt (Msg.inlineData p) Msg.data)))).

(** [msg.serverContent?.interrupted] *)
Definition interruptedOf (msg : Msg.LiveServerMessage) : bool :=
  match Msg.serverContent msg with
  | Some sc => Msg.interrupted sc
  | None => false
  end.

(** [msg.serverContent?.inputTranscription?.text] *)
Definition inputTextOf (msg : Msg.LiveServerMessage) : option JsString :=
  opt (Msg.serverContent msg) (fun sc =>
  opt (Msg.inputTranscription sc) Msg.text).

(** [msg.serverContent?.outputTranscription?.text] *)
Definition outputTextOf (msg : Msg.LiveServerMessage) : option JsString :=
  opt (Msg.serverContent msg) (fun sc =>
  opt (Msg.outputTranscription sc) Msg.text).

(** [msg.serverContent?.turnComplete] *)
Definition turnCompleteOf (msg : Msg.LiveServerMessage) : bool :=
  match Msg.serverContent msg with
  | Some sc => Msg.turnComplete sc
  | None => false
  end.

(** ** The component's refs and state *)

Record Playback := mkPlayback {
  outputAudioContextRef : option nat;
  nextStartTimeRef : Q;
  sourcesRef : list Source;
  isSpeaking : bool;
  sourcesCreated : nat   (* allocation counter: identity of new sources *)
}.

Record Transcript := mkTranscript {
  transcriptionBufferRef : TextPair;
  pendingTextRef : TextPair;
  rafRef : option positive;
  realtimeText : TextPair;
  transcriptions : list TranscriptionEntry
}.

Record Capture := mkCapture {
  scriptProcessorRef : option AudioNode;
  mediaSourceRef : option AudioNode;
  streamRef : option MediaStream
}.

Record Frames := mkFrames {
  capturedFramesRef : list JsString;
  lastFrameCaptureTimeRef : Z
}.

Record Connection := mkConnection {
  sessionRef : option Session;
  isSessionOpenRef : bool;
  isActive : bool;
  isConnecting : bool;
  error : option JsString;
  statusMessage : JsString;
  showSetupForm : bool
}.

Record Feedback := mkFeedback {
  interviewContextRef : InterviewContext;
  endFeedback : option JsString;
  isGeneratingFeedback : bool
}.

Record State := mkState {
  playback : Playback;
  transcript : Transcript;
  capture : Capture;
  frames : Frames;
  connection : Connection;
  feedback : Feedback
}.

Definition FRAME_CAPTURE_INTERVAL : Z := 5000.
Definition MAX_FRAMES_FOR_FEEDBACK : nat := 12.

(** ** What a handler does to the outside, in order *)

Inductive Action :=
| FlagSessionClosed                    (* isSessionOpenRef.current = false *)
| NodeDisconnect (n : AudioNode)       (* n.disconnect() *)
| TrackStop (track : nat)              (* track.stop() *)
| StreamReleased                       (* streamRef.current = null *)
| SourceStop (src : Source)            (* s.stop() *)
| SourcesCleared                       (* sourcesRef.current.clear() *)
| CursorReset                          (* nextStartTimeRef.current = 0 *)
| SourceStart (src : Source)           (* source.start(nextStartTime) *)
| SessionClose (sess : Session)        (* session.close() *)
| SendFrame (sess : Session) (frame : JsString)
| FramePush (frame : JsString)         (* capturedFrames.push(base64) *)
| FrameShift                           (* capturedFrames.shift() *)
| GenerateContent (key modelName : JsString) (contents : list ContentPart)
| RequestAnimationFrame (handle : positive)
| CancelAnimationFrame (handle : positive)
| ConsoleLog (label : JsString)
| ConsoleError (label : JsString) (detail : JsError).

(** ** Handlers as commands: state, exception, trace *)

Inductive Completion := Normal | Abrupt (e : JsError).

Record Result := mkResult {
  completion : Completion;
  state : State;
  trace : list Action
}.

Definition Cmd := State -> Result.

Definition skip : Cmd := fun s => mkResult Normal s [].
Definition throw (e : JsError) : Cmd := fun s => mkResult (Abrupt e) s [].
Definition emit (a : Action) : Cmd := fun s => mkResult Normal s [a].
Definition update (f : State -> State) : Cmd :=
  fun s => mkResult Normal (f s) [].
Definition get (k : State -> Cmd) : Cmd := fun s => k s s.

Definition seq (c1 c2 : Cmd) : Cmd :=
  fun s =>
    let r1 := c1 s in
    match completion r1 with
    | Normal =>
        let r2 := c2 (state r1) in
        mkResult (completion r2) (state r2) (trace r1 ++ trace r2)
    | Abrupt _ => r1
    end.

(** [try { c } catch (e) { h e }] *)
Definition try_catch (c : Cmd) (h : JsError -> Cmd) : Cmd :=
  fun s =>
    let r1 := c s in
    match completion r1 with
    | Normal => r1
    | Abrupt e =>
        let r2 := h e (state r1) in
        mkResult (completion r2) (state r2) (trace r1 ++ trace r2)
    end.

(** [try { c } finally { f }] *)
Definition try_finally (c f : Cmd) : Cmd :=
  fun s =>
    let r1 := c s in
    let r2 := f (state r1) in
    match completion r2 with
    | Normal => mkResult (completion r1) (state r2) (trace r1 ++ trace r2)
    | Abrupt _ => mkResult (completion r2) (state r2) (trace r1 ++ trace r2)
    end.

Definition when (b : bool) (c : Cmd) : Cmd := if b then c else skip.

Fixpoint forEach {A : Type} (l : list A) (f : A -> Cmd) : Cmd :=
  match l with
  | [] => skip
  | x :: r => seq (f x) (forEach r f)
  end.

Declare Scope cmd_scope.
Delimit Scope cmd_scope with cmd.
Bind Scope cmd_scope with Cmd.
Notation "c1 ;; c2" := (seq c1 c2)
  (at level 61, right associativity) : cmd_scope.
Local Open Scope cmd_scope.

(** ** Writes to refs and state *)

Definition onPlayback (f : Playback -> Playback) (s : State) : State :=
  mkState (f (playback s)) (transcript s) (capture s) (frames s)
    (connection s) (feedback s).
Definition onTranscript (f : Transcript -> Transcript) (s : State) : State :=
  mkState (playback s) (f (transcript s)) (capture s) (frames s)
    (connection s) (feedback s).
Definition onCapture (f : Capture -> Capture) (s : State) : State :=
  mkState (playback s) (transcript s) (f (capture s)) (frames s)
    (connection s) (feedback s).
Definition onFrames (f : Frames -> Frames) (s : State) : State :=
  mkState (playback s) (transcript s) (capture s) (f (frames s))
    (connection s) (feedback s).
Definition onConnection (f : Connection -> Connection) (s : State) : State :=
  mkState (playback s) (transcript s) (capture s) (frames s)
    (f (connection s)) (feedback s).
Definition onFeedback (f : Feedback -> Feedback) (s : State) : State :=
  mkState (playback s) (transcript s) (capture s) (frames s)
    (connection s) (f (feedback s)).

Definition withNextStartTime (t : Q) (p : Playback) : Playback :=
  mkPlayback (outputAudioContextRef p) t (sourcesRef p) (isSpeaking p)
    (sourcesCreated p).
Definition withSources (l : list Source) (p : Playback) : Playback :=
  mkPlayback (outputAudioContextRef p) (nextStartTimeRef p) l (isSpeaking p)
    (sourcesCreated p).
Definition withIsSpeaking (b : bool) (p : Playback) : Playback :=
  mkPlayback (outputAudioContextRef p) (nextStartTimeRef p) (sourcesRef p) b
    (sourcesCreated p).
Definition withSourcesCreated (n : nat) (p : Playback) : Playback :=
  mkPlayback (outputAudioContextRef p) (nextStartTimeRef p) (sourcesRef p)
    (isSpeaking p) n.

Definition withTranscriptionBuffer (b : TextPair) (t : Transcript) :=
  mkTranscript b (pendingTextRef t) (rafRef t) (realtimeText t)
    (transcriptions t).
Definition withPendingText (b : TextPair) (t : Transcript) :=
  mkTranscript (transcriptionBufferRef t) b (rafRef t) (realtimeText t)
    (transcriptions t).
Definition withRaf (r : option positive) (t : Transcript) :=
  mkTranscript (transcriptionBufferRef t) (pendingTextRef t) r
    (realtimeText t) (transcriptions t).
Definition withRealtimeText (b : TextPair) (t : Transcript) :=
  mkTranscript (transcriptionBufferRef t) (pendingTextRef t) (rafRef t) b
    (transcriptions t).
Definition withTranscriptions (l : list TranscriptionEntry)
    (t : Transcript) :=
  mkTranscript (transcriptionBufferRef t) (pendingTextRef t) (rafRef t)
    (realtimeText t) l.

Definition withScriptProcessor (n : option AudioNode) (c : Capture) :=
  mkCapture n (mediaSourceRef c) (streamRef c).
Definition withMediaSource (n : option AudioNode) (c : Capture) :=
  mkCapture (scriptProcessorRef c) n (streamRef c).
Definition withStream (m : option MediaStream) (c : Capture) :=
  mkCapture (scriptProcessorRef c) (mediaSourceRef c) m.

Definition withCapturedFrames (l : list JsString) (f : Frames) :=
  mkFrames l (lastFrameCaptureTimeRef f).
Definition withLastFrameCaptureTime (t : Z) (f : Frames) :=
  mkFrames (capturedFramesRef f) t.

Definition withSession (o : option Session) (c : Connection) :=
  mkConnection o (isSessionOpenRef c) (isActive c) (isConnecting c)
    (error c) (statusMessage c) (showSetupForm c).
Definition withIsSessionOpen (b : bool) (c : Connection) :=
  mkConnection (sessionRef c) b (isActive c) (isConnecting c)
    (error c) (statusMessage c) (showSetupForm c).
Definition withIsActive (b : bool) (c : Connection) :=
  mkConnection (sessionRef c) (isSessionOpenRef c) b (isConnecting c)
    (error c) (statusMessage c) (showSetupForm c).
Definition withIsConnecting (b : bool) (c : Connection) :=
  mkConnection (sessionRef c) (isSessionOpenRef c) (isActive c) b
    (error c) (statusMessage c) (showSetupForm c).
Definition withStatusMessage (m : JsString) (c : Connection) :=
  mkConnection (sessionRef c) (isSessionOpenRef c) (isActive c)
    (isConnecting c) (error c) m (showSetupForm c).

Definition withEndFeedback (o : option JsString) (f : Feedback) :=
  mkFeedback (interviewContextRef f) o (isGeneratingFeedback f).
Definition withIsGeneratingFeedback (b : bool) (f : Feedback) :=
  mkFeedback (interviewContextRef f) (endFeedback f) b.

Definition setIsSpeaking (b : bool) : Cmd :=
  update (onPlayback (withIsSpeaking b)).
Definition setIsActive (b : bool) : Cmd :=
  update (onConnection (withIsActive b)).
Definition setIsConnecting (b : bool) : Cmd :=
  update (onConnection (withIsConnecting b)).
Definition setStatusMessage (m : JsString) : Cmd :=
  update (onConnection (withStatusMessage m)).
Definition setRealtimeText (p : TextPair) : Cmd :=
  update (onTranscript (withRealtimeText p)).
Definition setEndFeedback (t : JsString) : Cmd :=
  update (onFeedback (withEndFeedback (Some t))).
Definition setIsGeneratingFeedback (b : bool) : Cmd :=
  update (onFeedback (withIsGeneratingFeedback b)).
(** [setTranscriptions(prev => f prev)] *)
Definition setTranscriptions
    (f : list TranscriptionEntry -> list TranscriptionEntry) : Cmd :=
  update (onTranscript (fun t => withTranscriptions (f (transcriptions t)) t)).

(** ** The live set of playback sources ([Set<AudioBufferSourceNode>]) *)

(** Sources are compared by identity. *)
Definition sameSource (a b : Source) : bool :=
  Nat.eqb (sourceId a) (sourceId b).

Definition setAdd (x : Source) (l : list Source) : list Source :=
  if existsb (sameSource x) l then l else l ++ [x].

Definition setDelete (x : Source) (l : list Source) : list Source :=
  filter (fun y => negb (sameSource x y)) l.

(** ** Calls that may throw *)

Definition orThrow (failure : option JsError) : Cmd :=
  match failure with
  | Some e => throw e
  | None => skip
  end.

Definition disconnect (n : AudioNode) : Cmd :=
  emit (NodeDisconnect n) ;; orThrow (disconnectFails n).

Definition stop (src : Source) : Cmd :=
  emit (SourceStop src) ;; orThrow (stopFails src).

(** [sessionRef.current.close?.()] *)
Definition close (sess : Session) : Cmd :=
  when (hasClose sess) (emit (SessionClose sess) ;; orThrow (closeFails sess)).

(** [sourcesRef.current.forEach(s => { try { s.stop(); } catch (e) {} })] *)
Definition stopAllSources : Cmd :=
  get (fun s =>
    forEach (sourcesRef (playback s))
      (fun src => try_catch (stop src) (fun _ => skip))).

(** ** [cleanup] *)

Definition cleanup : Cmd :=
  (* Mark session as closed first to stop audio processing *)
  update (onConnection (withIsSessionOpen false)) ;;
  emit FlagSessionClosed ;;
  (* Disconnect audio nodes *)
  get (fun s =>
    match scriptProcessorRef (capture s) with
    | Some n =>
        try_catch (disconnect n) (fun _ => skip) ;;
        update (onCapture (withScriptProcessor None))
    | None => skip
    end) ;;
  get (fun s =>
    match mediaSourceRef (capture s) with
    | Some n =>
        try_catch (disconnect n) (fun _ => skip) ;;
        update (onCapture (withMediaSource None))
    | None => skip
    end) ;;
  (* Stop media stream *)
  get (fun s =>
    match streamRef (capture s) with
    | Some m =>
        forEach (getTracks m) (fun track => emit (TrackStop track)) ;;
        update (onCapture (withStream None)) ;;
        emit StreamReleased
    | None => skip
    end) ;;
  (* Stop audio playback *)
  stopAllSources ;;
  update (onPlayback (withSources [])) ;;
  emit SourcesCleared ;;
  update (onPlayback (withNextStartTime 0)) ;;
  emit CursorReset.

(** ** [generateFeedback] *)

Definition FEEDBACK_MODEL : JsString := lit "gemini-3-flash-preview".

Definition UNABLE_MESSAGE : JsString :=
  lit "Unable to generate feedback. Please try again.".

Definition FAILED_MESSAGE : JsString :=
  lit "Failed to generate feedback. Please check your API key and connection, then try again.".

Fixpoint join (sep : JsString) (l : list JsString) : JsString :=
  match l with
  | [] => []
  | [x] => x
  | x :: r => x ++ sep ++ join sep r
  end.

Definition formatTranscript (transcript : list TranscriptionEntry)
  : JsString :=
  join [10; 10]
    (map (fun t =>
            (match role t with
             | role_user => lit "Candidate"
             | role_model => lit "Interviewer"
             end) ++ lit ": " ++ text t)
         transcript).

Fixpoint frameParts (index total : nat) (videoFrames : list JsString)
  : list ContentPart :=
  match videoFrames with
  | [] => []
  | frame :: r =>
      InlineJpeg frame
        :: (if (index <? total - 1)%nat then [FrameLabel (index + 1)] else [])
        ++ frameParts (S index) total r
  end.

Definition contentParts (transcript : list TranscriptionEntry)
    (videoFrames : list JsString) (jd resume : option JsString)
  : list ContentPart :=
  PromptAndTranscript jd resume (formatTranscript transcript)
    (length videoFrames)
    :: (if (0 <? length videoFrames)%nat
        then frameParts 0 (length videoFrames) videoFrames
        else [NoFramesNote]).

Definition stringOr (o : option JsString) : JsString :=
  match o with
  | Some x => x
  | None => []
  end.

(** The part of [generateFeedback] that runs up to the request: the early
    return, the busy flag, and the one call of the batch endpoint. *)
Definition generateFeedback (transcript : list TranscriptionEntry)
    (videoFrames : list JsString) (jd resume key : option JsString) : Cmd :=
  get (fun s =>
    let feedbackApiKey :=
      orElse (stringOr key) (apiKey (interviewContextRef (feedback s))) in
    if negb (truthy feedbackApiKey) || (length transcript =? 0)%nat then skip
    else
      setIsGeneratingFeedback true ;;
      emit (GenerateContent feedbackApiKey FEEDBACK_MODEL
              (contentParts transcript videoFrames jd resume))).

(** How the awaited [generateContent] call settles: with a response, whose
    [text] may be missing or empty, or with a rejection. *)
Inductive GenerateOutcome :=
| Resolved (responseText : option JsString)
| Rejected (err : JsError).

(** The rest of [generateFeedback], from the [await] on. *)
Definition generateFeedbackSettled (o : GenerateOutcome) : Cmd :=
  try_finally
    (try_catch
       (match o with
        | Resolved responseText =>
            setEndFeedback (orElse (stringOr responseText) UNABLE_MESSAGE)
        | Rejected err => throw err
        end)
       (fun err =>
          emit (ConsoleError (lit "Error generating feedback:") err) ;;
          setEndFeedback FAILED_MESSAGE))
    (setIsGeneratingFeedback false).

(** ** [stopSession] *)

(** The callback closes over [transcriptions]: it works on the transcript of
    the render it was created in, which is its argument here.  The stop
    button calls the callback of the latest render, so with the current
    transcript; the error and close callbacks of the connection call the one
    of the render that started the session. *)
Definition stopSession (transcriptions : list TranscriptionEntry) : Cmd :=
  emit (ConsoleLog (lit "Stopping session...")) ;;
  get (fun s0 =>
    (* Capture current transcriptions, video frames, and context *)
    let currentTranscriptions := transcriptions in
    let currentFrames := capturedFramesRef (frames s0) in
    let ctx := interviewContextRef (feedback s0) in
    match sessionRef (connection s0) with
    | Some sess =>
        try_catch (close sess)
          (fun e => emit (ConsoleError (lit "Error closing session:") e)) ;;
        update (onConnection (withSession None))
    | None => skip
    end ;;
    cleanup ;;
    setIsActive false ;;
    setIsConnecting false ;;
    setIsSpeaking false ;;
    setStatusMessage [] ;;
    (* Clear captured frames *)
    update (onFrames (withCapturedFrames [])) ;;
    update (onFrames (withLastFrameCaptureTime 0)) ;;
    (* Generate feedback if we have transcript data *)
    when (0 <? length currentTranscriptions)%nat
      (generateFeedback currentTranscriptions currentFrames
         (Some (jd ctx)) (Some (resume ctx)) (Some (apiKey ctx)))).

(** ** [handleMessage] *)

(** What the handler reads from its surroundings while it runs. *)
Record Env := mkEnv {
  currentTime : Q;          (* ctx.currentTime *)
  dateNow : nat -> Z;       (* Date.now(), call after call *)
  frameHandle : positive    (* what requestAnimationFrame returns *)
}.

Definition INVALID_CHARACTER : JsError :=
  mkJsError true (lit "The string to be decoded is not correctly encoded.").

Definition INVALID_LENGTH : JsError :=
  mkJsError true (lit "byte length of Int16Array should be a multiple of 2").

(** [await decodeAudioData(decode(audioData), ctx, 24000, 1)] *)
Definition decodeChunk (audioData : JsString)
    (k : AudioProcessing.AudioBuffer -> Cmd) : Cmd :=
  match AudioProcessing.decode audioData with
  | None => throw INVALID_CHARACTER
  | Some bytes =>
      match AudioProcessing.decodeAudioData bytes 24000 1 with
      | None => throw INVALID_LENGTH
      | Some audioBuffer => k audioBuffer
      end
  end.

(** Handle Audio Output.  The decode is awaited on a promise that is
    already settled, so what follows the [await] runs before any other
    callback: the block is one step. *)
Definition handleAudioOutput (env : Env) (msg : Msg.LiveServerMessage)
  : Cmd :=
  match audioDataOf msg with
  | Some audioData =>
      when (truthy audioData)
        (setIsSpeaking true ;;
         get (fun s =>
           match outputAudioContextRef (playback s) with
           | Some ctx =>
               update (onPlayback
                 (withNextStartTime
                    (Qmax (nextStartTimeRef (playback s)) (currentTime env)))) ;;
               decodeChunk audioData (fun audioBuffer =>
                 get (fun s1 =>
                   let source :=
                     mkSource (sourcesCreated (playback s1))
                       (nextStartTimeRef (playback s1))
                       (AudioProcessing.duration audioBuffer) None in
                   update (onPlayback
                     (withSourcesCreated (S (sourcesCreated (playback s1))))) ;;
                   emit (SourceStart source) ;;
                   update (onPlayback (fun p =>
                     withNextStartTime
                       (Double.add (nextStartTimeRef p)
                          (AudioProcessing.duration audioBuffer)) p)) ;;
                   update (onPlayback (fun p =>
                     withSources (setAdd source (sourcesRef p)) p))))
           | None => skip
           end))
  | None => skip
  end.

(** Handle Interruptions *)
Definition handleInterruptions (msg : Msg.LiveServerMessage) : Cmd :=
  when (interruptedOf msg)
    (stopAllSources ;;
     update (onPlayback (withSources [])) ;;
     emit SourcesCleared ;;
     update (onPlayback (withNextStartTime 0)) ;;
     emit CursorReset ;;
     setIsSpeaking false).

(** Throttle updates using requestAnimationFrame *)
Definition throttledUpdate (env : Env) : Cmd :=
  get (fun s =>
    match rafRef (transcript s) with
    | None =>
        update (onTranscript (withRaf (Some (frameHandle env)))) ;;
        emit (RequestAnimationFrame (frameHandle env))
    | Some _ => skip
    end).

Definition appendUser (t : JsString) (p : TextPair) : TextPair :=
  mkTextPair (user p ++ t) (model p).
Definition appendModel (t : JsString) (p : TextPair) : TextPair :=
  mkTextPair (user p) (model p ++ t).

Definition handleInputTranscription (env : Env)
    (msg : Msg.LiveServerMessage) : Cmd :=
  match inputTextOf msg with
  | Some text =>
      when (truthy text)
        (update (onTranscript (fun t =>
           withTranscriptionBuffer
             (appendUser text (transcriptionBufferRef t)) t)) ;;
         update (onTranscript (fun t =>
           withPendingText (appendUser text (pendingTextRef t)) t)) ;;
         throttledUpdate env)
  | None => skip
  end.

Definition handleOutputTranscription (env : Env)
    (msg : Msg.LiveServerMessage) : Cmd :=
  match outputTextOf msg with
  | Some text =>
      when (truthy text)
        (update (onTranscript (fun t =>
           withTranscriptionBuffer
             (appendModel text (transcriptionBufferRef t)) t)) ;;
         update (onTranscript (fun t =>
           withPendingText (appendModel text (pendingTextRef t)) t)) ;;
         throttledUpdate env)
  | None => skip
  end.

(** The entries a turn-complete finalizes from the two trimmed texts.  Each
    entry reads the clock when it is built, the user entry first. *)
Definition finalized (uText mText : JsString) (now : nat -> Z)
  : list TranscriptionEntry :=
  (if truthy uText then [mkEntry role_user uText (now 0%nat)] else [])
  ++ (if truthy mText
      then [mkEntry role_model mText
              (now (if truthy uText then 1 else 0)%nat)]
      else []).

Definition handleTurnComplete (env : Env) (msg : Msg.LiveServerMessage)
  : Cmd :=
  when (turnCompleteOf msg)
    ((* Cancel any pending RAF update *)
     get (fun s =>
       match rafRef (transcript s) with
       | Some h =>
           emit (CancelAnimationFrame h) ;;
           update (onTranscript (withRaf None))
       | None => skip
       end) ;;
     get (fun s =>
       let uText := trim (user (transcriptionBufferRef (transcript s))) in
       let mText := trim (model (transcriptionBufferRef (transcript s))) in
       when (truthy uText || truthy mText)
         (setTranscriptions (fun prev =>
            prev ++ finalized uText mText (dateNow env)))) ;;
     update (onTranscript (withTranscriptionBuffer emptyPair)) ;;
     update (onTranscript (withPendingText emptyPair)) ;;
     setRealtimeText emptyPair).

(** The [try] block of [handleMessage]. *)
Definition handleMessageBody (env : Env) (msg : Msg.LiveServerMessage)
  : Cmd :=
  handleAudioOutput env msg ;;
  handleInterruptions msg ;;
  handleInputTranscription env msg ;;
  handleOutputTranscription env msg ;;
  handleTurnComplete env msg.

Definition handleMessage (env : Env) (msg : Msg.LiveServerMessage) : Cmd :=
  try_catch (handleMessageBody env msg)
    (fun e => emit (ConsoleError (lit "Error handling message:") e)).

(** [source.onended] *)
Definition onended (source : Source) : Cmd :=
  update (onPlayback (fun p =>
    withSources (setDelete source (sourcesRef p)) p)) ;;
  get (fun s =>
    when (length (sourcesRef (playback s)) =? 0)%nat (setIsSpeaking false)).

(** The callback handed to [requestAnimationFrame]. *)
Definition onAnimationFrame : Cmd :=
  get (fun s => setRealtimeText (pendingTextRef (transcript s))) ;;
  update (onTranscript (withRaf None)).

(** ** [handleFrame] *)

Fixpoint startsWith (needle hay : JsString) : bool :=
  match needle, hay with
  | [], _ => true
  | _ :: _, [] => false
  | a :: n, b :: h => (a =? b) && startsWith n h
  end.

(** [hay.includes(needle)] *)
Fixpoint includes (needle hay : JsString) : bool :=
  startsWith needle hay
  || match hay with
     | [] => false
     | _ :: h => includes needle h
     end.

Definition handleFrame (sendFails : option JsError) (now : Z)
    (base64 : JsString) : Cmd :=
  get (fun s =>
    match sessionRef (connection s) with
    | Some sess =>
        when (isSessionOpenRef (connection s) && isActive (connection s))
          (try_catch
             (emit (SendFrame sess base64) ;;
              orThrow sendFails ;;
              (* Capture frames periodically for end-of-interview analysis *)
              get (fun s1 =>
                when (FRAME_CAPTURE_INTERVAL
                        <=? now - lastFrameCaptureTimeRef (frames s1))
                  (update (onFrames (withLastFrameCaptureTime now)) ;;
                   update (onFrames (fun f =>
                     withCapturedFrames (capturedFramesRef f ++ [base64]) f)) ;;
                   emit (FramePush base64) ;;
                   get (fun s2 =>
                     when (MAX_FRAMES_FOR_FEEDBACK
                             <? length (capturedFramesRef (frames s2)))%nat
                       (update (onFrames (fun f =>
                          withCapturedFrames (tl (capturedFramesRef f)) f)) ;;
                        emit FrameShift)))))
             (fun err =>
                when (isErrorInstance err
                      && includes (lit "CLOS") (message err))
                  (update (onConnection (withIsSessionOpen false))) ;;
                emit (ConsoleError (lit "Error sending frame:") err)))
    | None => skip
    end).

End App.

(* ================================================================== *)
(** * Vocabulary of the properties *)
(* ================================================================== *)

Import Js App.
Local Open Scope cmd_scope.

(** ** Reading a message *)

(** The buffer an audio payload decodes to, if it does. *)
Definition decodedChunk (audioData : JsString)
  : option AudioProcessing.AudioBuffer :=
  match AudioProcessing.decode audioData with
  | Some bytes => AudioProcessing.decodeAudioData bytes 24000 1
  | None => None
  end.

(** The audio payload the audio block acts on: present and not empty. *)
Definition audioOf (msg : Msg.LiveServerMessage) : option JsString :=
  match audioDataOf msg with
  | Some d => if truthy d then Some d else None
  | None => None
  end.

(** The source the audio block creates for a decoded chunk. *)
Definition scheduled (env : Env) (b : AudioProcessing.AudioBuffer)
    (p : Playback) : Source :=
  mkSource (sourcesCreated p) (Qmax (nextStartTimeRef p) (currentTime env))
    (AudioProcessing.duration b) None.

(** ** Footprints *)

Definition onlyTranscript (s s' : State) : Prop :=
  playback s' = playback s /\ capture s' = capture s /\ frames s' = frames s
  /\ connection s' = connection s /\ feedback s' = feedback s.

Definition onlyPlayback (s s' : State) : Prop :=
  transcript s' = transcript s /\ capture s' = capture s /\ frames s' = frames s
  /\ connection s' = connection s /\ feedback s' = feedback s.

(** The state the blocks after the audio block lead to. *)
Definition afterAudio (env : Env) (msg : Msg.LiveServerMessage) (s1 : State)
  : State :=
  let s2 := state (handleInterruptions msg s1) in
  let s3 := state (handleInputTranscription env msg s2) in
  let s4 := state (handleOutputTranscription env msg s3) in
  state (handleTurnComplete env msg s4).

(** Actions that take a session apart. *)
Definition isTeardown (a : Action) : bool :=
  match a with
  | FlagSessionClosed | NodeDisconnect _ | TrackStop _ | StreamReleased
  | SessionClose _ => true
  | _ => false
  end.

Definition noTeardown (tr : list Action) : Prop :=
  Forall (fun a => isTeardown a = false) tr.

(** Actions that only concern the interim display. *)
Definition isDisplayAction (a : Action) : bool :=
  match a with
  | RequestAnimationFrame _ | CancelAnimationFrame _ => true
  | _ => false
  end.

Definition displayOnly (tr : list Action) : Prop :=
  Forall (fun a => isDisplayAction a = true) tr.

(** ** Sample states and messages *)

(** The component as it is mounted: nothing acquired yet. *)
Definition initialState : State :=
  mkState
    (mkPlayback None 0 [] false 0)
    (mkTranscript emptyPair emptyPair None emptyPair [])
    (mkCapture None None None)
    (mkFrames [] 0)
    (mkConnection None false false false None [] true)
    (mkFeedback (mkInterviewContext [] [] []) None false).

(** An open session: contexts created, microphone wired, key stored. *)
Definition openState : State :=
  mkState
    (mkPlayback (Some 1%nat) 0 [] false 0)
    (mkTranscript emptyPair emptyPair None emptyPair [])
    (mkCapture (Some (mkAudioNode 1 None)) (Some (mkAudioNode 2 None))
       (Some (mkMediaStream [7%nat])))
    (mkFrames [] 0)
    (mkConnection (Some (mkSession 1 true None)) true true false None [] false)
    (mkFeedback (mkInterviewContext [] [] (lit "key")) None false).

Definition contentMessage (audio : option JsString) (interrupt : bool)
    (input output : option JsString) (complete : bool)
  : Msg.LiveServerMessage :=
  Msg.mkMessage (Some (Msg.mkServerContent
    (match audio with
     | Some d =>
         Some (Msg.mkContent (Some [Msg.mkPart (Some (Msg.mkBlob (Some d)))]))
     | None => None
     end)
    interrupt
    (match input with
     | Some t => Some (Msg.mkTranscription (Some t))
     | None => None
     end)
    (match output with
     | Some t => Some (Msg.mkTranscription (Some t))
     | None => None
     end)
    complete)).

(** Three frames of silence at 24 kHz, base64 encoded. *)
Definition silence3 : JsString := lit "AAAAAAAA".

(** The clock reads 1000 ms at the first call and one more at each
    further one. *)
Definition sampleEnv : Env := mkEnv 5 (fun n => 1000 + Z.of_nat n) 1.

(** A session in which one chunk of response audio is playing. *)
Definition playingState : State :=
  state (handleMessage sampleEnv
           (contentMessage (Some silence3) false None None false) openState).

(** A session in which the candidate has been heard saying something that
    no turn-complete has finalized yet. *)
Definition hearingState : State :=
  state (handleMessage sampleEnv
           (contentMessage None false (Some (lit "hello")) None false)
           openState).
(** ** Teardown and the feedback request *)

(** Disconnecting a node, when there is one. *)
Definition disconnected (o : option AudioNode) : list Action :=
  match o with
  | Some n => [NodeDisconnect n]
  | None => []
  end.

(** Stopping and releasing the microphone stream, when there is one. *)
Definition released (o : option MediaStream) : list Action :=
  match o with
  | Some m => map TrackStop (getTracks m) ++ [StreamReleased]
  | None => []
  end.

(** The order of teardown, after the specification: "flip the open-flag
    false first, then disconnect audio processing nodes, then stop and
    release the microphone stream, then stop every active playback source
    and clear the set, then reset the playback cursor". *)
Definition teardownOrder (s : State) : list Action :=
  [FlagSessionClosed]
  ++ disconnected (scriptProcessorRef (capture s))
  ++ disconnected (mediaSourceRef (capture s))
  ++ released (streamRef (capture s))
  ++ map SourceStop (sourcesRef (playback s))
  ++ [SourcesCleared]
  ++ [CursorReset].

(** The state [cleanup] leaves behind. *)
Definition cleaned (s : State) : State :=
  onPlayback (fun p =>
      mkPlayback (outputAudioContextRef p) 0 [] (isSpeaking p) (sourcesCreated p))
    (onCapture (fun _ => mkCapture None None None)
       (onConnection (withIsSessionOpen false) s)).

(** What closing the session handle does, when there is one. *)
Definition closing (s : State) : list Action :=
  match sessionRef (connection s) with
  | Some sess =>
      if hasClose sess then
        SessionClose sess
          :: match closeFails sess with
             | Some e => [ConsoleError (lit "Error closing session:") e]
             | None => []
             end
      else []
  | None => []
  end.

(** Whether a stop that works on the transcript [tr] hands it to the
    synthesizer and the synthesizer goes on to call the batch endpoint. *)
Definition feedbackDue (tr : list TranscriptionEntry) (s : State) : bool :=
  (0 <? length tr)%nat && truthy (apiKey (interviewContextRef (feedback s))).

(** The request of such a stop. *)
Definition feedbackRequest (tr : list TranscriptionEntry) (s : State)
  : list Action :=
  if feedbackDue tr s then
    [GenerateContent (apiKey (interviewContextRef (feedback s))) FEEDBACK_MODEL
       (contentParts tr (capturedFramesRef (frames s))
          (Some (jd (interviewContextRef (feedback s))))
          (Some (resume (interviewContextRef (feedback s)))))]
  else [].

(** The state a stop leaves behind. *)
Definition stopped (tr : list TranscriptionEntry) (s : State) : State :=
  mkState
    (mkPlayback (outputAudioContextRef (playback s)) 0 [] false
       (sourcesCreated (playback s)))
    (transcript s)
    (mkCapture None None None)
    (mkFrames [] 0)
    (mkConnection None false false false (error (connection s)) []
       (showSetupForm (connection s)))
    (if feedbackDue tr s then withIsGeneratingFeedback true (feedback s)
     else feedback s).

(** Calls of the batch endpoint. *)
Definition isRequest (a : Action) : bool :=
  match a with
  | GenerateContent _ _ _ => true
  | _ => false
  end.

(** An open session after one finalized user turn. *)
Definition talkedState : State :=
  state (handleMessage sampleEnv
           (contentMessage None false (Some (lit "hello")) None true) openState).

(** ** Failures of the feedback call *)

(** The ways the feedback call fails: the request is rejected (network,
    quota, a response the client cannot parse), or it resolves with no text. *)
Definition isFailure (o : GenerateOutcome) : bool :=
  match o with
  | Rejected _ => true
  | Resolved responseText => negb (truthy (stringOr responseText))
  end.

(** The feedback text on display once the call has settled. *)
Definition shown (o : GenerateOutcome) (s : State) : option JsString :=
  endFeedback (feedback (state (generateFeedbackSettled o s))).

(** ** The frame sampler *)

(** A captured frame arrives: what the send does, the clock, the image. *)
Record FrameEvent := mkFrameEvent {
  sendFails : option JsError;
  arrivedAt : Z;
  base64 : JsString
}.

(** [handleFrame] on such an arrival. *)
Definition handleFrameEvent (ev : FrameEvent) : Cmd :=
  handleFrame (sendFails ev) (arrivedAt ev) (base64 ev).

(** A retention: [capturedFramesRef.current.push]. *)
Definition isPush (a : Action) : bool :=
  match a with
  | FramePush _ => true
  | _ => false
  end.

(** Frames arriving one after the other. *)
Definition runFrames (evs : list FrameEvent) : Cmd :=
  forEach evs handleFrameEvent.

(** The frames a run of the sampler retains, with their times, in order. *)
Fixpoint retentions (evs : list FrameEvent) (s : State)
  : list (Z * JsString) :=
  match evs with
  | [] => []
  | ev :: rest =>
      let r := handleFrameEvent ev s in
      (if existsb isPush (trace r) then [(arrivedAt ev, base64 ev)] else [])
      ++ retentions rest (state r)
  end.

(** The last [n] elements of a list. *)
Definition lastN {A : Type} (n : nat) (l : list A) : list A :=
  skipn (length l - n) l.

(** Each time is at least [FRAME_CAPTURE_INTERVAL] after the one before it,
    the first one after [t0]. *)
Fixpoint spaced (t0 : Z) (times : list Z) : Prop :=
  match times with
  | [] => True
  | t :: rest => FRAME_CAPTURE_INTERVAL <= t - t0 /\ spaced t rest
  end.

(** Whether [handleFrame] retains the frame: the guards of the source. *)
Definition retains (ev : FrameEvent) (s : State) : bool :=
  match sessionRef (connection s) with
  | Some _ =>
      isSessionOpenRef (connection s) && isActive (connection s)
      && match sendFails ev with Some _ => false | None => true end
      && (FRAME_CAPTURE_INTERVAL <=? arrivedAt ev - lastFrameCaptureTimeRef (frames s))
  | None => false
  end.

(** Frames [from], [from+1], ... arriving one second apart. *)
Fixpoint everySecond (n : nat) (from : Z) : list FrameEvent :=
  match n with
  | O => []
  | S k => mkFrameEvent None (from * 1000) [from] :: everySecond k (from + 1)
  end.

(** ** The playback schedule *)

(** The sources a trace starts, in order. *)
Definition started (tr : list Action) : list Source :=
  flat_map (fun a => match a with SourceStart src => [src] | _ => [] end) tr.

(** Messages arriving one after the other. *)
Definition runMessages (evs : list (Env * Msg.LiveServerMessage)) : Cmd :=
  forEach evs (fun ev => handleMessage (fst ev) (snd ev)).

(** A time the audio clock can show: the value of a double, not below
    zero. *)
Definition timeValue (q : Q) : Prop :=
  (0 <= q)%Q /\ Double.isDouble q = true.

(** No chunk starts before the cursor, and each one moves the cursor to its
    own end: its start plus its duration. *)
Fixpoint gapFree (cursor : Q) (l : list Source) : Prop :=
  match l with
  | [] => True
  | src :: rest =>
      (cursor <= startedAt src)%Q
      /\ gapFree (startedAt src + bufferDuration src)%Q rest
  end.

(** No chunk starts before the cursor, and each one moves the cursor to its
    own end as the code computes it: the sum of the two doubles, rounded. *)
Fixpoint followsCursor (cursor : Q) (l : list Source) : Prop :=
  match l with
  | [] => True
  | src :: rest =>
      (cursor <= startedAt src)%Q
      /\ followsCursor (Double.add (startedAt src) (bufferDuration src)) rest
  end.

(** Each element is at most the next. *)
Fixpoint ascending (l : list Q) : Prop :=
  match l with
  | a :: (b :: _) as rest => (a <= b)%Q /\ ascending rest
  | _ => True
  end.

(** [n] frames of silence, decoded. *)
Definition silentBuffer (n : nat) : AudioProcessing.AudioBuffer :=
  AudioProcessing.mkAudioBuffer [repeat (0 / 32768)%Q n] 24000 n.

(** A chunk of three frames of silence arriving at clock time [clock]. *)
Definition chunkAt (clock : Q) : Env * Msg.LiveServerMessage :=
  (mkEnv clock (fun _ => 0) 1, contentMessage (Some silence3) false None None false).

(** ** The speaking signal *)

(** The speaking signal agrees with the live set: it is on exactly when the
    set is not empty. *)
Definition speakingMatches (s : State) : Prop :=
  isSpeaking (playback s) = negb (length (sourcesRef (playback s)) =? 0)%nat.

(** A message whose audio payload is not base64. *)
Definition undecodable : Msg.LiveServerMessage :=
  contentMessage (Some (lit "!")) false None None false.

(** A message whose audio payload is three bytes long: one sample and a
    half. *)
Definition truncated : Msg.LiveServerMessage :=
  contentMessage (Some (lit "AAAA")) false None None false.

(** ** The PCM codec *)

Import AudioProcessing.

Definition isByte (b : Z) : Prop := 0 <= b < 256.

Definition isSextet (n : Z) : Prop := 0 <= n < 64.

Definition isInt16 (v : Z) : Prop := -32768 <= v <= 32767.

(** One quantization step of 16-bit PCM. *)
Definition QUANTUM : Q := 1 # 32768.

(** What the far end reads back from an encoded chunk: the blob's base64
    data decoded to bytes and the bytes read as one channel of 16-bit
    little-endian samples, each divided by 32768. *)
Definition reconstruct (samples : list Q) : option (list Q) :=
  match decode (data (createPcmBlob samples)) with
  | Some bytes =>
      match decodeAudioData bytes 16000 1 with
      | Some buffer => nth_error (channelData buffer) 0
      | None => None
      end
  | None => None
  end.

(** [y] is within [k] quantization steps of [x] clamped to [-1, 1]. *)
Definition withinSteps (k : Q) (x y : Q) : Prop :=
  (Qabs (y - clamp x) <= k * QUANTUM)%Q.

(** ** Frames, interim text, requests and the live set *)

(** The frames a trace sends to the live session, in order. *)
Definition sentFrames (tr : list Action) : list JsString :=
  flat_map (fun a => match a with SendFrame _ f => [f] | _ => [] end) tr.

(** The guard of [handleFrame]: the open flag, a session handle, an active
    interview. *)
Definition forwarding (s : State) : bool :=
  match sessionRef (connection s) with
  | Some _ => isSessionOpenRef (connection s) && isActive (connection s)
  | None => false
  end.

(** A send failure that [handleFrame] takes for a closed connection. *)
Definition looksClosed (e : JsError) : bool :=
  isErrorInstance e && includes (lit "CLOS") (message e).

Definition closedSocket : JsError :=
  mkJsError true (lit "WebSocket is already in CLOSING or CLOSED state.").

(** How often a trace asks for an animation frame. *)
Definition frameRequests (tr : list Action) : nat :=
  length (filter (fun a => match a with
                           | RequestAnimationFrame _ => true
                           | _ => false
                           end) tr).

(** The partial texts a run of messages carries for the user and for the
    model, in the order of arrival. *)
Definition inputTexts (evs : list (Env * Msg.LiveServerMessage)) : JsString :=
  concat (map (fun ev => stringOr (inputTextOf (snd ev))) evs).

Definition outputTexts (evs : list (Env * Msg.LiveServerMessage)) : JsString :=
  concat (map (fun ev => stringOr (outputTextOf (snd ev))) evs).

(** A message of partial transcription only: no audio, no turn-complete. *)
Definition partialOnly (msg : Msg.LiveServerMessage) : Prop :=
  audioOf msg = None /\ turnCompleteOf msg = false.

(** What a block of partial text does to the accumulators and to the
    throttle, with [text] the text it carries (empty when it carries none). *)
Definition accumulated (append : JsString -> TextPair -> TextPair)
    (handle : positive) (text : JsString) (t : Transcript) : Transcript :=
  if truthy text then
    mkTranscript (append text (transcriptionBufferRef t))
      (append text (pendingTextRef t))
      (match rafRef t with Some h => Some h | None => Some handle end)
      (realtimeText t) (transcriptions t)
  else t.

(** The user says [text]. *)
Definition heard (text : string) : Env * Msg.LiveServerMessage :=
  (sampleEnv, contentMessage None false (Some (lit text)) None false).

(** The model says [text]. *)
Definition said (text : string) : Env * Msg.LiveServerMessage :=
  (sampleEnv, contentMessage None false None (Some (lit text)) false).

(** The images attached to a request, in order. *)
Definition inlineImages (parts : list ContentPart) : list JsString :=
  flat_map (fun p => match p with InlineJpeg f => [f] | _ => [] end) parts.

(** Images in order, each but the last followed by its label, the labels
    counting from [k]. *)
Fixpoint labelled (k : nat) (videoFrames : list JsString)
  : list ContentPart :=
  match videoFrames with
  | [] => []
  | [frame] => [InlineJpeg frame]
  | frame :: rest => InlineJpeg frame :: FrameLabel k :: labelled (S k) rest
  end.

(** The requests of a trace. *)
Definition requests (tr : list Action) : list Action := filter isRequest tr.

(** An open session with one finalized turn and frames retained. *)
Definition filmedState : State :=
  state (runFrames (everySecond 12 5) talkedState).

(** Every source of the live set was created before the next one to come:
    the set holds only sources the component has made. *)
Definition wellAllocated (p : Playback) : Prop :=
  Forall (fun src => (sourceId src < sourcesCreated p)%nat) (sourcesRef p).

(** The sources of the set ending one after the other. *)
Definition runEnds (ends : list Source) : Cmd := forEach ends onended.

(** [src] is one of [l], by identity. *)
Definition among (l : list Source) (src : Source) : bool :=
  existsb (sameSource src) l.

(** Only the feedback state differs. *)
Definition onlyFeedback (s s' : State) : Prop :=
  playback s' = playback s /\ transcript s' = transcript s
  /\ capture s' = capture s /\ frames s' = frames s
  /\ connection s' = connection s.

(** A message with everything in it, and an audio payload that is not
    base64. *)
Definition garbled : Msg.LiveServerMessage :=
  contentMessage (Some (lit "!")) true (Some (lit "hello")) (Some (lit "hi"))
    true.


(** ** The signals of a message *)

(** [handleMessage] has finalized the turn: both accumulators, with the
    partial texts of the message appended, were trimmed; the transcript has
    grown by nothing when both trimmed texts are empty, else by the user
    entry, the model entry, or the user entry followed by the model entry,
    each stamped with a clock reading of its own; the accumulators, the
    pending buffer and the interim display are empty. *)
Definition turnFinalized (env : Env) (msg : Msg.LiveServerMessage)
    (s : State) : Prop :=
  let uText := trim (user (transcriptionBufferRef (transcript s))
                     ++ stringOr (inputTextOf msg)) in
  let mText := trim (model (transcriptionBufferRef (transcript s))
                     ++ stringOr (outputTextOf msg)) in
  let now := dateNow env in
  let t' := transcript (state (handleMessage env msg s)) in
  (exists emitted,
      transcriptions t' = transcriptions (transcript s) ++ emitted
      /\ ((uText = [] /\ mText = [] /\ emitted = [])
          \/ (uText <> [] /\ mText = []
              /\ emitted = [mkEntry role_user uText (now 0%nat)])
          \/ (uText = [] /\ mText <> []
              /\ emitted = [mkEntry role_model mText (now 0%nat)])
          \/ (uText <> [] /\ mText <> []
              /\ emitted = [mkEntry role_user uText (now 0%nat);
                            mkEntry role_model mText (now 1%nat)])))
  /\ transcriptionBufferRef t' = emptyPair
  /\ pendingTextRef t' = emptyPair
  /\ realtimeText t' = emptyPair.

(** [handleMessage] has cut the playback off: [stop] was called on every
    active source -- those of the prior state and the one the same message
    may have enqueued --, the set of sources is empty, the cursor is at zero
    and the speaking signal is false. *)
Definition playbackCleared (env : Env) (msg : Msg.LiveServerMessage)
    (s : State) : Prop :=
  let r := handleMessage env msg s in
  (forall src,
      In src (sourcesRef (playback s)) -> In (SourceStop src) (trace r))
  /\ (forall src,
        In src (sourcesRef (playback (state (handleAudioOutput env msg s)))) ->
        In (SourceStop src) (trace r))
  /\ sourcesRef (playback (state r)) = []
  /\ nextStartTimeRef (playback (state r)) = 0%Q
  /\ isSpeaking (playback (state r)) = false.
(* ================================================================== *)
(** * Starting a session and the callbacks of the connection
      ([App.tsx]) *)
(* ================================================================== *)

Module Lifecycle.
Import Js App.

(** ** Thrown values, as the catch blocks read them *)

(** A thrown value is [null] or [undefined], or a value with its [name]
    ([None] when it has none), and the string [toString()] gives; the
    [JsError] carries [instanceof Error] and [message] (empty when the value
    has none: the code only tests it with [||] and [includes]). *)
Inductive Thrown :=
| Nullish
| Value (err : JsError) (name : option JsString) (asString : JsString).

Definition thrownError (t : Thrown) : JsError :=
  match t with
  | Nullish => mkJsError false []
  | Value err _ _ => err
  end.

(** A value thrown by a command of the controller. *)
Definition ofError (e : JsError) : Thrown := Value e None (message e).

(** Reading a property of [null]. *)
Definition TYPE_ERROR : Thrown :=
  Value (mkJsError true (lit "Cannot read properties of null"))
    (Some (lit "TypeError"))
    (lit "TypeError: Cannot read properties of null").

(** How an awaited call settles. *)
Inductive Settled (A : Type) :=
| Fulfilled (a : A)
| RejectedWith (t : Thrown).
Arguments Fulfilled {A} a.
Arguments RejectedWith {A} t.

(** ** The component with the capture context *)

(** [audioContextRef], the context of the capture graph, next to the refs and
    state of the controller. *)
Record Component := mkComponent {
  controller : State;
  audioContextRef : option nat
}.

(** What a handler does to the outside: the actions of the controller, and
    the calls that start a session and feed it. *)
Inductive Effect :=
| Did (a : Action)
| GetUserMedia                              (* getUserMedia({ audio: true }) *)
| NewAudioContext (sampleRate : Z) (ctx : nat)
| ResumeContext (ctx : nat)                 (* ctx.resume() *)
| LiveConnect (key modelName jobDescription resumeContent : JsString)
| CreateMediaStreamSource (ctx : nat) (stream : MediaStream) (n : AudioNode)
| CreateScriptProcessor (ctx : nat) (n : AudioNode)
| ConnectNodes (from to : nat)              (* from.connect(to) *)
| ConnectDestination (from ctx : nat)       (* from.connect(ctx.destination) *)
| SendAudio (sess : Session) (media : AudioProcessing.PcmBlob).

Inductive Outcome := Done | Threw (t : Thrown).

Record Run := mkRun {
  outcome : Outcome;
  component : Component;
  effects : list Effect
}.

Definition Proc := Component -> Run.

Definition pass : Proc := fun k => mkRun Done k [].
Definition raise (t : Thrown) : Proc := fun k => mkRun (Threw t) k [].
Definition effect (e : Effect) : Proc := fun k => mkRun Done k [e].
Definition modify (f : Component -> Component) : Proc :=
  fun k => mkRun Done (f k) [].
Definition read (p : Component -> Proc) : Proc := fun k => p k k.

Definition andThen (p1 p2 : Proc) : Proc :=
  fun k =>
    let r1 := p1 k in
    match outcome r1 with
    | Done =>
        let r2 := p2 (component r1) in
        mkRun (outcome r2) (component r2) (effects r1 ++ effects r2)
    | Threw _ => r1
    end.

(** [try { p } catch (err) { h err }] *)
Definition tryCatch (p : Proc) (h : Thrown -> Proc) : Proc :=
  fun k =>
    let r1 := p k in
    match outcome r1 with
    | Done => r1
    | Threw t =>
        let r2 := h t (component r1) in
        mkRun (outcome r2) (component r2) (effects r1 ++ effects r2)
    end.

(** A command of the controller, run on the controller's part of the
    component. *)
Definition lift (c : Cmd) : Proc :=
  fun k =>
    let r := c (controller k) in
    mkRun (match completion r with
           | Normal => Done
           | Abrupt e => Threw (ofError e)
           end)
      (mkComponent (state r) (audioContextRef k))
      (map Did (trace r)).

Definition orRaise (failure : option Thrown) : Proc :=
  match failure with
  | Some t => raise t
  | None => pass
  end.

(** [const x = await call]: the continuation runs on the value, a rejection
    is thrown. *)
Definition await {A : Type} (o : Settled A) (p : A -> Proc) : Proc :=
  match o with
  | Fulfilled a => p a
  | RejectedWith t => raise t
  end.

Declare Scope proc_scope.
Delimit Scope proc_scope with proc.
Bind Scope proc_scope with Proc.
Notation "p1 ;; p2" := (andThen p1 p2)
  (at level 61, right associativity) : proc_scope.
Local Open Scope proc_scope.

(** ** Writes to refs and state *)

Definition onApp (f : State -> State) (k : Component) : Component :=
  mkComponent (f (controller k)) (audioContextRef k).
Definition withAudioContext (o : option nat) (k : Component) : Component :=
  mkComponent (controller k) o.

Definition withError (o : option JsString) (c : Connection) :=
  mkConnection (sessionRef c) (isSessionOpenRef c) (isActive c)
    (isConnecting c) o (statusMessage c) (showSetupForm c).
Definition withShowSetupForm (b : bool) (c : Connection) :=
  mkConnection (sessionRef c) (isSessionOpenRef c) (isActive c)
    (isConnecting c) (error c) (statusMessage c) b.
Definition withOutputAudioContext (o : option nat) (p : Playback) :=
  mkPlayback o (nextStartTimeRef p) (sourcesRef p) (isSpeaking p)
    (sourcesCreated p).
Definition withInterviewContext (c : InterviewContext) (f : Feedback) :=
  mkFeedback c (endFeedback f) (isGeneratingFeedback f).

Definition setError (o : option JsString) : Proc :=
  modify (onApp (onConnection (withError o))).
Definition setShowSetupForm (b : bool) : Proc :=
  modify (onApp (onConnection (withShowSetupForm b))).
Definition setIsConnecting (b : bool) : Proc :=
  modify (onApp (onConnection (withIsConnecting b))).
Definition setIsActive (b : bool) : Proc :=
  modify (onApp (onConnection (withIsActive b))).
Definition setStatusMessage (m : JsString) : Proc :=
  modify (onApp (onConnection (withStatusMessage m))).
(** [isSessionOpenRef.current = b] *)
Definition setSessionOpen (b : bool) : Proc :=
  modify (onApp (onConnection (withIsSessionOpen b))).

(** ** [startSession] *)

Definition MODEL_NAME : JsString :=
  lit "gemini-2.5-flash-native-audio-preview-12-2025".

(** [a === b] on strings. *)
Fixpoint sameString (a b : JsString) : bool :=
  match a, b with
  | [], [] => true
  | x :: a', y :: b' => (x =? y)%Z && sameString a' b'
  | _, _ => false
  end.

(** [err.name === n] *)
Definition named (name : option JsString) (n : string) : bool :=
  match name with
  | Some x => sameString x (lit n)
  | None => false
  end.

Definition BLANK_KEY_MESSAGE : JsString :=
  lit "Please enter your Gemini API key to start the interview.".
Definition MICROPHONE_DENIED : JsString :=
  lit "Microphone access denied. Please allow microphone access and try again.".
Definition NO_MICROPHONE : JsString :=
  lit "No microphone found. Please connect a microphone and try again.".
Definition INVALID_KEY : JsString :=
  lit "Invalid API key. Please check that your Gemini API key is correct and has not expired. You can get a new key from Google AI Studio.".
Definition QUOTA_EXCEEDED : JsString :=
  lit "API quota exceeded. Your API key has reached its usage limit. Please check your Google AI Studio account or try again later.".
Definition MODEL_UNAVAILABLE : JsString :=
  lit "Model not available. The AI model may be temporarily unavailable. Please try again in a few moments.".
Definition UNKNOWN_START_ERROR : JsString :=
  lit "Unknown error occurred. Please check your API key and try again.".

(** [errorMessage.includes(needle)] *)
Definition mentions (errorMessage : JsString) (needle : string) : bool :=
  includes (lit needle) errorMessage.

(** The message the catch block of [startSession] shows, from [err.name] and
    [errorMessage]. *)
Definition startErrorMessage (name : option JsString)
    (errorMessage : JsString) : JsString :=
  if named name "NotAllowedError" then MICROPHONE_DENIED
  else if named name "NotFoundError" then NO_MICROPHONE
  else if mentions errorMessage "API_KEY_INVALID"
          || mentions errorMessage "API key not valid"
          || mentions errorMessage "invalid api key"
          || mentions errorMessage "401"
          || mentions errorMessage "403"
          || mentions errorMessage "PERMISSION_DENIED"
          || mentions errorMessage "UNAUTHENTICATED"
  then INVALID_KEY
  else if mentions errorMessage "quota"
          || mentions errorMessage "RESOURCE_EXHAUSTED"
  then QUOTA_EXCEEDED
  else if mentions errorMessage "not found"
          || mentions errorMessage "NOT_FOUND"
  then MODEL_UNAVAILABLE
  else lit "Failed to start interview: "
       ++ orElse errorMessage UNKNOWN_START_ERROR.

(** [err?.message || err?.toString() || fallback] *)
Definition describe (err : Thrown) (fallback : JsString) : JsString :=
  match err with
  | Nullish => fallback
  | Value e _ asString => orElse (message e) (orElse asString fallback)
  end.

(** The catch block of [startSession]. *)
Definition startFailed (err : Thrown) : Proc :=
  effect (Did (ConsoleError (lit "Failed to start session:")
                 (thrownError err))) ;;
  lift cleanup ;;
  setIsConnecting false ;;
  setShowSetupForm true ;;
  let errorMessage := describe err [] in
  match err with
  | Nullish => raise TYPE_ERROR                      (* err.name *)
  | Value _ name _ => setError (Some (startErrorMessage name errorMessage))
  end.

(** The calls [startSession] awaits before it connects, and the contexts it
    constructs. *)
Record StartEnv := mkStartEnv {
  getUserMedia : Settled MediaStream;
  newInputContext : Settled nat;       (* new AudioContext({ 16000 }) *)
  newOutputContext : Settled nat;      (* new AudioContext({ 24000 }) *)
  resumeInput : option Thrown;         (* audioContextRef.current.resume() *)
  resumeOutput : option Thrown
}.

(** [await ctxRef.current.resume()] *)
Definition resumeContext (ctxRef : option nat) (rejects : option Thrown) : Proc :=
  match ctxRef with
  | Some ctx => effect (ResumeContext ctx) ;; orRaise rejects
  | None => raise TYPE_ERROR
  end.

(** The [try] block of [startSession], up to the call of
    [ai.live.connect]. *)
Definition startSteps (apiKey jobDescription resumeContent : JsString)
    (io : StartEnv) : Proc :=
  setError None ;;
  setIsConnecting true ;;
  setShowSetupForm false ;;
  setStatusMessage (lit "Requesting microphone access...") ;;
  (* Request microphone first *)
  effect GetUserMedia ;;
  await (getUserMedia io) (fun stream =>
    modify (onApp (onCapture (withStream (Some stream)))) ;;
    setStatusMessage (lit "Microphone connected. Initializing AI...") ;;
    (* Setup Audio Contexts *)
    read (fun k =>
      match audioContextRef k with
      | None =>
          await (newInputContext io) (fun ctx =>
            effect (NewAudioContext 16000 ctx) ;;
            modify (withAudioContext (Some ctx)))
      | Some _ => pass
      end) ;;
    read (fun k =>
      match outputAudioContextRef (playback (controller k)) with
      | None =>
          await (newOutputContext io) (fun ctx =>
            effect (NewAudioContext 24000 ctx) ;;
            modify (onApp (onPlayback (withOutputAudioContext (Some ctx)))))
      | Some _ => pass
      end) ;;
    (* Resume audio contexts *)
    read (fun k => resumeContext (audioContextRef k) (resumeInput io)) ;;
    read (fun k =>
      resumeContext (outputAudioContextRef (playback (controller k)))
        (resumeOutput io)) ;;
    setStatusMessage (lit "Connecting to Gemini...") ;;
    (* Connect to live session *)
    effect (LiveConnect (trim apiKey) MODEL_NAME jobDescription
              resumeContent)).

(** [startSession], up to the call of [ai.live.connect].  [apiKey],
    [jobDescription] and [resumeContent] are the fields of the setup form the
    function closes over. *)
Definition startSession (apiKey jobDescription resumeContent : JsString)
    (io : StartEnv) : Proc :=
  if negb (truthy (trim apiKey)) then
    setError (Some BLANK_KEY_MESSAGE)
  else
    (* Store interview context for feedback generation *)
    modify (onApp (onFeedback (withInterviewContext
      (mkInterviewContext jobDescription resumeContent (trim apiKey))))) ;;
    tryCatch (startSteps apiKey jobDescription resumeContent io) startFailed.

(** The rest of [startSession], from the [await] of [ai.live.connect] on: the
    session handle is stored, or the rejection goes to the same catch
    block. *)
Definition connectSettled (o : Settled Session) : Proc :=
  match o with
  | Fulfilled session =>
      modify (onApp (onConnection (withSession (Some session))))
  | RejectedWith err => startFailed err
  end.

(** ** The callbacks of the connection *)

(** [scriptProcessor.onaudioprocess]: one buffer of microphone samples;
    [sendRealtimeInput] may throw. *)
Definition onaudioprocess (inputData : list Q) (sendFails : option Thrown)
  : Proc :=
  read (fun k =>
    match sessionRef (connection (controller k)) with
    | Some sess =>
        (* Only send if session is open *)
        if isSessionOpenRef (connection (controller k)) then
          let pcmBlob := AudioProcessing.createPcmBlob inputData in
          tryCatch
            (effect (SendAudio sess pcmBlob) ;; orRaise sendFails)
            (fun err =>
               if isErrorInstance (thrownError err)
                  && (includes (lit "CLOS") (message (thrownError err))
                      || includes (lit "not open")
                           (message (thrownError err)))
               then setSessionOpen false
               else effect (Did (ConsoleError (lit "Error sending audio:")
                                   (thrownError err))))
        else pass
    | None => pass
    end).

(** [onopen]; [stream] is the microphone stream [startSession] obtained,
    [source] and [scriptProcessor] the nodes the capture context creates. *)
Definition onopen (stream : MediaStream) (source scriptProcessor : AudioNode)
  : Proc :=
  effect (Did (ConsoleLog (lit "Gemini Live session opened"))) ;;
  setSessionOpen true ;;
  setStatusMessage (lit "Connected! Starting interview...") ;;
  setIsActive true ;;
  setIsConnecting false ;;
  (* Setup audio streaming *)
  read (fun k =>
    match audioContextRef k with
    | Some ctx =>
        effect (CreateMediaStreamSource ctx stream source) ;;
        modify (onApp (onCapture (withMediaSource (Some source)))) ;;
        effect (CreateScriptProcessor ctx scriptProcessor) ;;
        modify (onApp (onCapture (withScriptProcessor
                                    (Some scriptProcessor)))) ;;
        effect (ConnectNodes (nodeId source) (nodeId scriptProcessor)) ;;
        effect (ConnectDestination (nodeId scriptProcessor) ctx)
    | None => raise TYPE_ERROR
    end).

(** [onerror].  [stopSession] is the callback of the render that started the
    session: [captured] is the transcript of that render. *)
Definition onerror (captured : list TranscriptionEntry) (e : Thrown) : Proc :=
  effect (Did (ConsoleError (lit "Session error:") (thrownError e))) ;;
  setSessionOpen false ;;
  let errorMessage := describe e (lit "Unknown error occurred") in
  setError (Some (lit "Connection error: " ++ errorMessage)) ;;
  lift (stopSession captured).

(** [onclose] *)
Definition onclose (captured : list TranscriptionEntry) : Proc :=
  effect (Did (ConsoleLog (lit "Session closed:"))) ;;
  setSessionOpen false ;;
  setStatusMessage (lit "Session ended") ;;
  lift (stopSession captured).

(** ** [handleNewInterview] *)

Definition handleNewInterview : Proc :=
  modify (onApp (onFeedback (withEndFeedback None))) ;;
  modify (onApp (onTranscript (withTranscriptions []))) ;;
  setShowSetupForm true.

(** ** Vocabulary of the properties: starting a session *)

(** The first of the steps of [startSession] before the connect call that
    fails, if one does: the microphone, the two contexts where they have to
    be constructed, their resumption. *)
Definition startFailure (io : StartEnv) (k : Component) : option Thrown :=
  match getUserMedia io with
  | RejectedWith t => Some t
  | Fulfilled _ =>
      match audioContextRef k, newInputContext io with
      | None, RejectedWith t => Some t
      | _, _ =>
          match outputAudioContextRef (playback (controller k)),
                newOutputContext io with
          | None, RejectedWith t => Some t
          | _, _ =>
              match resumeInput io with
              | Some t => Some t
              | None => resumeOutput io
              end
          end
      end
  end.

(** The track stops among the effects, in order. *)
Definition stoppedTracks (l : list Effect) : list nat :=
  flat_map (fun e => match e with Did (TrackStop t) => [t] | _ => [] end) l.

(** The connect calls among the effects. *)
Definition connects (l : list Effect) : list Effect :=
  filter (fun e => match e with LiveConnect _ _ _ _ => true | _ => false end)
    l.

(** What a failed start leaves of the connection state: the error shown, the
    setup form back, neither connecting nor open. *)
Definition startRefused (m : JsString) (c : Connection) : Prop :=
  error c = Some m /\ showSetupForm c = true /\ isConnecting c = false
  /\ isSessionOpenRef c = false.

(** A microphone that is denied. *)
Definition deniedMicrophone : StartEnv :=
  mkStartEnv
    (RejectedWith (Value (mkJsError true (lit "Permission denied"))
                     (Some (lit "NotAllowedError"))
                     (lit "NotAllowedError: Permission denied")))
    (Fulfilled 1%nat) (Fulfilled 2%nat) None None.

(** The component as it is mounted. *)
Definition mounted : Component := mkComponent initialState None.

(** The nodes disconnected among the effects, in order. *)
Definition disconnectedNodes (l : list Effect) : list AudioNode :=
  flat_map (fun e => match e with Did (NodeDisconnect n) => [n] | _ => [] end)
    l.

(** The sessions closed among the effects. *)
Definition closedSessions (l : list Effect) : list Session :=
  flat_map (fun e => match e with Did (SessionClose s) => [s] | _ => [] end)
    l.

(** The contexts constructed among the effects. *)
Definition constructed (l : list Effect) : list Effect :=
  filter (fun e => match e with NewAudioContext _ _ => true | _ => false end)
    l.

(** An environment in which every step of a start succeeds. *)
Definition granted (stream : MediaStream) : StartEnv :=
  mkStartEnv (Fulfilled stream) (Fulfilled 1%nat) (Fulfilled 2%nat) None None.

(** A session from its start to the stop: the start, the session handle, the
    open callback, the stop on the transcript [tr]. *)
Record Lived := mkLived {
  afterStart : Run;
  afterConnect : Run;
  afterOpen : Run;
  afterStop : Run
}.

Definition live (key jobDescription resumeContent : JsString)
    (io : StartEnv) (stream : MediaStream) (sess : Session)
    (source scriptProcessor : AudioNode) (tr : list TranscriptionEntry)
    (k : Component) : Lived :=
  let r1 := startSession key jobDescription resumeContent io k in
  let r2 := connectSettled (Fulfilled sess) (component r1) in
  let r3 := onopen stream source scriptProcessor (component r2) in
  let r4 := lift (stopSession tr) (component r3) in
  mkLived r1 r2 r3 r4.

(** The value of a ref, if it holds one. *)
Definition some_list {A : Type} (o : option A) : list A :=
  match o with
  | Some a => [a]
  | None => []
  end.

(** The calls of the batch endpoint among the effects. *)
Definition requested (l : list Effect) : list Action :=
  flat_map (fun e => match e with
                     | Did (GenerateContent key m parts) =>
                         [GenerateContent key m parts]
                     | _ => []
                     end) l.

(** ** Streaming the microphone *)

(** Procedures one after the other. *)
Fixpoint inOrder {A : Type} (l : list A) (f : A -> Proc) : Proc :=
  match l with
  | [] => pass
  | x :: r => andThen (f x) (inOrder r f)
  end.

(** One call of [onaudioprocess]: the samples of the buffer, and the
    failure of the send if it fails. *)
Record AudioEvent := mkAudioEvent {
  inputData : list Q;
  audioSendFails : option Thrown
}.

Definition runAudio (evs : list AudioEvent) : Proc :=
  inOrder evs (fun ev => onaudioprocess (inputData ev) (audioSendFails ev)).

(** The audio sent to the live session, in order. *)
Definition sentAudio (l : list Effect) : list AudioProcessing.PcmBlob :=
  flat_map (fun e => match e with SendAudio _ b => [b] | _ => [] end) l.

(** The guard of [onaudioprocess]: the open flag and a session handle. *)
Definition streaming (k : Component) : bool :=
  match sessionRef (connection (controller k)) with
  | Some _ => isSessionOpenRef (connection (controller k))
  | None => false
  end.

(** A send failure that [onaudioprocess] takes for a closed connection. *)
Definition hangsUp (t : Thrown) : bool :=
  isErrorInstance (thrownError t)
  && (includes (lit "CLOS") (message (thrownError t))
      || includes (lit "not open") (message (thrownError t))).

(** The controller's frame handler on the component. *)
Definition runFramesOn (evs : list FrameEvent) : Proc := lift (runFrames evs).

(** Half a second of nothing, then a click. *)
Definition clickChunk : list Q := [0%Q; 0%Q; (1 # 2)%Q].

Definition socketNotOpen : Thrown :=
  Value (mkJsError true (lit "WebSocket is not open"))
    (Some (lit "Error")) (lit "Error: WebSocket is not open").

(** ** The component under a run of events *)

(** What can happen to the component: a click on Start and the settling of
    its connect call, the callbacks of the connection and of the capture
    graph, the end of a playback source, an animation frame, a frame of the
    camera, a click on Stop (with the transcript of the latest render), the
    settling of the feedback call, a click on New Interview. *)
Inductive Event :=
| StartClicked (apiKey jobDescription resumeContent : JsString)
    (io : StartEnv)
| ConnectSettled (o : Settled Session)
| Opened (stream : MediaStream) (source scriptProcessor : AudioNode)
| AudioProcess (ev : AudioEvent)
| Message (env : Env) (msg : Msg.LiveServerMessage)
| SourceEnded (src : Source)
| AnimationFrame
| VideoFrame (ev : FrameEvent)
| ServerError (captured : list TranscriptionEntry) (e : Thrown)
| ServerClose (captured : list TranscriptionEntry)
| StopClicked
| FeedbackSettled (o : GenerateOutcome)
| NewInterviewClicked.

Definition handle (ev : Event) : Proc :=
  match ev with
  | StartClicked key jobDescription resumeContent io =>
      startSession key jobDescription resumeContent io
  | ConnectSettled o => connectSettled o
  | Opened stream source scriptProcessor =>
      onopen stream source scriptProcessor
  | AudioProcess ev => onaudioprocess (inputData ev) (audioSendFails ev)
  | Message env msg => lift (handleMessage env msg)
  | SourceEnded src => lift (onended src)
  | AnimationFrame => lift onAnimationFrame
  | VideoFrame ev => lift (handleFrameEvent ev)
  | ServerError captured e => onerror captured e
  | ServerClose captured => onclose captured
  | StopClicked =>
      lift (get (fun s => stopSession (transcriptions (transcript s))))
  | FeedbackSettled o => lift (generateFeedbackSettled o)
  | NewInterviewClicked => handleNewInterview
  end.

(** Each event is handled on the component the one before left, whether or
    not its handler threw. *)
Fixpoint runEvents (evs : list Event) (k : Component)
  : Component * list Effect :=
  match evs with
  | [] => (k, [])
  | ev :: rest =>
      let r := handle ev k in
      let after := runEvents rest (component r) in
      (fst after, effects r ++ snd after)
  end.

(** How many of the two audio contexts are still to be constructed. *)
Definition missing (k : Component) : nat :=
  (match audioContextRef k with Some _ => 0 | None => 1 end)
  + (match outputAudioContextRef (playback (controller k)) with
     | Some _ => 0
     | None => 1
     end).

(** The two context refs. *)
Definition contexts (k : Component) : option nat * option nat :=
  (audioContextRef k, outputAudioContextRef (playback (controller k))).

(** A context ref keeps what it holds. *)
Definition keeps (before after : option nat) : Prop :=
  match before with
  | Some c => after = Some c
  | None => True
  end.

(** What a step may do to the contexts: every context it constructs fills an
    empty ref, and a ref that is filled keeps what it holds. *)
Definition contextStep (k : Component) (r : Run) : Prop :=
  (length (constructed (effects r)) + missing (component r) = missing k)%nat
  /\ keeps (audioContextRef k) (audioContextRef (component r))
  /\ keeps (outputAudioContextRef (playback (controller k)))
       (outputAudioContextRef (playback (controller (component r)))).

(** Two sessions one after the other, the first closed by the server. *)
Definition twoSessions : list Event :=
  [StartClicked (lit "key") [] [] (granted (mkMediaStream [7%nat]));
   ConnectSettled (Fulfilled (mkSession 1 true None));
   Opened (mkMediaStream [7%nat]) (mkAudioNode 2 None) (mkAudioNode 1 None);
   ServerClose [];
   StartClicked (lit "key") [] [] (granted (mkMediaStream [9%nat]));
   ConnectSettled (Fulfilled (mkSession 2 true None));
   Opened (mkMediaStream [9%nat]) (mkAudioNode 4 None) (mkAudioNode 3 None);
   StopClicked].

End Lifecycle.

(* ================================================================== *)
(** * The camera preview ([components/VideoPreview.tsx]) *)
(* ================================================================== *)

Module VideoPreview.
Import Js App.
Import Lifecycle (Thrown, Nullish, Value, thrownError, TYPE_ERROR, Settled,
  Fulfilled, RejectedWith, named, Outcome, Done, Threw).

Inductive CameraState := camera_loading | camera_ready | camera_error.

(** The refs and state of the component, the [mounted] variable of its mount
    effect, and the timer of its frame effect. *)
Record Preview := mkPreview {
  mounted : bool;
  streamRef : option MediaStream;
  srcObject : option MediaStream;       (* videoRef.current.srcObject *)
  onloadedmetadata : bool;              (* the handler is assigned *)
  cameraState : CameraState;
  errorMessage : JsString;
  interval : option nat                 (* the timer of the latest frame effect *)
}.

(** What the component does to the outside. *)
Inductive Call :=
| ConsoleLog (label : JsString)
| ConsoleError (label : JsString) (detail : JsError)
| GetUserMedia                          (* getUserMedia({ video, audio: false }) *)
| TrackStop (track : nat)
| Play                                  (* videoRef.current.play() *)
| SetInterval (id : nat)
| ClearInterval (id : nat)
| DrawImage                             (* the mirrored frame on the canvas *)
| OnFrame (base64Frame : option JsString).

Record Step := mkStep {
  outcome : Outcome;
  preview : Preview;
  calls : list Call
}.

Definition Handler := Preview -> Step.

Definition withMounted (b : bool) (p : Preview) :=
  mkPreview b (streamRef p) (srcObject p) (onloadedmetadata p)
    (cameraState p) (errorMessage p) (interval p).
Definition withStream (o : option MediaStream) (p : Preview) :=
  mkPreview (mounted p) o (srcObject p) (onloadedmetadata p)
    (cameraState p) (errorMessage p) (interval p).
Definition withSrcObject (o : option MediaStream) (p : Preview) :=
  mkPreview (mounted p) (streamRef p) o (onloadedmetadata p)
    (cameraState p) (errorMessage p) (interval p).
Definition withOnloadedmetadata (b : bool) (p : Preview) :=
  mkPreview (mounted p) (streamRef p) (srcObject p) b
    (cameraState p) (errorMessage p) (interval p).
Definition withCameraState (c : CameraState) (p : Preview) :=
  mkPreview (mounted p) (streamRef p) (srcObject p) (onloadedmetadata p)
    c (errorMessage p) (interval p).
Definition withErrorMessage (m : JsString) (p : Preview) :=
  mkPreview (mounted p) (streamRef p) (srcObject p) (onloadedmetadata p)
    (cameraState p) m (interval p).
Definition withInterval (o : option nat) (p : Preview) :=
  mkPreview (mounted p) (streamRef p) (srcObject p) (onloadedmetadata p)
    (cameraState p) (errorMessage p) o.

(** The component before its first effect runs. *)
Definition rendered : Preview :=
  mkPreview false None None false camera_loading [] None.

(** ** The mount effect *)

(** The effect up to the [await]: [let mounted = true] and the request. *)
Definition startPreview : Handler :=
  fun p =>
    mkStep Done (withMounted true p)
      [ConsoleLog (lit "Requesting camera access..."); GetUserMedia].

Definition CAMERA_DENIED : JsString :=
  lit "Camera access denied. Please allow camera access.".
Definition NO_CAMERA : JsString :=
  lit "No camera found. Please connect a camera.".
Definition CAMERA_IN_USE : JsString :=
  lit "Camera is in use by another application.".

(** The message of the catch block, from [err.name] and [err.message]. *)
Definition cameraErrorMessage (name : option JsString) (message : JsString)
  : JsString :=
  if named name "NotAllowedError" then CAMERA_DENIED
  else if named name "NotFoundError" then NO_CAMERA
  else if named name "NotReadableError" then CAMERA_IN_USE
  else lit "Camera error: " ++ orElse message (lit "Unknown error").

(** The rest of [startPreview], from the [await] on.  [video] tells whether
    [videoRef.current] is set. *)
Definition cameraSettled (o : Settled MediaStream) (video : bool) : Handler :=
  fun p =>
    match o with
    | Fulfilled stream =>
        if negb (mounted p) then
          mkStep Done p (map TrackStop (getTracks stream))
        else
          let p1 := withStream (Some stream) p in
          mkStep Done
            (if video
             then withOnloadedmetadata true (withSrcObject (Some stream) p1)
             else p1)
            [ConsoleLog (lit "Camera stream obtained")]
    | RejectedWith err =>
        let logged :=
          [ConsoleError (lit "Error accessing webcam:") (thrownError err)] in
        if mounted p then
          let p1 := withCameraState camera_error p in
          match err with
          | Nullish => mkStep (Threw TYPE_ERROR) p1 logged    (* err.name *)
          | Value e name _ =>
              mkStep Done
                (withErrorMessage (cameraErrorMessage name (message e)) p1)
                logged
          end
        else mkStep Done p logged
    end.

(** [videoRef.current.onloadedmetadata] *)
Definition loadedmetadata (video : bool) : Handler :=
  fun p =>
    mkStep Done p
      (ConsoleLog (lit "Video metadata loaded")
         :: (if mounted p && video then [Play] else [])).

(** The [then] and the [catch] of [play()]. *)
Definition playSettled (failure : option JsError) : Handler :=
  fun p =>
    match failure with
    | None =>
        mkStep Done (withCameraState camera_ready p)
          [ConsoleLog (lit "Video playing")]
    | Some err =>
        mkStep Done p [ConsoleError (lit "Error playing video:") err]
    end.

(** The cleanup of the mount effect. *)
Definition unmount : Handler :=
  fun p =>
    let p1 := withMounted false p in
    match streamRef p1 with
    | Some stream =>
        mkStep Done (withStream None p1) (map TrackStop (getTracks stream))
    | None => mkStep Done p1 []
    end.

(** ** The frame effect *)

(** The cleanup of the effect as it last ran. *)
Definition clearFrames : Handler :=
  fun p =>
    match interval p with
    | Some id => mkStep Done (withInterval None p) [ClearInterval id]
    | None => mkStep Done p []
    end.

(** The effect, run after a render in which [isActive], [onFrame] or
    [cameraState] changed: the cleanup of its last run, then a timer when
    the interview is active, a handler is given and the camera is ready.
    [id] is the handle [setInterval] returns. *)
Definition frameEffect (isActive onFrame : bool) (id : nat) : Handler :=
  fun p =>
    let r := clearFrames p in
    if isActive && onFrame
       && match cameraState (preview r) with
          | camera_ready => true
          | _ => false
          end
    then mkStep Done (withInterval (Some id) (preview r))
           (calls r ++ [SetInterval id])
    else r.

(** [s.split(',')[1]] *)
Fixpoint upToComma (s : JsString) : JsString :=
  match s with
  | [] => []
  | c :: r => if (c =? 44)%Z then [] else c :: upToComma r
  end.

Fixpoint afterComma (s : JsString) : option JsString :=
  match s with
  | [] => None
  | c :: r => if (c =? 44)%Z then Some (upToComma r) else afterComma r
  end.

(** What the timer finds when it fires: the width of the video when
    [videoRef.current] is set, whether [canvasRef.current] is set and gives a
    2d context, and the data URL the canvas encodes to. *)
Record Shot := mkShot {
  videoWidth : option Z;
  canvas : bool;
  context2d : bool;
  dataURL : JsString
}.

(** One firing of the timer. *)
Definition tick (shot : Shot) : Handler :=
  fun p =>
    match videoWidth shot with
    | Some w =>
        if canvas shot && (0 <? w)%Z then
          if context2d shot
          then mkStep Done p [DrawImage; OnFrame (afterComma (dataURL shot))]
          else mkStep Done p []
        else mkStep Done p []
    | None => mkStep Done p []
    end.

(** ** The component under a run of events *)

Inductive Event :=
| Mounted                                     (* the mount effect runs *)
| CameraSettled (o : Settled MediaStream) (video : bool)
| MetadataLoaded (video : bool)
| PlaySettled (failure : option JsError)
| Unmounted                       (* the cleanups run, in effect order *)
| Rendered (isActive onFrame : bool) (id : nat)
| Tick (shot : Shot).

(** The timer fires only while it is set; the metadata event only reaches a
    handler that is assigned. *)
Definition handle (ev : Event) : Handler :=
  match ev with
  | Mounted => startPreview
  | CameraSettled o video => cameraSettled o video
  | MetadataLoaded video =>
      fun p =>
        if onloadedmetadata p then loadedmetadata video p else mkStep Done p []
  | PlaySettled failure => playSettled failure
  | Unmounted =>
      fun p =>
        let r1 := unmount p in
        let r2 := clearFrames (preview r1) in
        mkStep Done (preview r2) (calls r1 ++ calls r2)
  | Rendered isActive onFrame id => frameEffect isActive onFrame id
  | Tick shot =>
      fun p =>
        match interval p with
        | Some _ => tick shot p
        | None => mkStep Done p []
        end
  end.

Fixpoint runEvents (evs : list Event) (p : Preview) : Preview * list Call :=
  match evs with
  | [] => (p, [])
  | ev :: rest =>
      let r := handle ev p in
      let after := runEvents rest (preview r) in
      (fst after, calls r ++ snd after)
  end.

(** ** Vocabulary of the properties *)

(** The streams the camera grants in a run of events, in order. *)
Definition grants (evs : list Event) : list MediaStream :=
  flat_map (fun ev => match ev with
                      | CameraSettled (Fulfilled stream) _ => [stream]
                      | _ => []
                      end) evs.

(** The tracks stopped among the calls, in order. *)
Definition stops (l : list Call) : list nat :=
  flat_map (fun c => match c with TrackStop t => [t] | _ => [] end) l.

(** One life of the component: the mount effect does not run again. *)
Definition isMount (ev : Event) : bool :=
  match ev with
  | Mounted => true
  | _ => false
  end.

Definition isUnmount (ev : Event) : bool :=
  match ev with
  | Unmounted => true
  | _ => false
  end.

(** The timers that are set and not cleared after the calls [l], given the
    timers [live] before. *)
Fixpoint liveTimers (l : list Call) (live : list nat) : list nat :=
  match l with
  | [] => live
  | SetInterval id :: r => liveTimers r (live ++ [id])
  | ClearInterval id :: r =>
      liveTimers r (filter (fun x => negb (Nat.eqb x id)) live)
  | _ :: r => liveTimers r live
  end.

(** The timer the component holds. *)
Definition held (p : Preview) : list nat :=
  match interval p with
  | Some id => [id]
  | None => []
  end.

(** The frames handed to [onFrame], in order. *)
Definition handedOver (l : list Call) : list (option JsString) :=
  flat_map (fun c => match c with OnFrame f => [f] | _ => [] end) l.

(** A camera with two tracks. *)
Definition webcam : MediaStream := mkMediaStream [3%nat; 4%nat].

(** The user leaves the page before the permission prompt is answered. *)
Definition leftEarly : list Event :=
  [Unmounted; CameraSettled (Fulfilled webcam) false].

(** The user leaves the page during the interview. *)
Definition leftLate : list Event :=
  [CameraSettled (Fulfilled webcam) true; MetadataLoaded true;
   PlaySettled None; Rendered true true 11; Tick (mkShot (Some 640) true true
     (lit "data:image/jpeg;base64,QUJD")); Unmounted].

(** An event that can make the camera ready. *)
Definition playsVideo (ev : Event) : bool :=
  match ev with
  | PlaySettled None => true
  | _ => false
  end.

(** A render that asks for frames: the interview is active and a handler is
    given. *)
Definition asksForFrames (ev : Event) : bool :=
  match ev with
  | Rendered isActive onFrame _ => isActive && onFrame
  | _ => false
  end.

Definition isReady (p : Preview) : bool :=
  match cameraState p with
  | camera_ready => true
  | _ => false
  end.

(** A shot of a playing video. *)
Definition goodShot : Shot :=
  mkShot (Some 640) true true (lit "data:image/jpeg;base64,QUJD").

(** The interview becomes active before the camera is ready. *)
Definition activeBeforeReady : list Event :=
  [CameraSettled (Fulfilled webcam) true; Rendered true true 11;
   Tick goodShot; MetadataLoaded true; Tick goodShot].

End VideoPreview.

(* ================================================================== *)
(** * The prompts ([App.tsx]) *)
(* ================================================================== *)

Module Prompts.
Import Js.

(** The fixed text of the two templates, block by block, in the order of
    the source.  The blocks are copy; the functions below are about what is
    put between them. *)
Record Copy := mkCopy {
  baseInstruction : JsString;
  resumeContextHead : JsString;     (* up to CANDIDATE'S RESUME/BACKGROUND: *)
  resumeContextTail : JsString;
  openingWithJD0 : JsString;        (* INTERVIEW FLOW ... up to the first choice *)
  openingWithJD1 : JsString;
  openingWithJD2 : JsString;
  openingWithJD3 : JsString;
  openingWithJD4 : JsString;
  openingWithoutJD0 : JsString;
  openingWithoutJD1 : JsString;
  openingWithoutJD2 : JsString;
  commonInstructions : JsString;
  jobDescriptionHead : JsString;    (* up to JOB DESCRIPTION FOR THIS INTERVIEW: *)
  jobDescriptionTail : JsString;
  basePrompt : JsString;
  resumeAlignment : JsString;       (* ## Resume Alignment ... *)
  jobDescriptionAlignment : JsString;
  nextSteps : JsString;
  resumeInfoHead : JsString;        (* up to CANDIDATE'S RESUME: *)
  resumeInfoTail : JsString;
  jobDescriptionInfoHead : JsString;
  jobDescriptionInfoTail : JsString
}.

(** [x ? ... : ...] on an optional string. *)
Definition given (x : option JsString) : bool :=
  match x with
  | Some s => truthy s
  | None => false
  end.

(** [x && x.trim()] *)
Definition present (x : option JsString) : bool :=
  match x with
  | Some s => truthy s && truthy (trim s)
  | None => false
  end.

(** [x.trim()], where it is interpolated. *)
Definition trimmed (x : option JsString) : JsString :=
  match x with
  | Some s => trim s
  | None => []
  end.

Definition getSystemInstruction (c : Copy)
    (jobDescription resumeContent : option JsString) : JsString :=
  let contextSection :=
    if present resumeContent
    then resumeContextHead c ++ trimmed resumeContent ++ resumeContextTail c
    else [] in
  let openingWithJD :=
    openingWithJD0 c
    ++ (if given resumeContent
        then lit "Acknowledge that you've reviewed their resume and the job description"
        else lit "Acknowledge that you have the job description for the role they're preparing for")
    ++ openingWithJD1 c
    ++ (if given resumeContent then lit " and Resume" else [])
    ++ openingWithJD2 c
    ++ (if given resumeContent
        then lit "- Reference specific experiences from their resume when relevant"
        else [])
    ++ openingWithJD3 c
    ++ (if given resumeContent then lit ", referencing their resume" else [])
    ++ openingWithJD4 c in
  let openingWithoutJD :=
    openingWithoutJD0 c
    ++ (if given resumeContent
        then lit "- Acknowledge that you've reviewed their resume"
        else lit "- Ask what role they're preparing for")
    ++ openingWithoutJD1 c
    ++ (if given resumeContent
        then lit "- Reference specific experiences from their resume when asking questions"
        else [])
    ++ openingWithoutJD2 c in
  if present jobDescription then
    baseInstruction c ++ contextSection ++ openingWithJD
    ++ commonInstructions c
    ++ jobDescriptionHead c ++ trimmed jobDescription ++ jobDescriptionTail c
  else
    baseInstruction c ++ contextSection ++ openingWithoutJD
    ++ commonInstructions c.

Definition getFeedbackPrompt (c : Copy)
    (jobDescription resumeContent : option JsString) : JsString :=
  let additionalSections :=
    (if present resumeContent then resumeAlignment c else [])
    ++ (if present jobDescription then jobDescriptionAlignment c else []) in
  let contextInfo :=
    (if present resumeContent
     then resumeInfoHead c ++ trimmed resumeContent ++ resumeInfoTail c
     else [])
    ++ (if present jobDescription
        then jobDescriptionInfoHead c ++ trimmed jobDescription
             ++ jobDescriptionInfoTail c
        else []) in
  basePrompt c ++ additionalSections ++ nextSteps c ++ contextInfo.

(** ** Vocabulary of the properties *)

(** A copy whose blocks are their own names. *)
Definition sampleCopy : Copy :=
  mkCopy (lit "<base>") (lit "<resume:") (lit ">") (lit "<with-jd-0>")
    (lit "<with-jd-1>") (lit "<with-jd-2>") (lit "<with-jd-3>")
    (lit "<with-jd-4>") (lit "<without-jd-0>") (lit "<without-jd-1>")
    (lit "<without-jd-2>") (lit "<common>") (lit "<jd:") (lit ">")
    (lit "<feedback>") (lit "<resume-alignment>") (lit "<jd-alignment>")
    (lit "<next-steps>") (lit "<resume:") (lit ">") (lit "<jd:") (lit ">").

End Prompts.

(* ================================================================== *)
(** * The feedback view ([App.tsx]) *)
(* ================================================================== *)

Module FeedbackView.
Import Js App.
Import Lifecycle (sameString).

(** What a line of the feedback text is rendered as. *)
Inductive Element :=
| Heading (text : JsString)                 (* <h3> *)
| BoldItem (label rest : JsString)          (* bullet, label in bold *)
| NumberedItem (line : JsString)
| ListItem (text : JsString)                (* bullet *)
| Separator                                 (* <hr> *)
| Paragraph (line : JsString).

(** [s.split(sep)] for a separator of one code unit: the text before the
    first separator, and the pieces after it. *)
Fixpoint splitOn (sep : Z) (s : JsString) : JsString * list JsString :=
  match s with
  | [] => ([], [])
  | c :: r =>
      let (piece, more) := splitOn sep r in
      if (c =? sep)%Z then ([], piece :: more) else (c :: piece, more)
  end.

Definition split (sep : Z) (s : JsString) : list JsString :=
  let (piece, more) := splitOn sep s in piece :: more.

(** [s.replace(pattern, '')] for a string pattern: the first occurrence is
    removed. *)
Fixpoint removeFirst (pattern s : JsString) : JsString :=
  if startsWith pattern s then skipn (length pattern) s
  else match s with
       | [] => []
       | c :: r => c :: removeFirst pattern r
       end.

Fixpoint takeWhile (p : Z -> bool) (s : JsString) : JsString :=
  match s with
  | [] => []
  | c :: r => if p c then c :: takeWhile p r else []
  end.

Fixpoint dropWhile (p : Z -> bool) (s : JsString) : JsString :=
  match s with
  | [] => []
  | c :: r => if p c then dropWhile p r else s
  end.

Definition isDigit (c : Z) : bool := (48 <=? c)%Z && (c <=? 57)%Z.
Definition isStar (c : Z) : bool := (c =? 42)%Z.
(** What [.] does not match. *)
Definition isLineTerminator (c : Z) : bool :=
  existsb (Z.eqb c) [10; 13; 8232; 8233]%Z.

(** The pattern of the bold items matched at the start of [s]: a dash, a
    space and two stars; one or more characters that are not stars, the
    first group; two stars; a colon or none; white space; and what is left of
    the line up to a line terminator, the second group. *)
Definition matchBoldAt (s : JsString) : option (JsString * JsString) :=
  if startsWith (lit "- **") s then
    let s1 := skipn 4 s in
    let label := takeWhile (fun c => negb (isStar c)) s1 in
    let s2 := dropWhile (fun c => negb (isStar c)) s1 in
    if truthy label && startsWith (lit "**") s2 then
      let s3 := skipn 2 s2 in
      let s4 := match s3 with
                | 58%Z :: r => r
                | _ => s3
                end in
      let s5 := dropWhile isWhiteSpace s4 in
      Some (label, takeWhile (fun c => negb (isLineTerminator c)) s5)
    else None
  else None.

(** [line.match(pattern)]: the leftmost match. *)
Fixpoint matchBold (s : JsString) : option (JsString * JsString) :=
  match matchBoldAt s with
  | Some m => Some m
  | None =>
      match s with
      | [] => None
      | _ :: r => matchBold r
      end
  end.

(** The test of the numbered lines: at the start of the line one or more
    digits, a full stop, a white space character. *)
Definition numbered (line : JsString) : bool :=
  truthy (takeWhile isDigit line)
  && match dropWhile isDigit line with
     | 46%Z :: c :: _ => isWhiteSpace c
     | _ => false
     end.

(** The callback of [endFeedback.split('\n').map]; [None] is [null]. *)
Definition renderLine (line : JsString) : option Element :=
  (* Handle markdown headers *)
  if startsWith (lit "## ") line then
    Some (Heading (removeFirst (lit "## ") line))
  else
    (* Handle bold text in list items *)
    match (if startsWith (lit "- **") line then matchBold line else None) with
    | Some (label, rest) => Some (BoldItem label rest)
    | None =>
        (* Handle numbered lists *)
        if numbered line then Some (NumberedItem line)
        (* Handle regular list items *)
        else if startsWith (lit "- ") line then
          Some (ListItem (removeFirst (lit "- ") line))
        (* Handle separator *)
        else if sameString line (lit "---") then Some Separator
        (* Regular paragraphs *)
        else if truthy (trim line) then Some (Paragraph line)
        else None
    end.

Definition renderFeedback (endFeedback : JsString) : list (option Element) :=
  map renderLine (split 10 endFeedback).

(** ** Vocabulary of the properties *)

(** A line of white space only, or empty. *)
Definition blank (line : JsString) : bool := forallb isWhiteSpace line.

(** The elements on the screen. *)
Definition shown (l : list (option Element)) : list Element :=
  flat_map (fun o => match o with Some e => [e] | None => [] end) l.

(** The groups of a bold item: a label that is not empty and has no star,
    and a rest that starts with no white space and holds no line
    terminator. *)
Definition boldGroups (label rest : JsString) : Prop :=
  label <> []
  /\ forallb (fun c => negb (isStar c)) label = true
  /\ forallb (fun c => negb (isLineTerminator c)) rest = true
  /\ match rest with
     | c :: _ => isWhiteSpace c = false
     | [] => True
     end.

End FeedbackView.

(* ================================================================== *)
(** * Properties *)
(* ================================================================== *)

Arguments lit : simpl never.
Arguments trim : simpl never.
Arguments AudioProcessing.decode : simpl never.
Arguments AudioProcessing.decodeAudioData : simpl never.
Arguments AudioProcessing.duration : simpl never.
Arguments Qmax : simpl never.
Arguments Qplus : simpl never.
Arguments Double.round64 : simpl never.
Arguments Double.add : simpl never.
Arguments Double.div : simpl never.

Arguments cleanup : simpl never.
Arguments generateFeedback : simpl never.

(** ** Tactics *)

(** Turn boolean comparisons in the context into propositions. *)
Ltac split_bools :=
  repeat match goal with
  | H : (_ && _) = true |- _ => apply andb_true_iff in H; destruct H
  | H : (_ && _) = false |- _ => apply andb_false_iff in H; destruct H
  | H : (_ <=? _) = true |- _ => apply Z.leb_le in H
  | H : (_ <=? _) = false |- _ => apply Z.leb_gt in H
  | H : (_ <? _) = true |- _ => apply Z.ltb_lt in H
  | H : (_ <? _) = false |- _ => apply Z.ltb_ge in H
  | H : (_ =? _) = true |- _ => apply Z.eqb_eq in H
  | H : (_ =? _) = false |- _ => apply Z.eqb_neq in H
  end.

(** Case analysis on every test of the goal, arithmetic by [lia]. *)
Ltac by_cases :=
  repeat match goal with
  | |- context [if ?b then _ else _] => destruct b eqn:?
  end; split_bools; try lia.

(** ** Running commands *)

Lemma seq_normal (c1 c2 : Cmd) (s : State) :
  completion (c1 s) = Normal ->
  (c1 ;; c2) s =
  mkResult (completion (c2 (state (c1 s)))) (state (c2 (state (c1 s))))
    (trace (c1 s) ++ trace (c2 (state (c1 s)))).
Proof. intros H. unfold seq. rewrite H. reflexivity. Qed.

Lemma seq_abrupt (c1 c2 : Cmd) (s : State) (e : JsError) :
  completion (c1 s) = Abrupt e -> (c1 ;; c2) s = c1 s.
Proof. intros H. unfold seq. rewrite H. reflexivity. Qed.

(** Run the first command of a sequence with its equation [lem]. *)
Ltac run_with lem :=
  rewrite seq_normal by (rewrite lem; reflexivity);
  rewrite !lem; cbn [completion state trace].

Lemma guarded_stop_run (src : Source) (s : State) :
  try_catch (stop src) (fun _ => skip) s = mkResult Normal s [SourceStop src].
Proof.
  unfold try_catch, stop, seq, emit, orThrow, skip, throw.
  destruct (stopFails src); reflexivity.
Qed.

(** Stopping every source never throws, leaves the state alone and calls
    [stop] on each source in the order of the set. *)
Lemma forEach_stop (l : list Source) (s : State) :
  forEach l (fun src => try_catch (stop src) (fun _ => skip)) s
  = mkResult Normal s (map SourceStop l).
Proof.
  induction l as [|src l IH]; [reflexivity|].
  cbn [forEach]. unfold seq at 1. rewrite guarded_stop_run. cbn.
  rewrite IH. reflexivity.
Qed.

Lemma stopAllSources_run (s : State) :
  stopAllSources s = mkResult Normal s (map SourceStop (sourcesRef (playback s))).
Proof. unfold stopAllSources, get. apply forEach_stop. Qed.

Lemma forEach_tracks (l : list nat) (s : State) :
  forEach l (fun track => emit (TrackStop track)) s
  = mkResult Normal s (map TrackStop l).
Proof.
  induction l as [|t l IH]; [reflexivity|].
  cbn [forEach]. unfold seq at 1. cbn. rewrite IH. reflexivity.
Qed.


(** ** Rounding to the nearest double *)

Module DoubleFacts.
Import Double.
Local Open Scope Q_scope.

(** ** Powers of two *)

Lemma two_pos e : 0 < 2 ^ e.
Proof. apply Qpower_0_lt. reflexivity. Qed.

Lemma two_le a b : (a <= b)%Z -> 2 ^ a <= 2 ^ b.
Proof. intros H. apply Qpower_le_compat_l; [exact H | discriminate]. Qed.

Lemma two_lt a b : (a < b)%Z -> 2 ^ a < 2 ^ b.
Proof. intros H. apply Qpower_lt_compat_l; [exact H | reflexivity]. Qed.

Lemma two_lt_inv a b : 2 ^ a < 2 ^ b -> (a < b)%Z.
Proof. intros H. apply (Qpower_lt_compat_l_inv 2); [exact H | reflexivity]. Qed.

Lemma two_plus a b : 2 ^ (a + b) == 2 ^ a * 2 ^ b.
Proof. apply Qpower_plus. discriminate. Qed.

Lemma two_Z n : (0 <= n)%Z -> inject_Z (2 ^ n) == 2 ^ n.
Proof. intros H. apply (Zpower_Qpower 2 n H). Qed.

(** ** The leading bit *)

Lemma floorLog2_spec x :
  0 < x -> 2 ^ floorLog2 x <= x /\ x < 2 ^ (floorLog2 x + 1).
Proof.
  intros Hx. destruct x as [n d]. unfold floorLog2. cbn [Qnum Qden].
  assert (Hn : (0 < n)%Z) by (unfold Qlt in Hx; cbn in Hx; lia).
  set (a := Z.log2 n). set (b := Z.log2 (Z.pos d)).
  destruct (Z.log2_spec n Hn) as (Ha1 & Ha2). fold a in Ha1, Ha2.
  destruct (Z.log2_spec (Z.pos d) (Pos2Z.is_pos d)) as (Hb1 & Hb2).
  fold b in Hb1, Hb2.
  assert (Ha0 : (0 <= a)%Z) by apply Z.log2_nonneg.
  assert (Hb0 : (0 <= b)%Z) by apply Z.log2_nonneg.
  assert (Hx' : n # d == inject_Z n / inject_Z (Z.pos d)) by apply Qmake_Qdiv.
  assert (Hd : 0 < inject_Z (Z.pos d)) by reflexivity.
  (* the quotient lies strictly between 2^(k-1) and 2^(k+1) *)
  assert (Hup : n # d < 2 ^ (a - b + 1)).
  { rewrite Hx'. apply Qlt_shift_div_r; [exact Hd|].
    assert (E : 2 ^ (a - b + 1) == 2 ^ (a + 1) / 2 ^ b).
    { replace (a - b + 1)%Z with (a + 1 - b)%Z by lia.
      apply Qpower_minus. discriminate. }
    rewrite E.
    assert (Hb : ~ 2 ^ b == 0) by (apply Qpower_not_0; discriminate).
    setoid_replace (2 ^ (a + 1) / 2 ^ b * inject_Z (Z.pos d))
      with (2 ^ (a + 1) * inject_Z (Z.pos d) / 2 ^ b) by (field; exact Hb).
    apply Qlt_shift_div_l; [apply two_pos|].
    rewrite <- (two_Z b Hb0), <- (two_Z (a + 1)) by lia.
    rewrite <- !inject_Z_mult, <- Zlt_Qlt.
    replace (a + 1)%Z with (Z.succ a) by lia. nia. }
  assert (Hlo : 2 ^ (a - b - 1) < n # d).
  { rewrite Hx'. apply Qlt_shift_div_l; [exact Hd|].
    assert (E : 2 ^ (a - b - 1) == 2 ^ a / 2 ^ (b + 1)).
    { replace (a - b - 1)%Z with (a - (b + 1))%Z by lia.
      apply Qpower_minus. discriminate. }
    rewrite E.
    assert (Hb : ~ 2 ^ (b + 1) == 0) by (apply Qpower_not_0; discriminate).
    setoid_replace (2 ^ a / 2 ^ (b + 1) * inject_Z (Z.pos d))
      with (2 ^ a * inject_Z (Z.pos d) / 2 ^ (b + 1)) by (field; exact Hb).
    apply Qlt_shift_div_r; [apply two_pos|].
    rewrite <- (two_Z a Ha0), <- (two_Z (b + 1)) by lia.
    rewrite <- !inject_Z_mult, <- Zlt_Qlt.
    replace (b + 1)%Z with (Z.succ b) by lia. nia. }
  destruct (Qle_bool (2 ^ (a - b)) (n # d)) eqn:E.
  - apply Qle_bool_iff in E. split; assumption.
  - assert (Hlt : n # d < 2 ^ (a - b)).
    { apply Qnot_le_lt. intros H. apply Qle_bool_iff in H. congruence. }
    split; [apply Qlt_le_weak; exact Hlo|].
    replace (a - b - 1 + 1)%Z with (a - b)%Z by lia. exact Hlt.
Qed.

Lemma floorLog2_unique x k :
  2 ^ k <= x -> x < 2 ^ (k + 1) -> floorLog2 x = k.
Proof.
  intros H1 H2.
  assert (Hx : 0 < x) by (eapply Qlt_le_trans; [apply (two_pos k) | exact H1]).
  destruct (floorLog2_spec x Hx) as (F1 & F2).
  assert (k < floorLog2 x + 1)%Z
    by (apply two_lt_inv; eapply Qle_lt_trans; eassumption).
  assert (floorLog2 x < k + 1)%Z
    by (apply two_lt_inv; eapply Qle_lt_trans; eassumption).
  lia.
Qed.

Lemma floorLog2_mono x y :
  0 < x -> x <= y -> (floorLog2 x <= floorLog2 y)%Z.
Proof.
  intros Hx Hxy.
  assert (Hy : 0 < y) by (eapply Qlt_le_trans; eassumption).
  destruct (floorLog2_spec x Hx) as (F1 & _).
  destruct (floorLog2_spec y Hy) as (_ & G2).
  assert (floorLog2 x < floorLog2 y + 1)%Z.
  { apply two_lt_inv. eapply Qle_lt_trans; [exact F1|].
    eapply Qle_lt_trans; eassumption. }
  lia.
Qed.

Lemma quantum_mono x y : 0 < x -> x <= y -> (quantum x <= quantum y)%Z.
Proof.
  intros Hx Hxy. unfold quantum.
  pose proof (floorLog2_mono x y Hx Hxy). lia.
Qed.

(** ** Rounding to an integer *)

Lemma roundHalfEven_bounds q :
  (Qfloor q <= roundHalfEven q <= Qfloor q + 1)%Z.
Proof.
  unfold roundHalfEven. destruct (_ ?= _); [destruct (Z.even _)| |]; lia.
Qed.

Lemma roundHalfEven_mono q1 q2 :
  q1 <= q2 -> (roundHalfEven q1 <= roundHalfEven q2)%Z.
Proof.
  intros H. pose proof (Qfloor_resp_le q1 q2 H) as Hf.
  destruct (Z.eq_dec (Qfloor q1) (Qfloor q2)) as [E | N].
  - unfold roundHalfEven. rewrite E.
    destruct (Qcompare_spec (q1 - inject_Z (Qfloor q2)) (1 # 2));
      destruct (Qcompare_spec (q2 - inject_Z (Qfloor q2)) (1 # 2));
      try (destruct (Z.even (Qfloor q2))); try lia; exfalso; lra.
  - pose proof (roundHalfEven_bounds q1). pose proof (roundHalfEven_bounds q2).
    lia.
Qed.

Lemma roundHalfEven_Z q n : q == inject_Z n -> roundHalfEven q = n.
Proof.
  intros H.
  assert (E : roundHalfEven (inject_Z n) = n).
  { unfold roundHalfEven. rewrite Qfloor_Z.
    destruct (Qcompare_spec (inject_Z n - inject_Z n) (1 # 2));
      [exfalso; lra | reflexivity | exfalso; lra]. }
  assert (roundHalfEven q <= n)%Z
    by (rewrite <- E; apply roundHalfEven_mono; rewrite H; apply Qle_refl).
  assert (n <= roundHalfEven q)%Z
    by (rewrite <- E at 1; apply roundHalfEven_mono; rewrite H; apply Qle_refl).
  lia.
Qed.

Lemma roundHalfEven_nonneg q : 0 <= q -> (0 <= roundHalfEven q)%Z.
Proof.
  intros H. rewrite <- (roundHalfEven_Z 0 0) by reflexivity.
  apply roundHalfEven_mono. exact H.
Qed.

(** ** Rounding onto the grid of doubles *)

Lemma two_minus a b : 2 ^ (a - b) == 2 ^ a / 2 ^ b.
Proof. apply Qpower_minus. discriminate. Qed.

Lemma two_not_0 e : ~ 2 ^ e == 0.
Proof. apply Qpower_not_0. discriminate. Qed.

Lemma scaled_le x y e : x <= y -> x / 2 ^ e <= y / 2 ^ e.
Proof.
  intros H. apply Qle_shift_div_l; [apply two_pos|].
  setoid_replace (x / 2 ^ e * 2 ^ e) with x by (field; apply two_not_0).
  exact H.
Qed.

Lemma scaled_lt x e k : x < 2 ^ k -> x / 2 ^ e < 2 ^ (k - e).
Proof.
  intros H. rewrite two_minus. apply Qlt_shift_div_l; [apply two_pos|].
  setoid_replace (x / 2 ^ e * 2 ^ e) with x by (field; apply two_not_0).
  exact H.
Qed.

Lemma scaled_ge x e k : 2 ^ k <= x -> 2 ^ (k - e) <= x / 2 ^ e.
Proof.
  intros H. rewrite two_minus. apply scaled_le. exact H.
Qed.

Lemma roundPositive_nonneg x : 0 < x -> 0 <= roundPositive x.
Proof.
  intros Hx. unfold roundPositive.
  apply Qmult_le_0_compat; [|apply Qlt_le_weak, two_pos].
  change 0 with (inject_Z 0). rewrite <- Zle_Qle.
  apply roundHalfEven_nonneg. apply Qle_shift_div_l; [apply two_pos|]. lra.
Qed.

Lemma round64_nonneg x : 0 <= x -> 0 <= round64 x.
Proof.
  intros Hx. unfold round64. destruct (Qcompare_spec x 0).
  - apply Qle_refl.
  - exfalso; lra.
  - apply roundPositive_nonneg. assumption.
Qed.

Lemma round64_positive x : 0 < x -> round64 x = roundPositive x.
Proof.
  intros Hx. unfold round64. destruct (Qcompare_spec x 0);
    [exfalso; lra | exfalso; lra | reflexivity].
Qed.

Lemma round64_zero x : x == 0 -> round64 x = 0.
Proof.
  intros Hx. unfold round64. destruct (Qcompare_spec x 0);
    [reflexivity | exfalso; lra | exfalso; lra].
Qed.

(** Rounding upwards never crosses a power of two that is on the grid. *)
Lemma roundPositive_upper x k :
  0 < x -> x <= 2 ^ k -> (quantum x <= k)%Z -> roundPositive x <= 2 ^ k.
Proof.
  intros Hx Hk Hq. unfold roundPositive. set (e := quantum x) in *.
  assert (E : 2 ^ k == inject_Z (2 ^ (k - e)) * 2 ^ e).
  { rewrite two_Z by lia. rewrite <- two_plus.
    replace (k - e + e)%Z with k by lia. reflexivity. }
  rewrite E. apply Qmult_le_compat_r; [|apply Qlt_le_weak, two_pos].
  rewrite <- Zle_Qle.
  rewrite <- (roundHalfEven_Z (inject_Z (2 ^ (k - e))) (2 ^ (k - e)))
    by reflexivity.
  apply roundHalfEven_mono. rewrite two_Z by lia.
  rewrite two_minus. apply scaled_le. exact Hk.
Qed.

Lemma roundPositive_lower x k :
  0 < x -> 2 ^ k <= x -> (quantum x <= k)%Z -> 2 ^ k <= roundPositive x.
Proof.
  intros Hx Hk Hq. unfold roundPositive. set (e := quantum x) in *.
  assert (E : 2 ^ k == inject_Z (2 ^ (k - e)) * 2 ^ e).
  { rewrite two_Z by lia. rewrite <- two_plus.
    replace (k - e + e)%Z with k by lia. reflexivity. }
  rewrite E. apply Qmult_le_compat_r; [|apply Qlt_le_weak, two_pos].
  rewrite <- Zle_Qle.
  rewrite <- (roundHalfEven_Z (inject_Z (2 ^ (k - e))) (2 ^ (k - e)))
    by reflexivity.
  apply roundHalfEven_mono. rewrite two_Z by lia.
  rewrite two_minus. apply scaled_le. exact Hk.
Qed.

Lemma roundPositive_mono x y :
  0 < x -> x <= y -> roundPositive x <= roundPositive y.
Proof.
  intros Hx Hxy.
  assert (Hy : 0 < y) by lra.
  pose proof (quantum_mono x y Hx Hxy) as Hq.
  destruct (Z.eq_dec (quantum x) (quantum y)) as [E | N].
  - unfold roundPositive. rewrite E.
    apply Qmult_le_compat_r; [|apply Qlt_le_weak, two_pos].
    rewrite <- Zle_Qle. apply roundHalfEven_mono, scaled_le, Hxy.
  - destruct (floorLog2_spec x Hx) as (_ & Fx).
    destruct (floorLog2_spec y Hy) as (Fy & _).
    assert (Hl : (floorLog2 x + 1 <= floorLog2 y)%Z)
      by (unfold quantum in *; lia).
    apply Qle_trans with (2 ^ floorLog2 y).
    + apply Qle_trans with (2 ^ Z.max (floorLog2 x + 1) (quantum x)).
      * apply roundPositive_upper; [exact Hx | | lia].
        apply Qle_trans with (2 ^ (floorLog2 x + 1));
          [apply Qlt_le_weak, Fx | apply two_le; lia].
      * apply two_le. unfold quantum in *. lia.
    + apply roundPositive_lower; [exact Hy | exact Fy |].
      unfold quantum in *. lia.
Qed.

(** A double plus something non-negative does not round below the double. *)
Lemma add_ge s d :
  0 <= s -> round64 s == s -> 0 <= d -> s <= add s d.
Proof.
  intros Hs Hr Hd. unfold add.
  destruct (Qlt_le_dec 0 s) as [Hpos | H0].
  - rewrite round64_positive in Hr by exact Hpos.
    rewrite round64_positive by lra.
    rewrite <- Hr at 1. apply roundPositive_mono; [exact Hpos | lra].
  - assert (s == 0) by lra.
    apply Qle_trans with 0; [lra | apply round64_nonneg; lra].
Qed.

(** What rounding returns is on the grid: rounding it again changes nothing. *)
Lemma roundPositive_grid s m e :
  s == inject_Z m * 2 ^ e -> (0 < m < 2 ^ 53)%Z -> (-1074 <= e)%Z ->
  roundPositive s == s.
Proof.
  intros Hs Hm He.
  assert (Hm0 : 0 < inject_Z m)
    by (change 0 with (inject_Z 0); rewrite <- Zlt_Qlt; lia).
  assert (Hpos : 0 < s)
    by (rewrite Hs; apply Qmult_lt_0_compat; [exact Hm0 | apply two_pos]).
  assert (Hlt : s < 2 ^ (53 + e)).
  { rewrite Hs, two_plus. apply Qmult_lt_compat_r; [apply two_pos|].
    rewrite <- (two_Z 53) by lia. rewrite <- Zlt_Qlt. lia. }
  destruct (floorLog2_spec s Hpos) as (F1 & _).
  assert (Hfl : (floorLog2 s < 53 + e)%Z)
    by (apply two_lt_inv; eapply Qle_lt_trans; eassumption).
  unfold roundPositive. set (g := quantum s).
  assert (Hg : (g <= e)%Z) by (unfold g, quantum; lia).
  assert (Hq : s / 2 ^ g == inject_Z (m * 2 ^ (e - g))).
  { rewrite inject_Z_mult, two_Z by lia. rewrite Hs, two_minus.
    field. apply two_not_0. }
  rewrite (roundHalfEven_Z _ _ Hq), inject_Z_mult, two_Z by lia.
  rewrite Hs, two_minus. field. apply two_not_0.
Qed.

Lemma roundPositive_scaled_lt x :
  0 < x -> (roundHalfEven (x / 2 ^ quantum x) <= 2 ^ 53)%Z.
Proof.
  intros Hx. destruct (floorLog2_spec x Hx) as (_ & F2).
  rewrite <- (roundHalfEven_Z (inject_Z (2 ^ 53)) (2 ^ 53)) by reflexivity.
  apply roundHalfEven_mono. rewrite two_Z by lia.
  apply Qle_trans with (2 ^ (floorLog2 x + 1 - quantum x)).
  - apply Qlt_le_weak, scaled_lt, F2.
  - apply two_le. unfold quantum. lia.
Qed.

Lemma round64_idempotent x : 0 <= x -> round64 (round64 x) == round64 x.
Proof.
  intros Hx. destruct (Qlt_le_dec 0 x) as [Hpos | H0].
  - rewrite (round64_positive x Hpos).
    pose proof (roundPositive_scaled_lt x Hpos) as Hm.
    pose proof (roundPositive_nonneg x Hpos) as Hr.
    assert (Hm0 : (0 <= roundHalfEven (x / 2 ^ quantum x))%Z).
    { apply roundHalfEven_nonneg. apply Qle_shift_div_l; [apply two_pos|]. lra. }
    assert (Hq : (-1074 <= quantum x)%Z) by (unfold quantum; lia).
    set (m := roundHalfEven (x / 2 ^ quantum x)) in *.
    assert (Hform : roundPositive x == inject_Z m * 2 ^ quantum x)
      by reflexivity.
    destruct (Z.eq_dec m 0) as [Z0 | NZ].
    + assert (Hz : roundPositive x == 0) by (rewrite Hform, Z0; ring).
      rewrite (round64_zero _ Hz). symmetry. exact Hz.
    + assert (Hrp : 0 < roundPositive x).
      { rewrite Hform. apply Qmult_lt_0_compat; [|apply two_pos].
        change 0 with (inject_Z 0). rewrite <- Zlt_Qlt. lia. }
      rewrite (round64_positive _ Hrp).
      destruct (Z.eq_dec m (2 ^ 53)) as [Top | NTop].
      * apply (roundPositive_grid _ (2 ^ 52) (quantum x + 1)); [|lia|lia].
        rewrite Hform, Top, two_plus.
        change (inject_Z (2 ^ 53)) with (inject_Z (2 ^ 52) * 2 ^ 1). ring.
      * apply (roundPositive_grid _ m (quantum x)); [exact Hform|lia|lia].
  - assert (Hz : x == 0) by lra.
    rewrite (round64_zero _ Hz). reflexivity.
Qed.

Lemma isDouble_round64 x : 0 <= x -> isDouble (round64 x) = true.
Proof.
  intros Hx. unfold isDouble. apply Qeq_bool_iff, round64_idempotent, Hx.
Qed.

Lemma isDouble_fixed x : isDouble x = true -> round64 x == x.
Proof. intros H. apply Qeq_bool_iff, H. Qed.

End DoubleFacts.

Lemma handleInterruptions_run (msg : Msg.LiveServerMessage) (s : State) :
  handleInterruptions msg s =
  if interruptedOf msg then
    mkResult Normal
      (onPlayback (fun p =>
         mkPlayback (outputAudioContextRef p) 0 [] false (sourcesCreated p)) s)
      (map SourceStop (sourcesRef (playback s)) ++ [SourcesCleared; CursorReset])
  else mkResult Normal s [].
Proof.
  unfold handleInterruptions. destruct (interruptedOf msg); [|reflexivity].
  cbn [when]. unfold seq at 1. rewrite stopAllSources_run. reflexivity.
Qed.

Lemma handleAudioOutput_none env msg s :
  audioOf msg = None -> handleAudioOutput env msg s = mkResult Normal s [].
Proof.
  unfold audioOf, handleAudioOutput. destruct (audioDataOf msg) as [d|]; [|reflexivity].
  destruct (truthy d); [discriminate|reflexivity].
Qed.

Lemma handleAudioOutput_no_context env msg s d :
  audioOf msg = Some d -> outputAudioContextRef (playback s) = None ->
  handleAudioOutput env msg s
  = mkResult Normal (onPlayback (withIsSpeaking true) s) [].
Proof.
  unfold audioOf, handleAudioOutput. destruct (audioDataOf msg) as [d'|]; [|discriminate].
  destruct (truthy d'); [|discriminate]. intros _ H.
  cbn [when]. unfold seq at 1. cbn. unfold get. cbn. rewrite H. reflexivity.
Qed.

Lemma handleAudioOutput_throws env msg s d ctx :
  audioOf msg = Some d -> outputAudioContextRef (playback s) = Some ctx ->
  decodedChunk d = None ->
  exists e,
  handleAudioOutput env msg s
  = mkResult (Abrupt e)
      (onPlayback (fun p => mkPlayback (outputAudioContextRef p)
                     (Qmax (nextStartTimeRef p) (currentTime env))
                     (sourcesRef p) true (sourcesCreated p)) s) [].
Proof.
  unfold audioOf, handleAudioOutput, decodedChunk.
  destruct (audioDataOf msg) as [d'|]; [|discriminate].
  destruct (truthy d'); [|discriminate]. intros [= ->] H Hd.
  cbn [when]. unfold seq at 1. cbn. unfold get. cbn. rewrite H.
  unfold decodeChunk.
  destruct (AudioProcessing.decode d) as [bytes|].
  - rewrite Hd. eexists. reflexivity.
  - eexists. reflexivity.
Qed.

Lemma handleAudioOutput_enqueues env msg s d ctx b :
  audioOf msg = Some d -> outputAudioContextRef (playback s) = Some ctx ->
  decodedChunk d = Some b ->
  handleAudioOutput env msg s
  = mkResult Normal
      (onPlayback (fun p => mkPlayback (outputAudioContextRef p)
                     (Double.add (Qmax (nextStartTimeRef p) (currentTime env))
                        (AudioProcessing.duration b))
                     (setAdd (scheduled env b p) (sourcesRef p)) true
                     (S (sourcesCreated p))) s)
      [SourceStart (scheduled env b (playback s))].
Proof.
  unfold audioOf, handleAudioOutput, decodedChunk.
  destruct (audioDataOf msg) as [d'|]; [|discriminate].
  destruct (truthy d'); [|discriminate]. intros [= ->] H Hd.
  cbn [when]. unfold seq at 1. cbn. unfold get. cbn. rewrite H.
  unfold decodeChunk.
  destruct (AudioProcessing.decode d) as [bytes|]; [|discriminate].
  rewrite Hd. reflexivity.
Qed.

Lemma throttledUpdate_run env s :
  throttledUpdate env s =
  match rafRef (transcript s) with
  | None => mkResult Normal (onTranscript (withRaf (Some (frameHandle env))) s)
              [RequestAnimationFrame (frameHandle env)]
  | Some _ => mkResult Normal s []
  end.
Proof. unfold throttledUpdate, get. destruct (rafRef (transcript s)); reflexivity. Qed.

Lemma handleInputTranscription_spec env msg s :
  let r := handleInputTranscription env msg s in
  completion r = Normal /\ onlyTranscript s (state r)
  /\ transcriptions (transcript (state r)) = transcriptions (transcript s)
  /\ user (transcriptionBufferRef (transcript (state r)))
     = user (transcriptionBufferRef (transcript s)) ++ stringOr (inputTextOf msg)
  /\ model (transcriptionBufferRef (transcript (state r)))
     = model (transcriptionBufferRef (transcript s)).
Proof.
  unfold handleInputTranscription.
  destruct (inputTextOf msg) as [t|]; cbn [stringOr];
    [destruct t as [|c t]; cbn [truthy when]|];
    try (cbn; rewrite app_nil_r; repeat split; reflexivity).
  unfold seq, update. cbn. rewrite throttledUpdate_run. cbn.
  destruct (rafRef (transcript s)); cbn; repeat split; reflexivity.
Qed.

Lemma handleOutputTranscription_spec env msg s :
  let r := handleOutputTranscription env msg s in
  completion r = Normal /\ onlyTranscript s (state r)
  /\ transcriptions (transcript (state r)) = transcriptions (transcript s)
  /\ user (transcriptionBufferRef (transcript (state r)))
     = user (transcriptionBufferRef (transcript s))
  /\ model (transcriptionBufferRef (transcript (state r)))
     = model (transcriptionBufferRef (transcript s)) ++ stringOr (outputTextOf msg).
Proof.
  unfold handleOutputTranscription.
  destruct (outputTextOf msg) as [t|]; cbn [stringOr];
    [destruct t as [|c t]; cbn [truthy when]|];
    try (cbn; rewrite app_nil_r; repeat split; reflexivity).
  unfold seq, update. cbn. rewrite throttledUpdate_run. cbn.
  destruct (rafRef (transcript s)); cbn; repeat split; reflexivity.
Qed.

Lemma handleTurnComplete_run env msg s :
  turnCompleteOf msg = true ->
  let uText := trim (user (transcriptionBufferRef (transcript s))) in
  let mText := trim (model (transcriptionBufferRef (transcript s))) in
  let r := handleTurnComplete env msg s in
  completion r = Normal /\ onlyTranscript s (state r)
  /\ transcriptions (transcript (state r))
     = transcriptions (transcript s) ++ finalized uText mText (dateNow env)
  /\ transcriptionBufferRef (transcript (state r)) = emptyPair
  /\ pendingTextRef (transcript (state r)) = emptyPair
  /\ realtimeText (transcript (state r)) = emptyPair
  /\ rafRef (transcript (state r)) = None.
Proof.
  intros H. unfold handleTurnComplete. rewrite H. cbn [when].
  unfold seq, get, update, setTranscriptions, setRealtimeText, emit, skip, finalized.
  destruct (rafRef (transcript s)) as [h|] eqn:Hraf; cbn;
    destruct (truthy (trim (user (transcriptionBufferRef (transcript s)))));
    destruct (truthy (trim (model (transcriptionBufferRef (transcript s)))));
    cbn; rewrite ?app_nil_r; repeat split; try reflexivity; assumption.
Qed.

Lemma handleTurnComplete_skip env msg s :
  turnCompleteOf msg = false -> handleTurnComplete env msg s = mkResult Normal s [].
Proof. intros H. unfold handleTurnComplete. rewrite H. reflexivity. Qed.

Lemma handleAudioOutput_frame env msg s :
  onlyPlayback s (state (handleAudioOutput env msg s)).
Proof.
  destruct (audioOf msg) as [d|] eqn:Ha.
  - destruct (outputAudioContextRef (playback s)) as [ctx|] eqn:Hc.
    + destruct (decodedChunk d) as [b|] eqn:Hd.
      * rewrite (handleAudioOutput_enqueues env msg s d ctx b Ha Hc Hd).
        repeat split.
      * destruct (handleAudioOutput_throws env msg s d ctx Ha Hc Hd) as [e ->].
        repeat split.
    + rewrite (handleAudioOutput_no_context env msg s d Ha Hc). repeat split.
  - rewrite (handleAudioOutput_none env msg s Ha). repeat split.
Qed.

Lemma handleInterruptions_frame msg s :
  completion (handleInterruptions msg s) = Normal
  /\ onlyPlayback s (state (handleInterruptions msg s)).
Proof.
  rewrite handleInterruptions_run. destruct (interruptedOf msg); repeat split.
Qed.

Lemma handleTurnComplete_frame env msg s :
  completion (handleTurnComplete env msg s) = Normal
  /\ onlyTranscript s (state (handleTurnComplete env msg s)).
Proof.
  destruct (turnCompleteOf msg) eqn:H.
  - destruct (handleTurnComplete_run env msg s H) as (? & ? & _). auto.
  - rewrite (handleTurnComplete_skip env msg s H). repeat split.
Qed.

Lemma handleMessageBody_normal env msg s :
  completion (handleAudioOutput env msg s) = Normal ->
  completion (handleMessageBody env msg s) = Normal
  /\ state (handleMessageBody env msg s)
     = afterAudio env msg (state (handleAudioOutput env msg s)).
Proof.
  intros Ha. unfold handleMessageBody, afterAudio.
  rewrite seq_normal by exact Ha. cbn [completion state].
  set (s1 := state (handleAudioOutput env msg s)).
  rewrite seq_normal by apply handleInterruptions_frame. cbn [completion state].
  set (s2 := state (handleInterruptions msg s1)).
  rewrite seq_normal by apply handleInputTranscription_spec. cbn [completion state].
  set (s3 := state (handleInputTranscription env msg s2)).
  rewrite seq_normal by apply handleOutputTranscription_spec. cbn [completion state].
  split; [apply handleTurnComplete_frame | reflexivity].
Qed.

Lemma handleMessageBody_abrupt env msg s e :
  completion (handleAudioOutput env msg s) = Abrupt e ->
  handleMessageBody env msg s = handleAudioOutput env msg s.
Proof. intros Ha. unfold handleMessageBody. apply seq_abrupt with e. exact Ha. Qed.

Lemma handleMessage_of_body env msg s :
  handleMessage env msg s =
  match completion (handleMessageBody env msg s) with
  | Normal => handleMessageBody env msg s
  | Abrupt e =>
      mkResult Normal (state (handleMessageBody env msg s))
        (trace (handleMessageBody env msg s)
         ++ [ConsoleError (lit "Error handling message:") e])
  end.
Proof.
  unfold handleMessage, try_catch.
  destruct (completion (handleMessageBody env msg s)); reflexivity.
Qed.

Lemma afterAudio_frame env msg s1 :
  let s5 := afterAudio env msg s1 in
  capture s5 = capture s1 /\ frames s5 = frames s1
  /\ connection s5 = connection s1 /\ feedback s5 = feedback s1.
Proof.
  unfold afterAudio.
  set (s2 := state (handleInterruptions msg s1)).
  set (s3 := state (handleInputTranscription env msg s2)).
  set (s4 := state (handleOutputTranscription env msg s3)).
  destruct (handleInterruptions_frame msg s1) as (_ & H2).
  destruct (handleInputTranscription_spec env msg s2) as (_ & H3 & _).
  destruct (handleOutputTranscription_spec env msg s3) as (_ & H4 & _).
  destruct (handleTurnComplete_frame env msg s4) as (_ & H5).
  fold s2 in H2. fold s3 in H3. fold s4 in H4.
  unfold onlyPlayback, onlyTranscript in *. cbn zeta. intuition congruence.
Qed.

Lemma noTeardown_app tr1 tr2 :
  noTeardown tr1 -> noTeardown tr2 -> noTeardown (tr1 ++ tr2).
Proof. unfold noTeardown. intros. apply Forall_app. auto. Qed.

Lemma noTeardown_stops l : noTeardown (map SourceStop l).
Proof. unfold noTeardown. apply Forall_forall. intros a Ha.
  apply in_map_iff in Ha. destruct Ha as (x & <- & _). reflexivity. Qed.

Lemma handleAudioOutput_trace env msg s :
  noTeardown (trace (handleAudioOutput env msg s)).
Proof.
  destruct (audioOf msg) as [d|] eqn:Ha.
  - destruct (outputAudioContextRef (playback s)) as [ctx|] eqn:Hc.
    + destruct (decodedChunk d) as [b|] eqn:Hd.
      * rewrite (handleAudioOutput_enqueues env msg s d ctx b Ha Hc Hd).
        repeat constructor.
      * destruct (handleAudioOutput_throws env msg s d ctx Ha Hc Hd) as [e ->].
        constructor.
    + rewrite (handleAudioOutput_no_context env msg s d Ha Hc). constructor.
  - rewrite (handleAudioOutput_none env msg s Ha). constructor.
Qed.

Lemma handleInterruptions_trace msg s :
  noTeardown (trace (handleInterruptions msg s)).
Proof.
  rewrite handleInterruptions_run. destruct (interruptedOf msg); cbn.
  - apply noTeardown_app; [apply noTeardown_stops | repeat constructor].
  - constructor.
Qed.

Lemma handleInputTranscription_trace env msg s :
  displayOnly (trace (handleInputTranscription env msg s)).
Proof.
  unfold handleInputTranscription.
  destruct (inputTextOf msg) as [[|c t]|]; cbn [truthy when]; try constructor.
  unfold seq, update. cbn. rewrite throttledUpdate_run. cbn.
  destruct (rafRef (transcript s)); repeat constructor.
Qed.

Lemma handleOutputTranscription_trace env msg s :
  displayOnly (trace (handleOutputTranscription env msg s)).
Proof.
  unfold handleOutputTranscription.
  destruct (outputTextOf msg) as [[|c t]|]; cbn [truthy when]; try constructor.
  unfold seq, update. cbn. rewrite throttledUpdate_run. cbn.
  destruct (rafRef (transcript s)); repeat constructor.
Qed.

Lemma handleTurnComplete_trace env msg s :
  displayOnly (trace (handleTurnComplete env msg s)).
Proof.
  unfold handleTurnComplete. destruct (turnCompleteOf msg); cbn [when];
    [|constructor].
  unfold seq, get, update, setTranscriptions, setRealtimeText, emit, skip.
  destruct (rafRef (transcript s)) as [h|]; cbn;
    destruct (truthy (trim (user (transcriptionBufferRef (transcript s)))));
    destruct (truthy (trim (model (transcriptionBufferRef (transcript s)))));
    cbn; repeat constructor.
Qed.

Lemma displayOnly_noTeardown tr : displayOnly tr -> noTeardown tr.
Proof.
  unfold displayOnly, noTeardown. apply Forall_impl.
  intros [] H; try reflexivity; discriminate H.
Qed.

Lemma displayOnly_app tr1 tr2 :
  displayOnly tr1 -> displayOnly tr2 -> displayOnly (tr1 ++ tr2).
Proof. unfold displayOnly. intros. apply Forall_app. auto. Qed.

Lemma seq_trace_noTeardown (c1 c2 : Cmd) s :
  noTeardown (trace (c1 s)) ->
  (forall s1, noTeardown (trace (c2 s1))) ->
  noTeardown (trace ((c1 ;; c2) s)).
Proof.
  intros H1 H2. unfold seq. destruct (completion (c1 s)); [|exact H1].
  cbn. apply noTeardown_app; auto.
Qed.

Lemma handleMessageBody_trace env msg s :
  noTeardown (trace (handleMessageBody env msg s)).
Proof.
  unfold handleMessageBody.
  apply seq_trace_noTeardown; [apply handleAudioOutput_trace|intros s1].
  apply seq_trace_noTeardown; [apply handleInterruptions_trace|intros s2].
  apply seq_trace_noTeardown;
    [apply displayOnly_noTeardown, handleInputTranscription_trace|intros s3].
  apply seq_trace_noTeardown;
    [apply displayOnly_noTeardown, handleOutputTranscription_trace|intros s4].
  apply displayOnly_noTeardown, handleTurnComplete_trace.
Qed.

Lemma handleMessageBody_frame env msg s :
  let s' := state (handleMessageBody env msg s) in
  capture s' = capture s /\ frames s' = frames s
  /\ connection s' = connection s /\ feedback s' = feedback s.
Proof.
  cbn zeta. pose proof (handleAudioOutput_frame env msg s) as Hp.
  destruct (completion (handleAudioOutput env msg s)) as [|e] eqn:Ha.
  - destruct (handleMessageBody_normal env msg s Ha) as (_ & ->).
    pose proof (afterAudio_frame env msg (state (handleAudioOutput env msg s))) as Hq.
    unfold onlyPlayback in Hp. cbn zeta in Hq. intuition congruence.
  - rewrite (handleMessageBody_abrupt env msg s e Ha).
    unfold onlyPlayback in Hp. intuition.
Qed.

(** C10. Whatever the inbound message is, and in whatever state it arrives,
    [handleMessage] completes normally: an exception raised while the message
    is processed (a payload that does not decode) is caught and logged with
    [console.error].  The message leaves the connection state (session
    handle, open flag, active and connecting flags, the user-visible error),
    the capture graph, the frame buffer and the feedback state as they were,
    and performs no teardown action. *)
Theorem handleMessage_never_throws (env : Env) (msg : Msg.LiveServerMessage)
    (s : State) :
  let r := handleMessage env msg s in
  completion r = Normal
  /\ (forall e, completion (handleMessageBody env msg s) = Abrupt e ->
        In (ConsoleError (lit "Error handling message:") e) (trace r))
  /\ connection (state r) = connection s
  /\ capture (state r) = capture s
  /\ frames (state r) = frames s
  /\ feedback (state r) = feedback s
  /\ noTeardown (trace r).
Proof.
  cbn zeta. rewrite handleMessage_of_body.
  pose proof (handleMessageBody_frame env msg s) as Hf. cbn zeta in Hf.
  pose proof (handleMessageBody_trace env msg s) as Ht.
  destruct (completion (handleMessageBody env msg s)) as [|e] eqn:Hc; cbn.
  - rewrite Hc. intuition discriminate.
  - repeat split; try tauto.
    + intros e' [= <-]. apply in_or_app. right. left. reflexivity.
    + apply noTeardown_app; [exact Ht | repeat constructor].
Qed.

(** A payload that is not base64 makes the body throw; the handler logs the
    error and returns. *)
Example undecodable_message_is_logged :
  completion (handleMessageBody sampleEnv undecodable openState)
  = Abrupt INVALID_CHARACTER
  /\ completion (handleMessage sampleEnv undecodable openState) = Normal
  /\ trace (handleMessage sampleEnv undecodable openState)
     = [ConsoleError (lit "Error handling message:") INVALID_CHARACTER].
Proof. repeat split. Qed.

(** ** The interrupted signal *)

Lemma afterAudio_playback env msg s1 :
  playback (afterAudio env msg s1) = playback (state (handleInterruptions msg s1)).
Proof.
  unfold afterAudio.
  set (s2 := state (handleInterruptions msg s1)).
  set (s3 := state (handleInputTranscription env msg s2)).
  set (s4 := state (handleOutputTranscription env msg s3)).
  destruct (handleInputTranscription_spec env msg s2) as (_ & H3 & _).
  destruct (handleOutputTranscription_spec env msg s3) as (_ & H4 & _).
  destruct (handleTurnComplete_frame env msg s4) as (_ & H5).
  fold s3 in H3. fold s4 in H4.
  unfold onlyTranscript in *. intuition congruence.
Qed.

Lemma seq_trace_displayOnly (c1 c2 : Cmd) s :
  displayOnly (trace (c1 s)) ->
  (forall s1, displayOnly (trace (c2 s1))) ->
  displayOnly (trace ((c1 ;; c2) s)).
Proof.
  intros H1 H2. unfold seq. destruct (completion (c1 s)); [|exact H1].
  cbn. apply displayOnly_app; auto.
Qed.

Lemma handleMessageBody_trace_prefix env msg s :
  completion (handleAudioOutput env msg s) = Normal ->
  exists rest,
    trace (handleMessageBody env msg s)
    = trace (handleAudioOutput env msg s)
      ++ trace (handleInterruptions msg (state (handleAudioOutput env msg s)))
      ++ rest
    /\ displayOnly rest.
Proof.
  intros Ha. unfold handleMessageBody.
  rewrite seq_normal by exact Ha. cbn [trace].
  rewrite seq_normal by apply handleInterruptions_frame. cbn [trace].
  eexists. split; [reflexivity|].
  apply seq_trace_displayOnly; [apply handleInputTranscription_trace|intros s3].
  apply seq_trace_displayOnly; [apply handleOutputTranscription_trace|intros s4].
  apply handleTurnComplete_trace.
Qed.

Lemma setAdd_keeps x y l : In y l -> In y (setAdd x l).
Proof.
  unfold setAdd. destruct (existsb (sameSource x) l); [auto|].
  intros H. apply in_or_app. left. exact H.
Qed.

Lemma handleAudioOutput_keeps_sources env msg s src :
  In src (sourcesRef (playback s)) ->
  In src (sourcesRef (playback (state (handleAudioOutput env msg s)))).
Proof.
  intros Hin.
  destruct (audioOf msg) as [d|] eqn:Ha.
  - destruct (outputAudioContextRef (playback s)) as [ctx|] eqn:Hc.
    + destruct (decodedChunk d) as [b|] eqn:Hd.
      * rewrite (handleAudioOutput_enqueues env msg s d ctx b Ha Hc Hd).
        cbn. apply setAdd_keeps. exact Hin.
      * destruct (handleAudioOutput_throws env msg s d ctx Ha Hc Hd) as [e ->].
        exact Hin.
    + rewrite (handleAudioOutput_no_context env msg s d Ha Hc). exact Hin.
  - rewrite (handleAudioOutput_none env msg s Ha). exact Hin.
Qed.

Lemma handleMessage_with_interrupt env msg s :
  interruptedOf msg = true ->
  completion (handleAudioOutput env msg s) = Normal ->
  let p' := playback (state (handleMessage env msg s)) in
  sourcesRef p' = [] /\ nextStartTimeRef p' = 0%Q /\ isSpeaking p' = false.
Proof.
  intros Hi Ha. cbn zeta. rewrite handleMessage_of_body.
  destruct (handleMessageBody_normal env msg s Ha) as (Hc & Hs).
  rewrite Hc, Hs, afterAudio_playback, handleInterruptions_run, Hi.
  repeat split.
Qed.

(** C3, as stated, does not hold: not every interrupted signal cuts the
    playback off.  One chunk is playing when a message arrives that carries
    the interrupted signal and an audio payload that is not base64; the
    exception leaves the handler body at the audio block, and the source
    stays in the set. *)
Lemma interrupt_lost_with_bad_audio :
  ~ (forall (env : Env) (msg : Msg.LiveServerMessage) (s : State),
       interruptedOf msg = true -> playbackCleared env msg s).
Proof.
  intros H.
  destruct (H sampleEnv garbled playingState eq_refl) as (_ & _ & E & _).
  vm_compute in E. discriminate E.
Qed.

(** C3, amended.  In every prior state, a message that carries the
    interrupted signal reaches the interruption block of [handleMessage] when
    its audio part, if it has one, decodes.  The handler then calls [stop] on
    every active source -- those of the prior state and the one the same
    message may have enqueued --, and leaves the set of sources empty, the
    playback cursor at zero and the speaking signal false.  When the audio
    part does not decode, the signal is lost: no source is stopped and the
    set is as it was. *)
Theorem interrupt_clears_playback (env : Env) (msg : Msg.LiveServerMessage)
    (s : State) :
  interruptedOf msg = true ->
  let r := handleMessage env msg s in
  (completion (handleAudioOutput env msg s) = Normal ->
   playbackCleared env msg s)
  /\ (completion (handleAudioOutput env msg s) <> Normal ->
      (forall src, ~ In (SourceStop src) (trace r))
      /\ sourcesRef (playback (state r)) = sourcesRef (playback s)).
Proof.
  intros Hi. unfold playbackCleared. cbn zeta.
  rewrite handleMessage_of_body. split.
  - intros Ha.
    destruct (handleMessageBody_normal env msg s Ha) as (Hc & Hs).
    destruct (handleMessageBody_trace_prefix env msg s Ha) as (rest & Ht & _).
    rewrite Hc, Hs, Ht, afterAudio_playback, handleInterruptions_run, Hi.
    cbn [state trace playback onPlayback sourcesRef nextStartTimeRef isSpeaking].
    assert (Hall : forall src,
      In src (sourcesRef (playback (state (handleAudioOutput env msg s)))) ->
      In (SourceStop src)
        (trace (handleAudioOutput env msg s)
         ++ (map SourceStop
               (sourcesRef (playback (state (handleAudioOutput env msg s))))
             ++ [SourcesCleared; CursorReset]) ++ rest)).
    { intros src Hin. apply in_or_app. right. apply in_or_app. left.
      apply in_or_app. left. apply in_map. exact Hin. }
    repeat split; try reflexivity.
    + intros src Hin. apply Hall. apply handleAudioOutput_keeps_sources.
      exact Hin.
    + exact Hall.
  - intros Ha.
    destruct (completion (handleAudioOutput env msg s)) as [|e] eqn:He;
      [contradiction|].
    rewrite (handleMessageBody_abrupt env msg s e He), He.
    cbn [completion state trace].
    destruct (audioOf msg) as [d|] eqn:Hd.
    + destruct (outputAudioContextRef (playback s)) as [ctx|] eqn:Hc.
      * destruct (decodedChunk d) as [b|] eqn:Hb.
        -- rewrite (handleAudioOutput_enqueues env msg s d ctx b Hd Hc Hb)
             in He. discriminate He.
        -- destruct (handleAudioOutput_throws env msg s d ctx Hd Hc Hb)
             as [e' ->].
           cbn. split; [|reflexivity].
           intros src [H | []]. discriminate H.
      * rewrite (handleAudioOutput_no_context env msg s d Hd Hc) in He.
        discriminate He.
    + rewrite (handleAudioOutput_none env msg s Hd) in He. discriminate He.
Qed.

Lemma interrupt_clears_playback_witness :
  sourcesRef (playback playingState) <> []
  /\ sourcesRef (playback (state (handleMessage sampleEnv
       (contentMessage None true None None false) playingState))) = []
  /\ isSpeaking (playback (state (handleMessage sampleEnv
       (contentMessage None true None None false) playingState))) = false.
Proof.
  split; [vm_compute; discriminate|].
  pose proof (interrupt_clears_playback sampleEnv
                (contentMessage None true None None false) playingState
                eq_refl) as H.
  cbn zeta in H. destruct H as (H & _).
  destruct (H eq_refl) as (_ & _ & E & _ & S).
  split; [exact E | exact S].
Defined.

(** ** The turn-complete signal *)

Lemma afterAudio_transcript env msg s1 :
  turnCompleteOf msg = true ->
  let uText := trim (user (transcriptionBufferRef (transcript s1))
                     ++ stringOr (inputTextOf msg)) in
  let mText := trim (model (transcriptionBufferRef (transcript s1))
                     ++ stringOr (outputTextOf msg)) in
  let t' := transcript (afterAudio env msg s1) in
  transcriptions t'
    = transcriptions (transcript s1) ++ finalized uText mText (dateNow env)
  /\ transcriptionBufferRef t' = emptyPair
  /\ pendingTextRef t' = emptyPair
  /\ realtimeText t' = emptyPair
  /\ rafRef t' = None.
Proof.
  intros Htc. unfold afterAudio.
  set (s2 := state (handleInterruptions msg s1)).
  set (s3 := state (handleInputTranscription env msg s2)).
  set (s4 := state (handleOutputTranscription env msg s3)).
  destruct (handleInterruptions_frame msg s1) as (_ & H2 & _).
  destruct (handleInputTranscription_spec env msg s2) as (_ & _ & T3 & U3 & M3).
  destruct (handleOutputTranscription_spec env msg s3) as (_ & _ & T4 & U4 & M4).
  destruct (handleTurnComplete_run env msg s4 Htc) as (_ & _ & T5 & B5 & P5 & R5 & F5).
  fold s2 in H2. fold s3 in T3, U3, M3. fold s4 in T4, U4, M4.
  cbn zeta. rewrite T5, U4, M4, T4, U3, M3, T3, H2. auto.
Qed.

(** C1, as stated, does not hold: not every turn-complete event is
    finalized.  The candidate's words wait in the accumulator when a message
    arrives that carries the turn-complete signal and an audio payload that
    is not base64; the exception leaves the handler body at the audio block,
    no entry is appended and the accumulator still holds the words. *)
Lemma turn_complete_lost_with_bad_audio :
  ~ (forall (env : Env) (msg : Msg.LiveServerMessage) (s : State),
       turnCompleteOf msg = true -> turnFinalized env msg s).
Proof.
  intros H.
  destruct (H sampleEnv garbled hearingState eq_refl) as (_ & B & _).
  vm_compute in B. discriminate B.
Qed.

(** C1, amended.  A message that carries the turn-complete signal reaches
    the turn-complete block of [handleMessage] when its audio part, if it has
    one, decodes.  The handler then trims both accumulators -- with the
    partial texts of the same message appended first -- and appends to the
    transcript nothing when both trimmed texts are empty, else the user entry
    when only the user text is not empty, the model entry when only the model
    text is not empty, and the user entry followed by the model entry when
    neither is; each entry is stamped with a clock reading of its own.
    Afterwards both accumulators, the pending buffer and the interim display
    are empty.  When the audio part does not decode, the signal is lost: the
    transcript, the accumulators and the buffers are as they were. *)
Theorem turn_complete_finalizes (env : Env) (msg : Msg.LiveServerMessage)
    (s : State) :
  turnCompleteOf msg = true ->
  (completion (handleAudioOutput env msg s) = Normal ->
   turnFinalized env msg s)
  /\ (completion (handleAudioOutput env msg s) <> Normal ->
      transcript (state (handleMessage env msg s)) = transcript s).
Proof.
  intros Htc. unfold turnFinalized. cbn zeta.
  rewrite handleMessage_of_body. split.
  - intros Ha.
    destruct (handleMessageBody_normal env msg s Ha) as (Hc & Hs).
    rewrite Hc, Hs.
    destruct (afterAudio_transcript env msg
                (state (handleAudioOutput env msg s)) Htc)
      as (T & B & P & R & _).
    destruct (handleAudioOutput_frame env msg s) as (Hp & _).
    rewrite Hp in T. rewrite T, B, P, R.
    split; [|auto].
    eexists. split; [reflexivity|]. unfold finalized.
    destruct (trim (user (transcriptionBufferRef (transcript s))
                    ++ stringOr (inputTextOf msg))) as [|c u];
    destruct (trim (model (transcriptionBufferRef (transcript s))
                    ++ stringOr (outputTextOf msg))) as [|c' m]; cbn.
    + left. auto.
    + right. right. left. repeat split. discriminate.
    + right. left. repeat split. discriminate.
    + right. right. right. repeat split; discriminate.
  - intros Ha.
    destruct (completion (handleAudioOutput env msg s)) as [|e] eqn:He;
      [contradiction|].
    rewrite (handleMessageBody_abrupt env msg s e He), He.
    cbn [completion state trace].
    apply handleAudioOutput_frame.
Qed.

Lemma turn_complete_finalizes_witness :
  transcriptions (transcript (state (handleMessage sampleEnv
     (contentMessage None false (Some (lit " hello ")) (Some (lit "hi")) true)
     openState)))
  = [mkEntry role_user (lit "hello") 1000; mkEntry role_model (lit "hi") 1001]
  /\ transcriptionBufferRef (transcript (state (handleMessage sampleEnv
     (contentMessage None false (Some (lit " hello ")) (Some (lit "hi")) true)
     openState)))
     = emptyPair.
Proof.
  pose proof (turn_complete_finalizes sampleEnv
     (contentMessage None false (Some (lit " hello ")) (Some (lit "hi")) true)
     openState eq_refl) as H.
  destruct H as (H & _).
  destruct (H eq_refl) as (_ & B & _).
  split; [vm_compute; reflexivity | exact B].
Defined.

(** ** Teardown *)

Lemma update_run f s : update f s = mkResult Normal (f s) [].
Proof. reflexivity. Qed.

Lemma emit_run a s : emit a s = mkResult Normal s [a].
Proof. reflexivity. Qed.

Lemma guarded_disconnect_run n s :
  try_catch (disconnect n) (fun _ => skip) s = mkResult Normal s [NodeDisconnect n].
Proof.
  unfold try_catch, disconnect, seq, emit, orThrow, skip, throw.
  destruct (disconnectFails n); reflexivity.
Qed.

Lemma drop_processor_run s :
  get (fun s =>
      match scriptProcessorRef (capture s) with
      | Some n =>
          try_catch (disconnect n) (fun _ => skip) ;;
          update (onCapture (withScriptProcessor None))
      | None => skip
      end) s
  = mkResult Normal (onCapture (withScriptProcessor None) s)
      (disconnected (scriptProcessorRef (capture s))).
Proof.
  unfold get. destruct s as [p t [[n|] ms st] f c fb]; cbn; [|reflexivity].
  run_with guarded_disconnect_run. reflexivity.
Qed.

Lemma drop_media_source_run s :
  get (fun s =>
      match mediaSourceRef (capture s) with
      | Some n =>
          try_catch (disconnect n) (fun _ => skip) ;;
          update (onCapture (withMediaSource None))
      | None => skip
      end) s
  = mkResult Normal (onCapture (withMediaSource None) s)
      (disconnected (mediaSourceRef (capture s))).
Proof.
  unfold get. destruct s as [p t [sp [n|] st] f c fb]; cbn; [|reflexivity].
  run_with guarded_disconnect_run. reflexivity.
Qed.

Lemma drop_stream_run s :
  get (fun s =>
      match streamRef (capture s) with
      | Some m =>
          forEach (getTracks m) (fun track => emit (TrackStop track)) ;;
          update (onCapture (withStream None)) ;;
          emit StreamReleased
      | None => skip
      end) s
  = mkResult Normal (onCapture (withStream None) s)
      (released (streamRef (capture s))).
Proof.
  unfold get. destruct s as [p t [sp ms [m|]] f c fb]; cbn; [|reflexivity].
  run_with forEach_tracks. reflexivity.
Qed.

Lemma cleanup_run (s : State) :
  cleanup s = mkResult Normal (cleaned s) (teardownOrder s).
Proof.
  unfold cleanup.
  run_with update_run. run_with emit_run.
  run_with drop_processor_run. run_with drop_media_source_run.
  run_with drop_stream_run. run_with stopAllSources_run.
  run_with update_run. run_with emit_run. run_with update_run.
  rewrite emit_run.
  destruct s as [p t [sp ms st] f c fb]. reflexivity.
Qed.

Lemma orElse_same a : orElse a a = a.
Proof. unfold orElse. destruct (truthy a); reflexivity. Qed.

Lemma generateFeedback_run transcript videoFrames jd resume key s :
  generateFeedback transcript videoFrames jd resume key s =
  let k := orElse (stringOr key) (apiKey (interviewContextRef (feedback s))) in
  if negb (truthy k) || (length transcript =? 0)%nat
  then mkResult Normal s []
  else mkResult Normal (onFeedback (withIsGeneratingFeedback true) s)
         [GenerateContent k FEEDBACK_MODEL
            (contentParts transcript videoFrames jd resume)].
Proof.
  unfold generateFeedback, get. cbn zeta.
  destruct (negb _ || _); reflexivity.
Qed.

Lemma close_block_run (sess : Session) (s : State) :
  (try_catch (close sess)
     (fun e => emit (ConsoleError (lit "Error closing session:") e)) ;;
   update (onConnection (withSession None))) s
  = mkResult Normal (onConnection (withSession None) s)
      (if hasClose sess then
         SessionClose sess
           :: match closeFails sess with
              | Some e => [ConsoleError (lit "Error closing session:") e]
              | None => []
              end
       else []).
Proof.
  destruct sess as [id [|] [e|]]; reflexivity.
Qed.

Lemma stopSession_run (tr : list TranscriptionEntry) (s : State) :
  stopSession tr s
  = mkResult Normal (stopped tr s)
      (ConsoleLog (lit "Stopping session...")
         :: closing s ++ teardownOrder s ++ feedbackRequest tr s).
Proof.
  unfold stopSession. run_with emit_run. unfold get.
  assert (Hclose :
    forall s1, (match sessionRef (connection s) with
     | Some sess =>
         try_catch (close sess)
           (fun e => emit (ConsoleError (lit "Error closing session:") e)) ;;
         update (onConnection (withSession None))
     | None => skip
     end) s1 = mkResult Normal
                 (match sessionRef (connection s) with
                  | Some _ => onConnection (withSession None) s1
                  | None => s1 end) (closing s)).
  { intros s1. unfold closing. destruct (sessionRef (connection s)) as [sess|];
      [apply close_block_run | reflexivity]. }
  run_with Hclose. clear Hclose.
  run_with cleanup_run.
  unfold setIsActive, setIsConnecting, setIsSpeaking, setStatusMessage.
  do 6 run_with update_run.
  unfold when, feedbackRequest, stopped, feedbackDue.
  destruct tr as [|e l]; cbn [length Nat.ltb Nat.leb andb].
  - destruct s as [p t cp f [[sess|] op act con err sm ssf] fb]; cbn;
      rewrite !app_nil_r; reflexivity.
  - rewrite generateFeedback_run. cbn zeta. cbn [stringOr].
    assert (Hk : forall s1, feedback s1 = feedback s ->
       orElse (apiKey (interviewContextRef (feedback s)))
         (apiKey (interviewContextRef (feedback s1)))
       = apiKey (interviewContextRef (feedback s))).
    { intros s1 ->. apply orElse_same. }
    rewrite Hk by (destruct (sessionRef (connection s)); reflexivity).
    cbn [length Nat.eqb orb]. rewrite orb_false_r.
    destruct (truthy (apiKey (interviewContextRef (feedback s)))); cbn [negb];
    destruct s as [p t cp f [[sess|] op act con err sm ssf] fb]; cbn;
      rewrite ?app_nil_r; reflexivity.
Qed.

(** ** Stopping a session *)

Lemma feedbackDue_stopped tr tr' s :
  feedbackDue tr (stopped tr' s) = feedbackDue tr s.
Proof.
  unfold feedbackDue at 1. unfold stopped. cbn [feedback].
  destruct (feedbackDue tr' s); reflexivity.
Qed.

Lemma stopped_idempotent tr s : stopped tr (stopped tr s) = stopped tr s.
Proof.
  unfold stopped at 1. rewrite feedbackDue_stopped.
  unfold stopped. cbn. destruct (feedbackDue tr s); reflexivity.
Qed.

(** C7. In every state -- also one in which nothing was ever acquired, and
    so also when called again from an error or close callback --
    [stopSession] completes normally.  Its teardown, [cleanup], runs in the
    order of the specification: open flag set to false, audio nodes
    disconnected, microphone tracks stopped and the stream released, every
    active source stopped and the set cleared, cursor reset; in [stopSession]
    only the log line and the closing of the session handle come before it
    and only the feedback request after it.  Afterwards the flag is false, the
    nodes and the stream are released, the set of sources is empty and the
    cursor is zero.  Stopping again leaves that state as it is and finds
    nothing left to close or release; stopping again from a callback that
    works on another transcript differs at most in the feedback state. *)
Theorem stop_teardown_order_idempotent (tr tr' : list TranscriptionEntry)
    (s : State) :
  completion (cleanup s) = Normal
  /\ trace (cleanup s) = teardownOrder s
  /\ completion (stopSession tr s) = Normal
  /\ trace (stopSession tr s)
     = ConsoleLog (lit "Stopping session...")
         :: closing s ++ teardownOrder s ++ feedbackRequest tr s
  /\ (let s' := state (stopSession tr s) in
      isSessionOpenRef (connection s') = false
      /\ sessionRef (connection s') = None
      /\ capture s' = mkCapture None None None
      /\ sourcesRef (playback s') = []
      /\ nextStartTimeRef (playback s') = 0%Q)
  /\ state (cleanup (state (cleanup s))) = state (cleanup s)
  /\ state (stopSession tr (state (stopSession tr s)))
     = state (stopSession tr s)
  /\ closing (state (stopSession tr s)) = []
  /\ teardownOrder (state (stopSession tr s))
     = [FlagSessionClosed; SourcesCleared; CursorReset]
  /\ (let s1 := state (stopSession tr s) in
      let s2 := state (stopSession tr' s1) in
      playback s2 = playback s1 /\ transcript s2 = transcript s1
      /\ capture s2 = capture s1 /\ frames s2 = frames s1
      /\ connection s2 = connection s1).
Proof.
  cbn zeta. rewrite !stopSession_run, !cleanup_run.
  cbn [completion state trace]. rewrite stopped_idempotent.
  repeat split; reflexivity.
Qed.

(** Stopping before anything was acquired. *)
Example stop_in_initial_state :
  stopSession [] initialState
  = mkResult Normal (state (stopSession [] initialState))
      [ConsoleLog (lit "Stopping session..."); FlagSessionClosed;
       SourcesCleared; CursorReset].
Proof. reflexivity. Qed.

(** Nodes whose [disconnect] throws, a source whose [stop] throws and a
    handle whose [close] throws do not make [stopSession] throw. *)
Example stop_with_failing_resources :
  let boom := mkJsError true (lit "InvalidStateError") in
  let s := mkState
      (mkPlayback (Some 1%nat) 3 [mkSource 0 1 2 (Some boom)] true 1)
      (transcript openState)
      (mkCapture (Some (mkAudioNode 1 (Some boom)))
         (Some (mkAudioNode 2 (Some boom))) (Some (mkMediaStream [7%nat])))
      (frames openState)
      (mkConnection (Some (mkSession 1 true (Some boom))) true true false
         None [] false)
      (feedback openState) in
  completion (stopSession [] s) = Normal
  /\ trace (stopSession [] s)
     = [ConsoleLog (lit "Stopping session...");
        SessionClose (mkSession 1 true (Some boom));
        ConsoleError (lit "Error closing session:") boom;
        FlagSessionClosed;
        NodeDisconnect (mkAudioNode 1 (Some boom));
        NodeDisconnect (mkAudioNode 2 (Some boom));
        TrackStop 7; StreamReleased;
        SourceStop (mkSource 0 1 2 (Some boom));
        SourcesCleared; CursorReset].
Proof. split; reflexivity. Qed.

Lemma no_request_in_teardown s : existsb isRequest (teardownOrder s) = false.
Proof.
  unfold teardownOrder. rewrite !existsb_app.
  assert (H1 : forall o, existsb isRequest (disconnected o) = false)
    by (intros [n|]; reflexivity).
  assert (H2 : forall l, existsb isRequest (map TrackStop l) = false)
    by (induction l; auto).
  assert (H3 : forall l, existsb isRequest (map SourceStop l) = false)
    by (induction l; auto).
  assert (H4 : forall o, existsb isRequest (released o) = false).
  { intros [m|]; [|reflexivity]. cbn. rewrite existsb_app, H2. reflexivity. }
  rewrite !H1, H3, H4. reflexivity.
Qed.

Lemma no_request_in_closing s : existsb isRequest (closing s) = false.
Proof.
  unfold closing. destruct (sessionRef (connection s)) as [[id [|] [e|]]|];
    reflexivity.
Qed.

Lemma requests_of_stop tr s :
  existsb isRequest (trace (stopSession tr s)) = feedbackDue tr s.
Proof.
  rewrite stopSession_run. cbn [trace existsb isRequest orb].
  rewrite !existsb_app, no_request_in_closing, no_request_in_teardown.
  unfold feedbackRequest. destruct (feedbackDue tr s); reflexivity.
Qed.

(** C8. The synthesizer does nothing -- no request, no change of state,
    hence no output -- when it is handed an empty transcript or finds no
    credential.  Stopping a session with an empty transcript, or with no
    stored credential, issues no request and leaves the feedback state as it
    was; and a request in the trace of a stop means that the transcript was
    not empty and the credential was present. *)
Theorem feedback_needs_transcript_and_key (s : State)
    (tr : list TranscriptionEntry) (videoFrames : list JsString)
    (jd_ resume_ key : option JsString) :
  ((tr = []
    \/ orElse (stringOr key) (apiKey (interviewContextRef (feedback s))) = []) ->
   generateFeedback tr videoFrames jd_ resume_ key s = mkResult Normal s [])
  /\ ((tr = [] \/ apiKey (interviewContextRef (feedback s)) = []) ->
      existsb isRequest (trace (stopSession tr s)) = false
      /\ feedback (state (stopSession tr s)) = feedback s)
  /\ (existsb isRequest (trace (stopSession tr s)) = true ->
      tr <> [] /\ apiKey (interviewContextRef (feedback s)) <> []).
Proof.
  split; [|split].
  - intros H. rewrite generateFeedback_run. cbn zeta.
    destruct H as [-> | ->]; [|reflexivity].
    cbn [length Nat.eqb]. rewrite orb_true_r. reflexivity.
  - intros H. rewrite requests_of_stop, stopSession_run. cbn [state].
    assert (Hd : feedbackDue tr s = false).
    { unfold feedbackDue. destruct H as [-> | ->]; [reflexivity|].
      apply andb_false_r. }
    unfold stopped. rewrite Hd. split; reflexivity.
  - rewrite requests_of_stop. unfold feedbackDue. intros H.
    apply andb_true_iff in H. destruct H as (Ht & Hk). split.
    + intros E. rewrite E in Ht. discriminate.
    + intros E. rewrite E in Hk. discriminate.
Qed.

Lemma feedback_needs_transcript_and_key_witness :
  existsb isRequest
    (trace (stopSession (transcriptions (transcript openState)) openState))
  = false
  /\ generateFeedback [] [] None None (Some (lit "key")) openState
     = mkResult Normal openState []
  /\ existsb isRequest
       (trace (stopSession (transcriptions (transcript talkedState))
                 talkedState))
     = true
  /\ transcriptions (transcript talkedState) <> [].
Proof.
  pose proof (feedback_needs_transcript_and_key openState
                (transcriptions (transcript openState)) [] None None
                (Some (lit "key"))) as (H1 & H2 & _).
  pose proof (feedback_needs_transcript_and_key talkedState
                (transcriptions (transcript talkedState)) [] None None
                None) as (_ & _ & H3).
  split; [apply H2; left; reflexivity|].
  split; [apply H1; left; reflexivity|].
  split; [reflexivity|].
  apply H3. reflexivity.
Defined.

(** ** The feedback call settles *)

Lemma generateFeedbackSettled_run o s :
  generateFeedbackSettled o s =
  match o with
  | Resolved responseText =>
      mkResult Normal
        (onFeedback (fun f =>
           mkFeedback (interviewContextRef f)
             (Some (orElse (stringOr responseText) UNABLE_MESSAGE)) false) s)
        []
  | Rejected err =>
      mkResult Normal
        (onFeedback (fun f =>
           mkFeedback (interviewContextRef f) (Some FAILED_MESSAGE) false) s)
        [ConsoleError (lit "Error generating feedback:") err]
  end.
Proof. destruct o; reflexivity. Qed.

(** C9, as stated, does not hold: there is no single message that every
    failure of the feedback call ends in.  A rejected call and a response
    without text are both failures, and they are answered with two different
    fixed messages. *)
Lemma failure_message_not_unique :
  ~ (exists m : JsString,
       forall (o : GenerateOutcome) (s : State),
         isFailure o = true -> shown o s = Some m).
Proof.
  intros (m & H).
  pose proof (H (Rejected (mkJsError true (lit "Failed to fetch"))) openState
                eq_refl) as H1.
  pose proof (H (Resolved None) openState eq_refl) as H2.
  vm_compute in H1, H2. rewrite <- H1 in H2. discriminate H2.
Qed.

(** C9, amended.  Every failure of the feedback call ends normally, with the
    busy flag cleared and a fixed message shown: for a rejected call, whatever
    the error is, the message is [FAILED_MESSAGE] and the error goes to
    [console.error] and nowhere else; for a response without text the message
    is [UNABLE_MESSAGE] and nothing is logged. *)
Theorem feedback_failure_shows_fixed_message (o : GenerateOutcome)
    (s : State) :
  isFailure o = true ->
  let r := generateFeedbackSettled o s in
  completion r = Normal
  /\ isGeneratingFeedback (feedback (state r)) = false
  /\ match o with
     | Rejected err =>
         shown o s = Some FAILED_MESSAGE
         /\ trace r = [ConsoleError (lit "Error generating feedback:") err]
     | Resolved _ =>
         shown o s = Some UNABLE_MESSAGE /\ trace r = []
     end
  /\ playback (state r) = playback s /\ transcript (state r) = transcript s
  /\ capture (state r) = capture s /\ frames (state r) = frames s
  /\ connection (state r) = connection s
  /\ interviewContextRef (feedback (state r)) = interviewContextRef (feedback s).
Proof.
  intros Hf. unfold shown. cbn zeta. rewrite generateFeedbackSettled_run.
  destruct o as [responseText|err]; cbn.
  - cbn in Hf. apply negb_true_iff in Hf. unfold orElse. rewrite Hf.
    repeat split; reflexivity.
  - repeat split; reflexivity.
Qed.

Lemma feedback_failure_shows_fixed_message_witness :
  shown (Rejected (mkJsError true (lit "429 RESOURCE_EXHAUSTED"))) openState
  = Some FAILED_MESSAGE
  /\ shown (Resolved (Some [])) openState = Some UNABLE_MESSAGE.
Proof.
  pose proof (feedback_failure_shows_fixed_message
                (Rejected (mkJsError true (lit "429 RESOURCE_EXHAUSTED")))
                openState eq_refl) as H1.
  pose proof (feedback_failure_shows_fixed_message
                (Resolved (Some [])) openState eq_refl) as H2.
  cbn zeta in H1, H2. split; [apply H1 | apply H2].
Defined.

(** ** The frame sampler *)

Lemma handleFrame_step (ev : FrameEvent) (s : State) :
  let r := handleFrameEvent ev s in
  completion r = Normal
  /\ existsb isPush (trace r) = retains ev s
  /\ frames (state r)
     = if retains ev s then
         mkFrames
           (let l := capturedFramesRef (frames s) ++ [base64 ev] in
            if (MAX_FRAMES_FOR_FEEDBACK <? length l)%nat then tl l else l)
           (arrivedAt ev)
       else frames s.
Proof.
  unfold handleFrameEvent, handleFrame, retains, get.
  destruct ev as [sf now b]. cbn [sendFails arrivedAt base64].
  destruct s as [p t cp [buf last] [[sess|] op act con err sm ssf] fb];
    cbn [connection sessionRef isSessionOpenRef isActive frames
         lastFrameCaptureTimeRef capturedFramesRef]; [|repeat split].
  destruct op, act; cbn [andb when]; try (repeat split; fail).
  destruct sf as [e|].
  - unfold try_catch, seq, emit, orThrow, throw, when, update, skip. cbn.
    destruct (isErrorInstance e && includes (lit "CLOS") (message e));
      cbn; repeat split.
  - unfold try_catch, seq, emit, orThrow, throw, when, update, skip, get.
    cbn -[Nat.ltb Z.leb Z.sub].
    destruct (FRAME_CAPTURE_INTERVAL <=? now - last);
      cbn -[Nat.ltb Z.leb Z.sub]; [|repeat split].
    destruct (MAX_FRAMES_FOR_FEEDBACK <? length (buf ++ [b]))%nat; cbn;
      repeat split.
Qed.

Lemma lastN_all {A : Type} (n : nat) (l : list A) :
  (length l <= n)%nat -> lastN n l = l.
Proof.
  intros H. unfold lastN. replace (length l - n)%nat with 0%nat by lia.
  reflexivity.
Qed.

Lemma lastN_length {A : Type} (n : nat) (l : list A) :
  (length (lastN n l) <= n)%nat.
Proof. unfold lastN. rewrite length_skipn. lia. Qed.

Lemma lastN_app {A : Type} (n : nat) (l m : list A) :
  lastN n (lastN n l ++ m) = lastN n (l ++ m).
Proof.
  unfold lastN. rewrite !length_app, length_skipn.
  rewrite !skipn_app, length_skipn, skipn_skipn.
  f_equal; f_equal; lia.
Qed.

Lemma push_then_shift {A : Type} (buf : list A) (b : A) :
  (length buf <= MAX_FRAMES_FOR_FEEDBACK)%nat ->
  (let l := buf ++ [b] in
   if (MAX_FRAMES_FOR_FEEDBACK <? length l)%nat then tl l else l)
  = lastN MAX_FRAMES_FOR_FEEDBACK (buf ++ [b]).
Proof.
  intros H. cbn zeta.
  destruct (MAX_FRAMES_FOR_FEEDBACK <? length (buf ++ [b]))%nat eqn:E.
  - apply Nat.ltb_lt in E. rewrite length_app in E. cbn [length] in E.
    unfold lastN. rewrite length_app. cbn [length].
    replace (length buf + 1 - MAX_FRAMES_FOR_FEEDBACK)%nat with 1%nat by lia.
    destruct (buf ++ [b]); reflexivity.
  - apply Nat.ltb_ge in E. symmetry. apply lastN_all. exact E.
Qed.

Lemma retains_elapsed ev s :
  retains ev s = true ->
  FRAME_CAPTURE_INTERVAL <= arrivedAt ev - lastFrameCaptureTimeRef (frames s).
Proof.
  unfold retains. destruct (sessionRef (connection s)); [|discriminate].
  intros H. apply andb_true_iff in H. destruct H as (_ & H).
  apply Z.leb_le. exact H.
Qed.

(** C5. Start the sampler with at most [MAX_FRAMES_FOR_FEEDBACK] frames in
    the buffer (it is empty when a session starts) and let any sequence of
    frames arrive.  A frame is retained only when at least
    [FRAME_CAPTURE_INTERVAL] milliseconds have passed since the last
    retention; the buffer holds the last [MAX_FRAMES_FOR_FEEDBACK] of the
    frames it held and retained since, in the order they were retained, so
    never more than [MAX_FRAMES_FOR_FEEDBACK]; and the sampler never
    throws. *)
Theorem frame_buffer_keeps_last_retained (evs : list FrameEvent) (s : State) :
  (length (capturedFramesRef (frames s)) <= MAX_FRAMES_FOR_FEEDBACK)%nat ->
  let r := runFrames evs s in
  let kept := retentions evs s in
  completion r = Normal
  /\ spaced (lastFrameCaptureTimeRef (frames s)) (map fst kept)
  /\ capturedFramesRef (frames (state r))
     = lastN MAX_FRAMES_FOR_FEEDBACK
         (capturedFramesRef (frames s) ++ map snd kept)
  /\ (length (capturedFramesRef (frames (state r)))
      <= MAX_FRAMES_FOR_FEEDBACK)%nat.
Proof.
  revert s. induction evs as [|ev rest IH]; intros s Hlen; cbn zeta.
  - unfold runFrames. cbn [forEach retentions map skip completion state spaced].
    rewrite app_nil_r, (lastN_all _ _ Hlen). auto.
  - destruct (handleFrame_step ev s) as (Hc & Hp & Hf). cbn zeta in Hf.
    unfold runFrames. cbn [forEach retentions].
    rewrite seq_normal by exact Hc. cbn [completion state].
    fold (runFrames rest). rewrite Hp.
    set (s1 := state (handleFrameEvent ev s)) in *.
    destruct (retains ev s) eqn:Hr.
    + rewrite (push_then_shift _ _ Hlen) in Hf.
      assert (Hlen1 : (length (capturedFramesRef (frames s1))
                       <= MAX_FRAMES_FOR_FEEDBACK)%nat)
        by (rewrite Hf; apply lastN_length).
      destruct (IH s1 Hlen1) as (C & S & B & L). cbn zeta in *.
      rewrite Hf in S, B. cbn [lastFrameCaptureTimeRef capturedFramesRef] in S, B.
      split; [exact C|]. split; [|split; [|exact L]].
      * cbn. split; [apply retains_elapsed; exact Hr | exact S].
      * rewrite B. cbn [app map snd]. rewrite lastN_app, <- app_assoc.
        reflexivity.
    + assert (Hlen1 : (length (capturedFramesRef (frames s1))
                       <= MAX_FRAMES_FOR_FEEDBACK)%nat)
        by (rewrite Hf; exact Hlen).
      destruct (IH s1 Hlen1) as (C & S & B & L). cbn zeta in *.
      rewrite Hf in S, B. auto.
Qed.

Lemma frame_buffer_keeps_last_retained_witness :
  capturedFramesRef (frames (state (runFrames (everySecond 66 5) openState)))
  = [[15]; [20]; [25]; [30]; [35]; [40]; [45]; [50]; [55]; [60]; [65]; [70]]
  /\ map fst (retentions (everySecond 66 5) openState)
     = [5000; 10000; 15000; 20000; 25000; 30000; 35000; 40000; 45000; 50000;
        55000; 60000; 65000; 70000].
Proof.
  pose proof (frame_buffer_keeps_last_retained (everySecond 66 5) openState)
    as H.
  cbn zeta in H. destruct H as (_ & _ & B & _).
  - vm_compute. lia.
  - split; [rewrite B|]; vm_compute; reflexivity.
Defined.

(** ** The playback schedule *)

Lemma started_app tr1 tr2 : started (tr1 ++ tr2) = started tr1 ++ started tr2.
Proof. unfold started. apply flat_map_app. Qed.

Lemma started_displayOnly tr : displayOnly tr -> started tr = [].
Proof.
  induction 1 as [|a tr Ha _ IH]; [reflexivity|].
  destruct a; try discriminate Ha; exact IH.
Qed.

Lemma handleMessage_without_interrupt env msg s :
  interruptedOf msg = false ->
  let r := handleMessage env msg s in
  completion r = Normal
  /\ playback (state r) = playback (state (handleAudioOutput env msg s))
  /\ started (trace r) = started (trace (handleAudioOutput env msg s)).
Proof.
  intros Hi. cbn zeta. rewrite handleMessage_of_body.
  destruct (completion (handleAudioOutput env msg s)) as [|e] eqn:Ha.
  - destruct (handleMessageBody_normal env msg s Ha) as (Hc & Hs).
    destruct (handleMessageBody_trace_prefix env msg s Ha) as (rest & Ht & Hd).
    rewrite Hc, Hs, Ht, afterAudio_playback, handleInterruptions_run, Hi.
    cbn [state trace app]. rewrite started_app, (started_displayOnly rest Hd).
    rewrite app_nil_r. auto.
  - rewrite (handleMessageBody_abrupt env msg s e Ha), Ha. cbn [completion state trace].
    rewrite started_app. cbn. rewrite app_nil_r. auto.
Qed.

Lemma decodedChunk_duration d b :
  decodedChunk d = Some b -> (0 <= AudioProcessing.duration b)%Q.
Proof.
  unfold decodedChunk, AudioProcessing.decodeAudioData.
  destruct (AudioProcessing.decode d) as [bytes|]; [|discriminate].
  destruct (AudioProcessing.int16OfBytes bytes) as [ints|]; [|discriminate].
  destruct (_ || _); [discriminate|]. intros [= <-].
  unfold AudioProcessing.duration, Double.div.
  cbn [AudioProcessing.frameCount AudioProcessing.sampleRate].
  apply DoubleFacts.round64_nonneg.
  apply Qle_shift_div_l; [reflexivity|]. rewrite Qmult_0_l.
  unfold Qle. cbn. lia.
Qed.

Lemma timeValue_max a b : timeValue a -> timeValue b -> timeValue (Qmax a b).
Proof.
  intros Ha Hb. unfold Qmax, GenericMinMax.gmax.
  destruct (a ?= b)%Q; assumption.
Qed.

Lemma timeValue_add a d : timeValue a -> (0 <= d)%Q -> timeValue (Double.add a d).
Proof.
  intros (Ha & _) Hd. unfold Double.add. split.
  - apply DoubleFacts.round64_nonneg. lra.
  - apply DoubleFacts.isDouble_round64. lra.
Qed.

Lemma timeValue_le_add a d :
  timeValue a -> (0 <= d)%Q -> (a <= Double.add a d)%Q.
Proof.
  intros (Ha & Hx) Hd.
  apply DoubleFacts.add_ge; [exact Ha | apply DoubleFacts.isDouble_fixed, Hx | exact Hd].
Qed.

Lemma setAdd_has x l : existsb (sameSource x) (setAdd x l) = true.
Proof.
  unfold setAdd. destruct (existsb (sameSource x) l) eqn:E; [exact E|].
  rewrite existsb_app. cbn. unfold sameSource at 2. rewrite Nat.eqb_refl.
  apply orb_true_r.
Qed.

(** What one message without the interrupted signal does to the schedule:
    either it starts nothing and the cursor does not move back, or it starts
    one source, not before the cursor, and the cursor becomes its end,
    rounded. *)
Lemma schedule_step env msg s :
  interruptedOf msg = false ->
  timeValue (currentTime env) ->
  timeValue (nextStartTimeRef (playback s)) ->
  let r := handleMessage env msg s in
  timeValue (nextStartTimeRef (playback (state r)))
  /\ ((started (trace r) = []
       /\ (nextStartTimeRef (playback s)
           <= nextStartTimeRef (playback (state r)))%Q)
      \/ (exists src,
            started (trace r) = [src]
            /\ (nextStartTimeRef (playback s) <= startedAt src)%Q
            /\ (startedAt src
                <= Double.add (startedAt src) (bufferDuration src))%Q
            /\ nextStartTimeRef (playback (state r))
               = Double.add (startedAt src) (bufferDuration src))).
Proof.
  intros Hi Hclock Hcur. cbn zeta.
  destruct (handleMessage_without_interrupt env msg s Hi) as (_ & -> & ->).
  pose proof (timeValue_max _ _ Hcur Hclock) as Hmax.
  destruct (audioOf msg) as [d|] eqn:Ha.
  - destruct (outputAudioContextRef (playback s)) as [ctx|] eqn:Hc.
    + destruct (decodedChunk d) as [b|] eqn:Hd.
      * rewrite (handleAudioOutput_enqueues env msg s d ctx b Ha Hc Hd).
        pose proof (decodedChunk_duration d b Hd) as Hdur.
        cbn. split; [apply timeValue_add; assumption|].
        right. exists (scheduled env b (playback s)). cbn.
        repeat split.
        -- apply Q.le_max_l.
        -- apply timeValue_le_add; assumption.
      * destruct (handleAudioOutput_throws env msg s d ctx Ha Hc Hd) as [e ->].
        cbn. split; [exact Hmax|].
        left. split; [reflexivity | apply Q.le_max_l].
    + rewrite (handleAudioOutput_no_context env msg s d Ha Hc).
      cbn. split; [exact Hcur|].
      left. split; [reflexivity | apply Qle_refl].
  - rewrite (handleAudioOutput_none env msg s Ha).
    cbn. split; [exact Hcur|].
    left. split; [reflexivity | apply Qle_refl].
Qed.

Lemma followsCursor_ascending c l :
  followsCursor c l ->
  Forall (fun src =>
            (startedAt src
             <= Double.add (startedAt src) (bufferDuration src))%Q) l ->
  ascending (map startedAt l).
Proof.
  revert c. induction l as [|a l IH]; intros c; [cbn; auto|].
  intros (_ & Hg) Hd. inversion Hd as [|? ? Ha Hl]; subst.
  destruct l as [|b l]; [cbn; auto|].
  cbn [map ascending]. split.
  - destruct Hg as (Hab & _). eapply Qle_trans; eassumption.
  - apply (IH _ Hg Hl).
Qed.

Lemma runMessages_schedule evs : forall s c,
  Forall (fun ev => interruptedOf (snd ev) = false) evs ->
  Forall (fun ev => timeValue (currentTime (fst ev))) evs ->
  timeValue (nextStartTimeRef (playback s)) ->
  (c <= nextStartTimeRef (playback s))%Q ->
  let r := runMessages evs s in
  completion r = Normal
  /\ followsCursor c (started (trace r))
  /\ Forall (fun src =>
               (startedAt src
                <= Double.add (startedAt src) (bufferDuration src))%Q)
       (started (trace r)).
Proof.
  induction evs as [|[env msg] evs IH]; intros s c Hall Hclocks Hcur Hc;
    cbn zeta.
  - cbn. auto.
  - inversion Hall as [|? ? Hi Hrest]; subst. cbn [snd] in Hi.
    inversion Hclocks as [|? ? Hk Hks]; subst. cbn [fst] in Hk.
    unfold runMessages. cbn [forEach fst snd]. fold (runMessages evs).
    destruct (handleMessage_without_interrupt env msg s Hi) as (Hn & _).
    rewrite seq_normal by exact Hn. cbn [completion trace].
    rewrite started_app.
    destruct (schedule_step env msg s Hi Hk Hcur)
      as (Hcur' & [(-> & Hle) | (src & -> & Hs & Hd & Hnext)]).
    + destruct (IH (state (handleMessage env msg s)) c Hrest Hks Hcur')
        as (C & G & D).
      { eapply Qle_trans; eassumption. }
      cbn [app]. auto.
    + destruct (IH (state (handleMessage env msg s))
                  (Double.add (startedAt src) (bufferDuration src))
                  Hrest Hks Hcur') as (C & G & D).
      { rewrite Hnext. apply Qle_refl. }
      cbn [app followsCursor]. repeat split; auto.
      eapply Qle_trans; eassumption.
Qed.

(** C2, as stated, does not hold: the cursor is moved by a sum of doubles,
    which is rounded.  Two chunks of three frames arrive at clock time 5.
    The first starts at 5 and lasts [3 / 24000] as a double; the cursor it
    leaves, and so the start of the second, is the double nearest to their
    sum, which lies below the sum.  So the cursor has not advanced by exactly
    the duration, and the second chunk starts before the first start plus the
    first duration. *)
Lemma cursor_advance_is_rounded :
  ~ (forall (env : Env) (msg : Msg.LiveServerMessage) (s : State)
            (d : JsString) (b : AudioProcessing.AudioBuffer),
       audioOf msg = Some d ->
       decodedChunk d = Some b ->
       outputAudioContextRef (playback s) <> None ->
       interruptedOf msg = false ->
       timeValue (currentTime env) ->
       timeValue (nextStartTimeRef (playback s)) ->
       let src := scheduled env b (playback s) in
       (nextStartTimeRef (playback (state (handleMessage env msg s)))
        == startedAt src + bufferDuration src)%Q)
  /\ ~ (forall (evs : list (Env * Msg.LiveServerMessage)) (s : State),
          Forall (fun ev => interruptedOf (snd ev) = false) evs ->
          Forall (fun ev => timeValue (currentTime (fst ev))) evs ->
          timeValue (nextStartTimeRef (playback s)) ->
          gapFree (nextStartTimeRef (playback s))
            (started (trace (runMessages evs s)))).
Proof.
  assert (Hclock : timeValue 5)
    by (split; vm_compute; (reflexivity || discriminate)).
  assert (Hcursor : timeValue 0)
    by (split; vm_compute; (reflexivity || discriminate)).
  split.
  - intros H.
    pose proof (H (fst (chunkAt 5)) (snd (chunkAt 5)) openState silence3
                  (silentBuffer 3) eq_refl eq_refl ltac:(discriminate)
                  eq_refl Hclock Hcursor) as E.
    vm_compute in E. discriminate E.
  - intros H.
    assert (G : gapFree 0
              (started (trace (runMessages [chunkAt 5; chunkAt 5] openState)))).
    { apply (H [chunkAt 5; chunkAt 5] openState).
      - repeat constructor.
      - repeat constructor; vm_compute; (reflexivity || discriminate).
      - exact Hcursor. }
    vm_compute in G. destruct G as (_ & G & _). apply G. reflexivity.
Qed.

(** C2, amended.  One enqueue: a message whose audio payload decodes,
    arriving while the output context exists and without the interrupted
    signal, starts exactly one source; its start time is the larger of the
    cursor and the current clock time, so neither before the cursor nor in
    the past; the source is in the live set, and the cursor then stands at
    the double nearest to that start plus the duration of the chunk -- the
    sum as the code computes it, which need not be the exact one.  Any
    sequence of messages without the interrupted signal, the clock and the
    cursor showing times (doubles that are not negative): each source starts
    no earlier than the cursor the one before left, and the start times do
    not decrease. *)
Theorem playback_schedule_follows_cursor :
  (forall (env : Env) (msg : Msg.LiveServerMessage) (s : State)
          (d : JsString) (b : AudioProcessing.AudioBuffer),
      audioOf msg = Some d ->
      decodedChunk d = Some b ->
      outputAudioContextRef (playback s) <> None ->
      interruptedOf msg = false ->
      let r := handleMessage env msg s in
      let src := scheduled env b (playback s) in
      started (trace r) = [src]
      /\ startedAt src
         = Qmax (nextStartTimeRef (playback s)) (currentTime env)
      /\ (currentTime env <= startedAt src)%Q
      /\ (nextStartTimeRef (playback s) <= startedAt src)%Q
      /\ bufferDuration src = AudioProcessing.duration b
      /\ nextStartTimeRef (playback (state r))
         = Double.add (startedAt src) (bufferDuration src)
      /\ existsb (sameSource src) (sourcesRef (playback (state r))) = true)
  /\ (forall (evs : list (Env * Msg.LiveServerMessage)) (s : State),
      Forall (fun ev => interruptedOf (snd ev) = false) evs ->
      Forall (fun ev => timeValue (currentTime (fst ev))) evs ->
      timeValue (nextStartTimeRef (playback s)) ->
      let r := runMessages evs s in
      completion r = Normal
      /\ followsCursor (nextStartTimeRef (playback s)) (started (trace r))
      /\ ascending (map startedAt (started (trace r)))).
Proof.
  split.
  - intros env msg s d b Ha Hd Hc Hi. cbn zeta.
    destruct (handleMessage_without_interrupt env msg s Hi) as (_ & -> & ->).
    destruct (outputAudioContextRef (playback s)) as [ctx|] eqn:Hctx;
      [|contradiction].
    rewrite (handleAudioOutput_enqueues env msg s d ctx b Ha Hctx Hd). cbn.
    repeat split.
    + apply Q.le_max_r.
    + apply Q.le_max_l.
    + apply setAdd_has.
  - intros evs s Hall Hclocks Hcur. cbn zeta.
    destruct (runMessages_schedule evs s (nextStartTimeRef (playback s))
                Hall Hclocks Hcur) as (C & G & D); [apply Qle_refl|].
    repeat split; auto. eapply followsCursor_ascending; eassumption.
Qed.

Lemma playback_schedule_follows_cursor_witness :
  started (trace (handleMessage (fst (chunkAt 5)) (snd (chunkAt 5)) openState))
  = [mkSource 0 5 (Double.div 3 24000) None]
  /\ map Qred (map startedAt
       (started (trace (runMessages [chunkAt 5; chunkAt 5; chunkAt 9]
                          openState))))
     = [5; 5629640271701475 # 1125899906842624; 9]%Q
  /\ ascending (map startedAt
       (started (trace (runMessages [chunkAt 5; chunkAt 5; chunkAt 9]
                          openState)))).
Proof.
  destruct playback_schedule_follows_cursor as (H1 & H2).
  split.
  - apply (H1 (fst (chunkAt 5)) (snd (chunkAt 5)) openState silence3
             (silentBuffer 3) eq_refl eq_refl ltac:(discriminate) eq_refl).
  - specialize (H2 [chunkAt 5; chunkAt 5; chunkAt 9] openState).
    cbn zeta in H2. destruct H2 as (_ & _ & A).
    + repeat constructor.
    + repeat constructor; vm_compute; (reflexivity || discriminate).
    + vm_compute. split; [discriminate | reflexivity].
    + split; [vm_compute; reflexivity | exact A].
Defined.

(** ** The speaking signal *)

Lemma setAdd_not_empty x l : (length (setAdd x l) =? 0)%nat = false.
Proof.
  pose proof (setAdd_has x l) as H.
  destruct (setAdd x l); [discriminate H | reflexivity].
Qed.

(** Messages whose audio part, if any, is enqueued keep the speaking signal
    in step with the live set. *)
Lemma handleMessage_keeps_speaking env msg s :
  speakingMatches s ->
  (audioOf msg = None
   \/ exists d ctx b, audioOf msg = Some d
        /\ outputAudioContextRef (playback s) = Some ctx
        /\ decodedChunk d = Some b) ->
  speakingMatches (state (handleMessage env msg s)).
Proof.
  intros Hinv Haudio. unfold speakingMatches in *.
  assert (Hn : completion (handleAudioOutput env msg s) = Normal).
  { destruct Haudio as [Ha | (d & ctx & b & Ha & Hc & Hd)].
    - rewrite (handleAudioOutput_none env msg s Ha). reflexivity.
    - rewrite (handleAudioOutput_enqueues env msg s d ctx b Ha Hc Hd).
      reflexivity. }
  destruct (interruptedOf msg) eqn:Hi.
  - destruct (handleMessage_with_interrupt env msg s Hi Hn) as (-> & _ & ->).
    reflexivity.
  - destruct (handleMessage_without_interrupt env msg s Hi) as (_ & -> & _).
    destruct Haudio as [Ha | (d & ctx & b & Ha & Hc & Hd)].
    + rewrite (handleAudioOutput_none env msg s Ha). exact Hinv.
    + rewrite (handleAudioOutput_enqueues env msg s d ctx b Ha Hc Hd). cbn.
      rewrite setAdd_not_empty. reflexivity.
Qed.

(** The end of a source keeps them in step, and turns the signal off exactly
    when the set becomes empty. *)
Lemma onended_keeps_speaking src s :
  speakingMatches s -> speakingMatches (state (onended src s)).
Proof.
  unfold speakingMatches, onended, seq, get, update, when, setIsSpeaking, skip.
  cbn. intros Hinv.
  destruct (length (setDelete src (sourcesRef (playback s))) =? 0)%nat eqn:E;
    cbn; rewrite E; [reflexivity|].
  rewrite Hinv. cbn.
  destruct (sourcesRef (playback s)); [discriminate E | reflexivity].
Qed.

Lemma stopSession_keeps_speaking tr s :
  speakingMatches (state (stopSession tr s)).
Proof. rewrite stopSession_run. reflexivity. Qed.

(** C4 fails on the code: an audio payload that does not decode turns the
    speaking signal on and enqueues nothing.  In an open session with no
    active source and the signal off, a message whose payload is not base64,
    or holds an odd number of bytes, is handled without an exception reaching
    the caller, and leaves the signal on while the set is still empty; the
    messages that follow do not repair it. *)
Theorem undecodable_audio_leaves_speaking_on :
  let r := handleMessage sampleEnv undecodable openState in
  let r' := handleMessage sampleEnv truncated openState in
  speakingMatches openState
  /\ completion r = Normal
  /\ isSpeaking (playback (state r)) = true
  /\ sourcesRef (playback (state r)) = []
  /\ ~ speakingMatches (state r)
  /\ ~ speakingMatches
         (state (handleMessage sampleEnv
                   (contentMessage None false (Some (lit "hello")) None true)
                   (state r)))
  /\ completion r' = Normal
  /\ isSpeaking (playback (state r')) = true
  /\ sourcesRef (playback (state r')) = [].
Proof.
  cbn zeta. repeat split; try reflexivity; intros H; discriminate H.
Qed.

(** ** The PCM codec: transport and quantization *)

Lemma list_ind3 {A : Type} (P : list A -> Prop) :
  P [] -> (forall a, P [a]) -> (forall a b, P [a; b]) ->
  (forall a b c l, P l -> P (a :: b :: c :: l)) ->
  forall l, P l.
Proof.
  intros H0 H1 H2 H3.
  refine (fix F (l : list A) : P l :=
            match l with
            | [] => H0
            | [a] => H1 a
            | [a; b] => H2 a b
            | a :: b :: c :: r => H3 a b c r (F r)
            end).
Qed.

Lemma sextetOfChar_charOfSextet n :
  isSextet n -> sextetOfChar (charOfSextet n) = Some n.
Proof.
  unfold isSextet, charOfSextet. intros H.
  destruct (n <? 26) eqn:?; [|destruct (n <? 52) eqn:?;
    [|destruct (n <? 62) eqn:?; [|destruct (n =? 62) eqn:?]]];
    unfold sextetOfChar; by_cases; f_equal; lia.
Qed.

Lemma charOfSextet_plain n :
  isSextet n ->
  isAsciiWhitespace (charOfSextet n) = false /\ charOfSextet n <> padChar.
Proof.
  unfold isSextet, isAsciiWhitespace, charOfSextet, padChar. intros H.
  cbn [existsb].
  destruct (n <? 26) eqn:?; [|destruct (n <? 52) eqn:?;
    [|destruct (n <? 62) eqn:?; [|destruct (n =? 62) eqn:?]]];
    split_bools; (split; [|lia]); rewrite !orb_false_r;
    repeat (apply orb_false_iff; split); apply Z.eqb_neq; lia.
Qed.

Lemma sextetsOfBytes_range bs :
  Forall isByte bs -> Forall isSextet (sextetsOfBytes bs).
Proof.
  unfold isByte, isSextet.
  induction bs as [|a|a b|a b c l IH] using list_ind3; intros H;
    repeat match goal with
    | H : Forall _ (_ :: _) |- _ => inversion H; clear H; subst
    end; cbn [sextetsOfBytes]; repeat constructor;
    try (Z.div_mod_to_equations; lia).
  auto.
Qed.

Lemma bytesOfSextets_sextetsOfBytes bs :
  Forall isByte bs -> bytesOfSextets (sextetsOfBytes bs) = Some bs.
Proof.
  unfold isByte.
  induction bs as [|a|a b|a b c l IH] using list_ind3; intros H;
    repeat match goal with
    | H : Forall _ (_ :: _) |- _ => inversion H; clear H; subst
    end; cbn [sextetsOfBytes bytesOfSextets].
  - reflexivity.
  - do 2 f_equal. Z.div_mod_to_equations; lia.
  - do 2 f_equal; [|f_equal]; Z.div_mod_to_equations; lia.
  - rewrite IH by assumption.
    do 2 f_equal; [|f_equal; [|f_equal]]; Z.div_mod_to_equations; lia.
Qed.

Lemma sextetsOfChars_chars ns :
  Forall isSextet ns -> sextetsOfChars (map charOfSextet ns) = Some ns.
Proof.
  induction 1 as [|n ns Hn _ IH]; [reflexivity|].
  cbn [map sextetsOfChars]. rewrite (sextetOfChar_charOfSextet n Hn), IH.
  reflexivity.
Qed.
Lemma padding_step n : padding (S (S (S n))) = padding n.
Proof.
  unfold padding. replace (S (S (S n))) with (n + 1 * 3)%nat by lia.
  rewrite Nat.Div0.mod_add. reflexivity.
Qed.

Lemma padding_cases n :
  padding n = [] \/ padding n = [padChar] \/ padding n = [padChar; padChar].
Proof.
  unfold padding. destruct (n mod 3)%nat as [|[|[|k]]]; auto.
Qed.

Lemma encode_length bs :
  ((length (sextetsOfBytes bs) + length (padding (length bs))) mod 4 = 0)%nat.
Proof.
  induction bs as [|a|a b|a b c l IH] using list_ind3; try reflexivity.
  cbn [length sextetsOfBytes]. rewrite padding_step.
  replace (S (S (S (S (length (sextetsOfBytes l))))) + length (padding (length l)))%nat
    with ((length (sextetsOfBytes l) + length (padding (length l))) + 1 * 4)%nat
    by lia.
  rewrite Nat.Div0.mod_add. exact IH.
Qed.

Lemma filter_all {A : Type} (f : A -> bool) (l : list A) :
  Forall (fun x => f x = true) l -> filter f l = l.
Proof.
  induction 1 as [|x l Hx _ IH]; [reflexivity|].
  cbn [filter]. rewrite Hx, IH. reflexivity.
Qed.

Lemma stripPadding_padded (body pad : JsString) :
  Forall (fun c => c <> padChar) body ->
  pad = [] \/ pad = [padChar] \/ pad = [padChar; padChar] ->
  ((length body + length pad) mod 4 = 0)%nat ->
  stripPadding (body ++ pad) = body.
Proof.
  intros Hbody Hpad Hlen. unfold stripPadding.
  rewrite length_app, Hlen. cbn [Nat.eqb]. rewrite rev_app_distr.
  destruct Hpad as [-> | [-> | ->]]; cbn [rev app].
  - rewrite app_nil_r.
    destruct (rev body) as [|p [|q r]] eqn:E; try reflexivity.
    assert (Hp : p <> padChar).
    { apply (proj1 (Forall_forall _ _) Hbody). apply in_rev. rewrite E.
      left. reflexivity. }
    apply Z.eqb_neq in Hp. rewrite Hp. reflexivity.
  - destruct (rev body) as [|q r] eqn:E.
    + apply (f_equal (@rev Z)) in E. rewrite rev_involutive in E. subst body.
      discriminate Hlen.
    + rewrite Z.eqb_refl.
      assert (Hq : q <> padChar).
      { apply (proj1 (Forall_forall _ _) Hbody). apply in_rev. rewrite E.
        left. reflexivity. }
      apply Z.eqb_neq in Hq. rewrite Hq.
      change (rev r ++ [q]) with (rev (q :: r)). rewrite <- E.
      apply rev_involutive.
  - rewrite !Z.eqb_refl. apply rev_involutive.
Qed.

(** Decoding undoes encoding. *)
Lemma decode_encode bs : Forall isByte bs -> decode (encode bs) = Some bs.
Proof.
  intros Hb. unfold decode, encode.
  pose proof (sextetsOfBytes_range bs Hb) as Hs.
  assert (Hplain : Forall (fun c => negb (isAsciiWhitespace c) = true)
                     (map charOfSextet (sextetsOfBytes bs))).
  { apply Forall_map. revert Hs. apply Forall_impl. intros n Hn.
    rewrite (proj1 (charOfSextet_plain n Hn)). reflexivity. }
  assert (Hpad : Forall (fun c => negb (isAsciiWhitespace c) = true)
                   (padding (length bs))).
  { destruct (padding_cases (length bs)) as [-> | [-> | ->]];
      repeat constructor. }
  rewrite filter_all by (apply Forall_app; split; assumption).
  rewrite stripPadding_padded.
  - rewrite (sextetsOfChars_chars _ Hs).
    apply bytesOfSextets_sextetsOfBytes. exact Hb.
  - apply Forall_map. revert Hs. apply Forall_impl. intros n Hn.
    apply (charOfSextet_plain n Hn).
  - apply padding_cases.
  - rewrite length_map. apply encode_length.
Qed.

Lemma int16Bytes_range v : Forall isByte (int16Bytes v).
Proof.
  unfold int16Bytes, isByte. repeat constructor;
    Z.div_mod_to_equations; lia.
Qed.

Lemma int16OfBytes_int16Bytes vs :
  Forall isInt16 vs -> int16OfBytes (flat_map int16Bytes vs) = Some vs.
Proof.
  induction 1 as [|v vs Hv _ IH]; [reflexivity|].
  cbn [flat_map int16Bytes app int16OfBytes]. rewrite IH.
  do 2 f_equal. unfold isInt16 in Hv.
  destruct (32768 <=? v mod 65536 mod 256 + 256 * (v mod 65536 / 256)) eqn:E;
    split_bools; Z.div_mod_to_equations; lia.
Qed.

Lemma flat_map_bytes vs : Forall isByte (flat_map int16Bytes vs).
Proof.
  induction vs as [|v vs IH]; [constructor|].
  cbn [flat_map]. apply Forall_app. split; [apply int16Bytes_range | exact IH].
Qed.

Lemma clamp_range x : (-1 <= clamp x <= 1)%Q.
Proof.
  unfold clamp. split.
  - apply Q.le_max_l.
  - apply Q.max_lub; [discriminate | apply Q.le_min_l].
Qed.

Lemma toInt16_small q :
  isInt16 (truncate q) -> toInt16 q = truncate q.
Proof.
  unfold isInt16, toInt16. intros H. cbn zeta.
  destruct (32768 <=? truncate q mod 65536) eqn:E; split_bools;
    Z.div_mod_to_equations; lia.
Qed.

Lemma Qle_bool_false x y : Qle_bool x y = false -> (y < x)%Q.
Proof.
  intros H. apply Qnot_le_lt. intros Hle.
  apply Qle_bool_iff in Hle. congruence.
Qed.

(** The 16-bit sample a float is stored as: always in range, never further
    from zero than the clamped float, less than one step below a clamped
    float scaled by [0x8000], less than two steps below one scaled by
    [0x7FFF]. *)
Lemma floatTo16BitPCM_bounds x :
  let v := floatTo16BitPCM x in
  let y := (inject_Z v / 32768)%Q in
  isInt16 v
  /\ ((0 <= clamp x -> 0 <= y /\ y <= clamp x /\ clamp x - y < 2 * QUANTUM)
      /\ (clamp x < 0 -> clamp x <= y /\ y <= 0 /\ y - clamp x < QUANTUM))%Q.
Proof.
  cbn zeta. unfold floatTo16BitPCM. cbn zeta.
  destruct (clamp_range x) as (Hlo & Hhi). set (s := clamp x) in *.
  destruct (Qle_bool 0 s) eqn:Hs.
  - apply Qle_bool_iff in Hs.
    assert (Hq : Qle_bool 0 (s * 32767) = true) by (apply Qle_bool_iff; lra).
    assert (Ht : truncate (s * 32767) = Qfloor (s * 32767))
      by (unfold truncate; rewrite Hq; reflexivity).
    pose proof (Qfloor_le (s * 32767)) as Hfl.
    pose proof (Qlt_floor (s * 32767)) as Hfu.
    rewrite inject_Z_plus in Hfu.
    assert (Hr : isInt16 (Qfloor (s * 32767))).
    { unfold isInt16. split.
      - assert (0 <= Qfloor (s * 32767))%Z; [|lia].
        change 0%Z with (Qfloor 0). apply Qfloor_resp_le. lra.
      - rewrite Zle_Qle. change (inject_Z 32767) with 32767%Q. lra. }
    rewrite toInt16_small by (rewrite Ht; exact Hr). rewrite Ht.
    split; [exact Hr|]. split; [|intros; lra]. intros _.
    change (inject_Z 1) with 1%Q in Hfu. unfold QUANTUM.
    assert (Hy : (inject_Z (Qfloor (s * 32767)) / 32768
                  == inject_Z (Qfloor (s * 32767)) * (1 # 32768))%Q)
      by reflexivity.
    assert (H0 : (0 <= inject_Z (Qfloor (s * 32767)))%Q).
    { change 0%Q with (inject_Z 0). rewrite <- Zle_Qle.
      change 0%Z with (Qfloor 0). apply Qfloor_resp_le. lra. }
    rewrite Hy. repeat split; lra.
  - apply Qle_bool_false in Hs.
    assert (Hq : Qle_bool 0 (s * 32768) = false).
    { destruct (Qle_bool 0 (s * 32768)) eqn:E; [|reflexivity].
      apply Qle_bool_iff in E. lra. }
    assert (Ht : truncate (s * 32768) = Qceiling (s * 32768))
      by (unfold truncate; rewrite Hq; reflexivity).
    pose proof (Qle_ceiling (s * 32768)) as Hcl.
    pose proof (Qceiling_lt (s * 32768)) as Hcu.
    unfold Z.sub in Hcu. rewrite inject_Z_plus in Hcu.
    change (inject_Z (- (1))) with (-1)%Q in Hcu.
    assert (H0 : (inject_Z (Qceiling (s * 32768)) <= 0)%Q).
    { change 0%Q with (inject_Z 0). rewrite <- Zle_Qle.
      change 0%Z with (Qceiling 0). apply Qceiling_resp_le. lra. }
    assert (Hr : isInt16 (Qceiling (s * 32768))).
    { unfold isInt16. split.
      - rewrite Zle_Qle. change (inject_Z (-32768)) with (-32768)%Q. lra.
      - assert (Qceiling (s * 32768) <= 0)%Z; [|lia].
        rewrite Zle_Qle. exact H0. }
    rewrite toInt16_small by (rewrite Ht; exact Hr). rewrite Ht.
    split; [exact Hr|]. split; [intros; lra|]. intros _. unfold QUANTUM.
    assert (Hy : (inject_Z (Qceiling (s * 32768)) / 32768
                  == inject_Z (Qceiling (s * 32768)) * (1 # 32768))%Q)
      by reflexivity.
    rewrite Hy. repeat split; lra.
Qed.
Lemma map_nth_seq {A B : Type} (g : A -> B) (d : A) (l : list A) :
  map (fun i => g (nth i l d)) (List.seq 0 (length l)) = map g l.
Proof.
  induction l as [|a l IH]; [reflexivity|].
  cbn [length List.seq map nth]. f_equal.
  rewrite <- seq_shift, map_map. exact IH.
Qed.

Lemma decodeAudioData_mono vs rate :
  Forall isInt16 vs ->
  decodeAudioData (flat_map int16Bytes vs) rate 1
  = Some (mkAudioBuffer [map (fun v => (inject_Z v / 32768)%Q) vs] rate
            (length vs)).
Proof.
  intros H. unfold decodeAudioData. rewrite (int16OfBytes_int16Bytes vs H).
  rewrite Nat.mod_1_r, Nat.div_1_r. cbn [Nat.eqb orb negb List.seq map].
  do 3 f_equal.
  rewrite <- (map_nth_seq (fun v => (inject_Z v / 32768)%Q) 0%Z vs).
  apply map_ext. intros i. rewrite Nat.mul_1_r, Nat.add_0_r. reflexivity.
Qed.

Lemma reconstruct_run xs :
  reconstruct xs
  = Some (map (fun x => (inject_Z (floatTo16BitPCM x) / 32768)%Q) xs).
Proof.
  unfold reconstruct, createPcmBlob. cbn [data].
  rewrite decode_encode by apply flat_map_bytes.
  rewrite decodeAudioData_mono.
  - cbn [channelData nth_error]. rewrite map_map. reflexivity.
  - apply Forall_map, Forall_forall. intros x _.
    apply (floatTo16BitPCM_bounds x).
Qed.

(** C6, as stated, does not hold for the codec as the specification describes
    it: the sample 65535/65536, just below full scale, is stored as 32766 and
    read back as 32766/32768, one and a half steps away. *)
Lemma full_scale_sample_off_by_more_than_a_step :
  ~ (forall xs : list Q,
       exists ys, reconstruct xs = Some ys /\ Forall2 (withinSteps 1) xs ys).
Proof.
  intros H. destruct (H [65535 # 65536]%Q) as (ys & Hr & Hw).
  vm_compute in Hr. injection Hr as <-.
  inversion Hw as [|? ? ? ? Hstep _]; subst.
  vm_compute in Hstep. apply Hstep. reflexivity.
Qed.

(** C6, amended.  Decoding the encoding of any array of samples succeeds
    and gives back as many samples, each less than two quantization steps
    from the original clamped to [-1, 1]. *)
Theorem decode_encode_within_two_steps (xs : list Q) :
  exists ys,
    reconstruct xs = Some ys
    /\ Forall2 (fun x y => (Qabs (y - clamp x) < 2 * QUANTUM)%Q) xs ys.
Proof.
  eexists. split; [apply reconstruct_run|].
  induction xs as [|x xs IH]; [constructor|].
  cbn [map]. constructor; [|exact IH].
  destruct (floatTo16BitPCM_bounds x) as (_ & Hpos & Hneg).
  cbn zeta in Hpos, Hneg.
  set (y := (inject_Z (floatTo16BitPCM x) / 32768)%Q) in *.
  apply Qabs_Qlt_condition. unfold QUANTUM in *.
  destruct (Qlt_le_dec (clamp x) 0) as [Hs | Hs].
  - destruct (Hneg Hs) as (H1 & H2 & H3). split; lra.
  - destruct (Hpos Hs) as (H1 & H2 & H3). split; lra.
Qed.

(** Samples that clamp to a negative value, scaled by [0x8000], come back
    within one step. *)
Lemma negative_samples_within_one_step (x : Q) :
  (clamp x < 0)%Q ->
  withinSteps 1 x (inject_Z (floatTo16BitPCM x) / 32768)%Q.
Proof.
  intros Hs. destruct (floatTo16BitPCM_bounds x) as (_ & _ & Hneg).
  cbn zeta in Hneg. destruct (Hneg Hs) as (H1 & H2 & H3).
  unfold withinSteps, QUANTUM in *. apply Qabs_Qle_condition. split; lra.
Qed.

(** ** Forwarding frames *)

Lemma handleFrameEvent_idle ev s :
  forwarding s = false -> handleFrameEvent ev s = mkResult Normal s [].
Proof.
  unfold forwarding, handleFrameEvent, handleFrame, get.
  destruct (sessionRef (connection s)); [|reflexivity].
  intros ->. reflexivity.
Qed.

Lemma runFrames_idle evs s :
  forwarding s = false -> runFrames evs s = mkResult Normal s [].
Proof.
  intros H. unfold runFrames. induction evs as [|ev evs IH]; [reflexivity|].
  cbn [forEach]. rewrite seq_normal by (rewrite handleFrameEvent_idle; auto).
  rewrite handleFrameEvent_idle by exact H. cbn [completion state trace].
  rewrite IH. reflexivity.
Qed.

Lemma handleFrameEvent_sent_run ev s :
  forwarding s = true ->
  sendFails ev = None ->
  exists sess fr tr,
    handleFrameEvent ev s
    = mkResult Normal (onFrames (fun _ => fr) s)
        (SendFrame sess (base64 ev) :: tr)
    /\ sentFrames tr = [].
Proof.
  unfold forwarding, handleFrameEvent, handleFrame, get.
  destruct ev as [sf now b]. cbn [sendFails arrivedAt base64].
  destruct s as [p t cp [buf last] [[sess|] op act con err sm ssf] fb];
    cbn [connection sessionRef isSessionOpenRef isActive]; [|discriminate].
  destruct op, act; try discriminate. intros _ ->. cbn [andb when].
  exists sess.
  unfold try_catch, seq, emit, orThrow, throw, when, update, skip, get.
  cbn -[Nat.ltb Z.leb Z.sub].
  destruct (FRAME_CAPTURE_INTERVAL <=? now - last);
    cbn -[Nat.ltb Z.leb Z.sub];
    [|exists (mkFrames buf last), []; split; reflexivity].
  destruct (MAX_FRAMES_FOR_FEEDBACK <? length (buf ++ [b]))%nat; cbn;
    eexists _, _; split; reflexivity.
Qed.

Lemma handleFrameEvent_sent ev s :
  forwarding s = true ->
  sendFails ev = None ->
  let r := handleFrameEvent ev s in
  completion r = Normal
  /\ sentFrames (trace r) = [base64 ev]
  /\ connection (state r) = connection s
  /\ playback (state r) = playback s /\ transcript (state r) = transcript s
  /\ capture (state r) = capture s /\ feedback (state r) = feedback s.
Proof.
  intros Hg Hs. cbn zeta.
  destruct (handleFrameEvent_sent_run ev s Hg Hs) as (sess & fr & tr & -> & Ht).
  cbn [completion state trace]. unfold sentFrames in *. cbn [flat_map app].
  rewrite Ht. destruct s; repeat split.
Qed.

Lemma handleFrameEvent_failed ev s e :
  forwarding s = true ->
  sendFails ev = Some e ->
  exists sess, sessionRef (connection s) = Some sess /\
  handleFrameEvent ev s
  = mkResult Normal
      (if looksClosed e then onConnection (withIsSessionOpen false) s else s)
      [SendFrame sess (base64 ev); ConsoleError (lit "Error sending frame:") e].
Proof.
  unfold forwarding, handleFrameEvent, handleFrame, get, looksClosed.
  destruct ev as [sf now b]. cbn [sendFails arrivedAt base64].
  destruct (sessionRef (connection s)) as [sess|]; [|discriminate].
  intros Hg ->. rewrite Hg. cbn [when]. exists sess. split; [reflexivity|].
  unfold try_catch, seq, emit, orThrow, throw, when, update, skip. cbn.
  destruct (isErrorInstance e && includes (lit "CLOS") (message e)); reflexivity.
Qed.

(** Every frame is forwarded live.  While a session is open and active and
    the sends succeed, each captured frame is sent to the session, in the
    order of capture, whether or not the sampler retains it; the sampler
    leaves the connection state as it is. *)
Theorem every_frame_is_forwarded (evs : list FrameEvent) (s : State) :
  forwarding s = true ->
  Forall (fun ev => sendFails ev = None) evs ->
  let r := runFrames evs s in
  completion r = Normal
  /\ sentFrames (trace r) = map base64 evs
  /\ connection (state r) = connection s.
Proof.
  revert s. induction evs as [|ev evs IH]; intros s Hg Hall; cbn zeta.
  - repeat split.
  - inversion Hall as [|? ? Hev Hrest]; subst.
    destruct (handleFrameEvent_sent ev s Hg Hev) as (Hc & Hs & Hconn & _).
    unfold runFrames. cbn [forEach]. fold (runFrames evs).
    rewrite seq_normal by exact Hc. cbn [completion state trace].
    assert (Hg1 : forwarding (state (handleFrameEvent ev s)) = true)
      by (unfold forwarding; rewrite Hconn; exact Hg).
    destruct (IH _ Hg1 Hrest) as (C & S & K). cbn zeta in *.
    split; [exact C|]. split.
    + unfold sentFrames in *. rewrite flat_map_app, Hs, S. reflexivity.
    + rewrite K. exact Hconn.
Qed.

Lemma every_frame_is_forwarded_witness :
  sentFrames (trace (runFrames (everySecond 7 5) openState))
  = [[5]; [6]; [7]; [8]; [9]; [10]; [11]]
  /\ capturedFramesRef (frames (state (runFrames (everySecond 7 5) openState)))
     = [[5]; [10]].
Proof.
  pose proof (every_frame_is_forwarded (everySecond 7 5) openState eq_refl) as H.
  cbn zeta in H. destruct H as (_ & S & _).
  - repeat constructor.
  - split; [rewrite S|]; reflexivity.
Defined.

(** Frames that arrive while no session is open and active -- before the
    connection opens, after it closed, while the interview is not active --
    are dropped: nothing is sent, nothing is retained, nothing changes. *)
Theorem frames_dropped_outside_a_session (evs : list FrameEvent) (s : State) :
  forwarding s = false -> runFrames evs s = mkResult Normal s [].
Proof. apply runFrames_idle. Qed.

Lemma frames_dropped_outside_a_session_witness :
  runFrames (everySecond 7 5) initialState = mkResult Normal initialState [].
Proof.
  apply (frames_dropped_outside_a_session (everySecond 7 5) initialState).
  reflexivity.
Defined.

(** A frame whose send throws is not retained, and the error is logged.  When
    the error is an [Error] whose message contains [CLOS], the open flag
    goes off, and every frame that arrives afterwards is dropped without
    another send. *)
Theorem failed_send_is_not_retained (ev : FrameEvent) (s : State)
    (e : JsError) :
  forwarding s = true ->
  sendFails ev = Some e ->
  let r := handleFrameEvent ev s in
  completion r = Normal
  /\ frames (state r) = frames s
  /\ In (ConsoleError (lit "Error sending frame:") e) (trace r)
  /\ (looksClosed e = true ->
      isSessionOpenRef (connection (state r)) = false
      /\ forall evs, runFrames evs (state r) = mkResult Normal (state r) [])
  /\ (looksClosed e = false -> state r = s).
Proof.
  intros Hg Hf. cbn zeta.
  destruct (handleFrameEvent_failed ev s e Hg Hf) as (sess & Hs & ->).
  cbn [completion state trace]. split; [reflexivity|].
  destruct (looksClosed e); (split; [reflexivity|]);
    (split; [right; left; reflexivity|]); split; try discriminate; auto.
  intros _. split; [reflexivity|]. intros evs. apply runFrames_idle.
  unfold forwarding. cbn. rewrite Hs. reflexivity.
Qed.

Lemma failed_send_is_not_retained_witness :
  let ev := mkFrameEvent (Some closedSocket) 5000 [5] in
  frames (state (handleFrameEvent ev openState)) = frames openState
  /\ isSessionOpenRef (connection (state (handleFrameEvent ev openState)))
     = false
  /\ trace (runFrames (everySecond 7 6) (state (handleFrameEvent ev openState)))
     = [].
Proof.
  cbn zeta.
  pose proof (failed_send_is_not_retained
                (mkFrameEvent (Some closedSocket) 5000 [5]) openState
                closedSocket eq_refl eq_refl) as H.
  cbn zeta in H. destruct H as (_ & F & _ & C & _).
  destruct (C eq_refl) as (O & R).
  split; [exact F|]. split; [exact O|]. rewrite R. reflexivity.
Defined.

(** ** Interim text *)

Lemma frameRequests_app tr1 tr2 :
  frameRequests (tr1 ++ tr2) = (frameRequests tr1 + frameRequests tr2)%nat.
Proof. unfold frameRequests. rewrite filter_app, length_app. reflexivity. Qed.

Lemma handleMessageBody_trace_full env msg s :
  completion (handleAudioOutput env msg s) = Normal ->
  let s1 := state (handleAudioOutput env msg s) in
  let s2 := state (handleInterruptions msg s1) in
  let s3 := state (handleInputTranscription env msg s2) in
  let s4 := state (handleOutputTranscription env msg s3) in
  trace (handleMessageBody env msg s)
  = trace (handleAudioOutput env msg s)
    ++ trace (handleInterruptions msg s1)
    ++ trace (handleInputTranscription env msg s2)
    ++ trace (handleOutputTranscription env msg s3)
    ++ trace (handleTurnComplete env msg s4).
Proof.
  intros Ha. cbn zeta. unfold handleMessageBody.
  rewrite seq_normal by exact Ha. cbn [trace state].
  rewrite seq_normal by apply handleInterruptions_frame. cbn [trace state].
  rewrite seq_normal by apply handleInputTranscription_spec. cbn [trace state].
  rewrite seq_normal by apply handleOutputTranscription_spec. cbn [trace state].
  reflexivity.
Qed.

Lemma handleInputTranscription_run env msg s :
  let text := stringOr (inputTextOf msg) in
  handleInputTranscription env msg s
  = mkResult Normal
      (onTranscript (accumulated appendUser (frameHandle env) text) s)
      (if truthy text then
         match rafRef (transcript s) with
         | None => [RequestAnimationFrame (frameHandle env)]
         | Some _ => []
         end
       else []).
Proof.
  cbn zeta. unfold handleInputTranscription, accumulated.
  destruct (inputTextOf msg) as [[|c t]|]; cbn [stringOr truthy when];
    try (destruct s as [p [b pe r rt ts] cp f c0 fb]; reflexivity).
  unfold seq, update. cbn. rewrite throttledUpdate_run. cbn.
  destruct s as [p [b pe [h|] rt ts] cp f c0 fb]; reflexivity.
Qed.

Lemma handleOutputTranscription_run env msg s :
  let text := stringOr (outputTextOf msg) in
  handleOutputTranscription env msg s
  = mkResult Normal
      (onTranscript (accumulated appendModel (frameHandle env) text) s)
      (if truthy text then
         match rafRef (transcript s) with
         | None => [RequestAnimationFrame (frameHandle env)]
         | Some _ => []
         end
       else []).
Proof.
  cbn zeta. unfold handleOutputTranscription, accumulated.
  destruct (outputTextOf msg) as [[|c t]|]; cbn [stringOr truthy when];
    try (destruct s as [p [b pe r rt ts] cp f c0 fb]; reflexivity).
  unfold seq, update. cbn. rewrite throttledUpdate_run. cbn.
  destruct s as [p [b pe [h|] rt ts] cp f c0 fb]; reflexivity.
Qed.

Lemma stops_request_no_frame l :
  frameRequests (map SourceStop l ++ [SourcesCleared; CursorReset]) = 0%nat.
Proof.
  rewrite frameRequests_app. unfold frameRequests at 2. cbn.
  rewrite Nat.add_0_r. induction l; auto.
Qed.

(** One message of partial text: both accumulators and both pending texts
    grow by the texts of the message, the transcript and the display stay,
    and an animation frame is asked for only when none is pending. *)
Lemma handleMessage_partial env msg s :
  partialOnly msg ->
  let r := handleMessage env msg s in
  let t := transcript s in
  let t' := transcript (state r) in
  completion r = Normal
  /\ user (transcriptionBufferRef t')
     = user (transcriptionBufferRef t) ++ stringOr (inputTextOf msg)
  /\ model (transcriptionBufferRef t')
     = model (transcriptionBufferRef t) ++ stringOr (outputTextOf msg)
  /\ user (pendingTextRef t')
     = user (pendingTextRef t) ++ stringOr (inputTextOf msg)
  /\ model (pendingTextRef t')
     = model (pendingTextRef t) ++ stringOr (outputTextOf msg)
  /\ transcriptions t' = transcriptions t
  /\ realtimeText t' = realtimeText t
  /\ (rafRef t <> None ->
      rafRef t' <> None /\ frameRequests (trace r) = 0%nat)
  /\ (rafRef t = None ->
      (rafRef t' = None /\ frameRequests (trace r) = 0%nat)
      \/ (rafRef t' <> None /\ frameRequests (trace r) = 1%nat)).
Proof.
  intros (Ha & Htc). cbn zeta. rewrite handleMessage_of_body.
  assert (Hn : completion (handleAudioOutput env msg s) = Normal)
    by (rewrite (handleAudioOutput_none env msg s Ha); reflexivity).
  destruct (handleMessageBody_normal env msg s Hn) as (Hc & Hs).
  pose proof (handleMessageBody_trace_full env msg s Hn) as Ht.
  cbn zeta in Ht. rewrite Hc, Hs, Ht. clear Hs Ht. unfold afterAudio.
  rewrite (handleAudioOutput_none env msg s Ha). cbn [state trace app].
  rewrite (handleTurnComplete_skip env msg _ Htc). cbn [state trace].
  rewrite app_nil_r.
  rewrite handleOutputTranscription_run, handleInputTranscription_run.
  cbn [state trace completion].
  rewrite handleInterruptions_run.
  assert (Hi : forall tr st, frameRequests
            (trace (if interruptedOf msg
                    then mkResult Normal st
                           (map SourceStop (sourcesRef (playback s))
                            ++ [SourcesCleared; CursorReset])
                    else mkResult Normal s []) ++ tr)
          = frameRequests tr).
  { intros tr st. rewrite frameRequests_app.
    destruct (interruptedOf msg); cbn [trace];
      [rewrite stops_request_no_frame|]; reflexivity. }
  rewrite Hi. clear Hi.
  assert (Ht : forall st, transcript
            (state (if interruptedOf msg
                    then mkResult Normal
                           (onPlayback (fun p =>
                              mkPlayback (outputAudioContextRef p) 0 [] false
                                (sourcesCreated p)) s) st
                    else mkResult Normal s [])) = transcript s)
    by (intros st; destruct (interruptedOf msg); reflexivity).
  set (s2 := state (if interruptedOf msg then _ else _)) in *.
  specialize (Ht (map SourceStop (sourcesRef (playback s))
                  ++ [SourcesCleared; CursorReset])).
  fold s2 in Ht.
  destruct s2 as [p2 t2 cp2 f2 c2 fb2]. cbn [transcript] in Ht. subst t2.
  unfold accumulated, appendUser, appendModel. cbn [transcript onTranscript].
  destruct (transcript s) as [[bu bm] [pu pm] raf rt ts].
  destruct (stringOr (inputTextOf msg)) as [|ch1 i1];
    destruct (stringOr (outputTextOf msg)) as [|ch2 o2];
    destruct raf as [h|]; cbn;
    rewrite ?app_nil_r; repeat split; try exact Hc; try congruence;
    try (intros _; split; [discriminate|reflexivity]);
    try (intros _; left; split; reflexivity);
    try (intros _; right; split; [discriminate|reflexivity]).
Qed.

Lemma runMessages_partial evs : forall s,
  Forall (fun ev => partialOnly (snd ev)) evs ->
  let r := runMessages evs s in
  let t := transcript s in
  let t' := transcript (state r) in
  completion r = Normal
  /\ user (transcriptionBufferRef t')
     = user (transcriptionBufferRef t) ++ inputTexts evs
  /\ model (transcriptionBufferRef t')
     = model (transcriptionBufferRef t) ++ outputTexts evs
  /\ user (pendingTextRef t') = user (pendingTextRef t) ++ inputTexts evs
  /\ model (pendingTextRef t') = model (pendingTextRef t) ++ outputTexts evs
  /\ transcriptions t' = transcriptions t
  /\ realtimeText t' = realtimeText t
  /\ (rafRef t <> None -> frameRequests (trace r) = 0%nat)
  /\ (frameRequests (trace r) <= 1)%nat.
Proof.
  induction evs as [|[env msg] evs IH]; intros s Hall; cbn zeta.
  - unfold inputTexts, outputTexts. cbn. rewrite !app_nil_r.
    repeat split; auto.
  - inversion Hall as [|? ? Hp Hrest]; subst. cbn [snd] in Hp.
    destruct (handleMessage_partial env msg s Hp)
      as (C1 & U1 & M1 & PU1 & PM1 & T1 & R1 & F1 & G1).
    cbn zeta in *.
    unfold runMessages. cbn [forEach fst snd]. fold (runMessages evs).
    rewrite seq_normal by exact C1. cbn [completion state trace].
    destruct (IH (state (handleMessage env msg s)) Hrest)
      as (C & U & M & PU & PM & T & R & F & G). cbn zeta in *.
    rewrite U, M, PU, PM, T, R, U1, M1, PU1, PM1, T1, R1.
    unfold inputTexts, outputTexts. cbn [map concat snd].
    rewrite <- !app_assoc, frameRequests_app.
    repeat split; auto.
    + intros Hraf. destruct (F1 Hraf) as (Hraf' & ->). rewrite (F Hraf').
      reflexivity.
    + destruct (rafRef (transcript s)) as [h|] eqn:E.
      * destruct F1 as (Hraf' & ->); [discriminate|].
        rewrite (F Hraf'). lia.
      * destruct (G1 eq_refl) as [(_ & ->) | (Hraf' & ->)]; [lia|].
        rewrite (F Hraf'). lia.
Qed.

(** Partial transcriptions accumulate in arrival order and only in the
    accumulators.  Over any burst of messages that carry partial text and
    neither audio nor the turn-complete signal, each role's accumulator grows
    by the texts of that role in the order they arrived, the finalized
    transcript and the interim display do not change, and at most one
    animation frame is requested -- none when one is already pending. *)
Theorem partial_text_accumulates_in_order
    (evs : list (Env * Msg.LiveServerMessage)) (s : State) :
  Forall (fun ev => partialOnly (snd ev)) evs ->
  let r := runMessages evs s in
  let t := transcript s in
  let t' := transcript (state r) in
  completion r = Normal
  /\ user (transcriptionBufferRef t')
     = user (transcriptionBufferRef t) ++ inputTexts evs
  /\ model (transcriptionBufferRef t')
     = model (transcriptionBufferRef t) ++ outputTexts evs
  /\ transcriptions t' = transcriptions t
  /\ realtimeText t' = realtimeText t
  /\ (rafRef t <> None -> frameRequests (trace r) = 0%nat)
  /\ (frameRequests (trace r) <= 1)%nat.
Proof.
  intros Hall. cbn zeta.
  destruct (runMessages_partial evs s Hall)
    as (C & U & M & _ & _ & T & R & F & G).
  cbn zeta in *. auto 10.
Qed.

Lemma partial_text_accumulates_in_order_witness :
  let r := runMessages [heard "Hel"; said "Hi"; heard "lo"; said "!"]
             openState in
  transcriptionBufferRef (transcript (state r))
  = mkTextPair (lit "Hello") (lit "Hi!")
  /\ frameRequests (trace r) = 1%nat.
Proof.
  cbn zeta.
  pose proof (partial_text_accumulates_in_order
                [heard "Hel"; said "Hi"; heard "lo"; said "!"] openState) as H.
  cbn zeta in H. destruct H as (_ & _ & _ & _ & _ & _ & G).
  - repeat constructor.
  - split; reflexivity.
Defined.

(** Coalescing never loses text.  When the pending texts agree with the
    accumulators (as they do after every turn-complete), then after any burst
    of partial messages a single animation frame puts the whole accumulated
    text of both roles on the interim display, and frees the throttle. *)
Theorem one_frame_shows_all_accumulated_text
    (evs : list (Env * Msg.LiveServerMessage)) (s : State) :
  pendingTextRef (transcript s) = transcriptionBufferRef (transcript s) ->
  Forall (fun ev => partialOnly (snd ev)) evs ->
  let t' := transcript (state (onAnimationFrame (state (runMessages evs s)))) in
  user (realtimeText t')
  = user (transcriptionBufferRef (transcript s)) ++ inputTexts evs
  /\ model (realtimeText t')
     = model (transcriptionBufferRef (transcript s)) ++ outputTexts evs
  /\ user (realtimeText t') = user (transcriptionBufferRef t')
  /\ model (realtimeText t') = model (transcriptionBufferRef t')
  /\ rafRef t' = None.
Proof.
  intros Hp Hall. cbn zeta.
  destruct (runMessages_partial evs s Hall)
    as (_ & U & M & PU & PM & _). cbn zeta in *.
  unfold onAnimationFrame, seq, get, update, setRealtimeText. cbn.
  rewrite PU, PM, U, M, Hp. repeat split.
Qed.

Lemma one_frame_shows_all_accumulated_text_witness :
  realtimeText (transcript (state (onAnimationFrame (state
    (runMessages [heard "Hel"; said "Hi"; heard "lo"; said "!"] openState)))))
  = mkTextPair (lit "Hello") (lit "Hi!").
Proof.
  pose proof (one_frame_shows_all_accumulated_text
                [heard "Hel"; said "Hi"; heard "lo"; said "!"] openState
                eq_refl) as H.
  cbn zeta in H. destruct H as (_ & _ & _ & _ & R).
  - repeat constructor.
  - reflexivity.
Defined.

(** ** The feedback request *)

Lemma frameParts_labelled videoFrames : forall index total,
  (index + length videoFrames = total)%nat ->
  frameParts index total videoFrames = labelled (index + 1) videoFrames.
Proof.
  induction videoFrames as [|f r IH]; intros index total H; [reflexivity|].
  cbn [frameParts length] in *.
  destruct r as [|g r'].
  - cbn [length] in H.
    replace (index <? total - 1)%nat with false
      by (symmetry; apply Nat.ltb_ge; lia).
    reflexivity.
  - replace (index <? total - 1)%nat with true
      by (symmetry; apply Nat.ltb_lt; cbn [length] in H; lia).
    rewrite (IH (S index) total) by (cbn [length] in *; lia).
    cbn [app labelled]. replace (S index + 1)%nat with (S (index + 1)) by lia.
    reflexivity.
Qed.

Lemma labelled_images videoFrames : forall k,
  inlineImages (labelled k videoFrames) = videoFrames.
Proof.
  induction videoFrames as [|f [|g r] IH]; intros k; try reflexivity.
  change (f :: inlineImages (labelled (S k) (g :: r)) = f :: g :: r).
  rewrite IH. reflexivity.
Qed.

(** The feedback request carries the prompt and the formatted transcript
    first, then every video frame as an image in capture order, each but the
    last followed by its label [Frame 1], [Frame 2], ...; with no frames it
    carries a note instead. *)
Theorem feedback_request_attaches_frames_in_order
    (tr : list TranscriptionEntry) (videoFrames : list JsString)
    (jd_ resume_ : option JsString) :
  contentParts tr videoFrames jd_ resume_
  = PromptAndTranscript jd_ resume_ (formatTranscript tr) (length videoFrames)
      :: match videoFrames with
         | [] => [NoFramesNote]
         | _ :: _ => labelled 1 videoFrames
         end
  /\ inlineImages (contentParts tr videoFrames jd_ resume_) = videoFrames.
Proof.
  unfold contentParts. destruct videoFrames as [|f r]; [split; reflexivity|].
  cbn [length Nat.ltb Nat.leb].
  rewrite (frameParts_labelled (f :: r) 0 (S (length r))) by reflexivity.
  split; [reflexivity|]. apply (labelled_images (f :: r) 1).
Qed.

Lemma requests_of_stop_trace tr s :
  requests (trace (stopSession tr s)) = feedbackRequest tr s.
Proof.
  rewrite stopSession_run. cbn [trace]. unfold requests.
  cbn [filter isRequest]. rewrite !filter_app.
  assert (H1 : filter isRequest (closing s) = []).
  { unfold closing. destruct (sessionRef (connection s)) as [[id [|] [e|]]|];
      reflexivity. }
  assert (H2 : filter isRequest (teardownOrder s) = []).
  { unfold teardownOrder. rewrite !filter_app.
    assert (D : forall o, filter isRequest (disconnected o) = [])
      by (intros [n|]; reflexivity).
    assert (T : forall l, filter isRequest (map TrackStop l) = [])
      by (induction l; auto).
    assert (S : forall l, filter isRequest (map SourceStop l) = [])
      by (induction l; auto).
    assert (R : forall o, filter isRequest (released o) = []).
    { intros [m|]; [|reflexivity]. cbn. rewrite filter_app, T. reflexivity. }
    rewrite !D, R, S. reflexivity. }
  rewrite H1, H2. unfold feedbackRequest.
  destruct (feedbackDue tr s); reflexivity.
Qed.

(** A stop hands over the frames, then clears them.  When a stop works on a
    transcript that is not empty and a key is stored, it issues exactly one
    request to the batch endpoint, with the stored key, and the images of
    that request are the frames the buffer held before the stop, in order;
    after the stop the buffer is empty and the capture clock is back at
    zero. *)
Theorem stop_hands_frames_over_then_clears (tr : list TranscriptionEntry)
    (s : State) :
  tr <> [] ->
  apiKey (interviewContextRef (feedback s)) <> [] ->
  let r := stopSession tr s in
  (exists parts,
      requests (trace r)
      = [GenerateContent (apiKey (interviewContextRef (feedback s)))
           FEEDBACK_MODEL parts]
      /\ inlineImages parts = capturedFramesRef (frames s))
  /\ frames (state r) = mkFrames [] 0
  /\ isGeneratingFeedback (feedback (state r)) = true.
Proof.
  intros Ht Hk. cbn zeta. rewrite requests_of_stop_trace, stopSession_run.
  assert (Hd : feedbackDue tr s = true).
  { unfold feedbackDue. destruct tr; [contradiction|].
    destruct (apiKey (interviewContextRef (feedback s))); [contradiction|].
    reflexivity. }
  unfold feedbackRequest, stopped. rewrite Hd. cbn [state frames feedback].
  split; [|split; reflexivity].
  eexists. split; [reflexivity|].
  unfold contentParts. cbn [inlineImages flat_map app].
  destruct (capturedFramesRef (frames s)) as [|f r]; [reflexivity|].
  cbn [length Nat.ltb Nat.leb].
  rewrite (frameParts_labelled (f :: r) 0 (S (length r))) by reflexivity.
  apply (labelled_images (f :: r) 1).
Qed.

Lemma stop_hands_frames_over_then_clears_witness :
  let r := stopSession (transcriptions (transcript filmedState)) filmedState in
  capturedFramesRef (frames filmedState) = [[5]; [10]; [15]]
  /\ flat_map (fun a => match a with
                        | GenerateContent _ _ parts => inlineImages parts
                        | _ => []
                        end) (trace r) = [[5]; [10]; [15]]
  /\ frames (state r) = mkFrames [] 0.
Proof.
  cbn zeta.
  assert (Ht : transcriptions (transcript filmedState) <> [])
    by (vm_compute; discriminate).
  assert (Hk : apiKey (interviewContextRef (feedback filmedState)) <> [])
    by (vm_compute; discriminate).
  pose proof (stop_hands_frames_over_then_clears
                (transcriptions (transcript filmedState)) filmedState Ht Hk)
    as (_ & F & _).
  split; [vm_compute; reflexivity|].
  split; [vm_compute; reflexivity | exact F].
Defined.

(** ** The live set *)

Lemma setAdd_fresh x l :
  Forall (fun src => (sourceId src < sourceId x)%nat) l -> setAdd x l = l ++ [x].
Proof.
  intros H. unfold setAdd.
  replace (existsb (sameSource x) l) with false; [reflexivity|].
  symmetry. induction H as [|y l Hy _ IH]; [reflexivity|].
  cbn [existsb]. rewrite IH. unfold sameSource.
  replace (sourceId x =? sourceId y)%nat with false; [reflexivity|].
  symmetry. apply Nat.eqb_neq. lia.
Qed.

(** What one message without the interrupted signal does to the live set:
    it appends exactly what it starts. *)
Lemma live_step env msg s :
  interruptedOf msg = false -> wellAllocated (playback s) ->
  let r := handleMessage env msg s in
  sourcesRef (playback (state r))
  = sourcesRef (playback s) ++ started (trace r)
  /\ wellAllocated (playback (state r)).
Proof.
  intros Hi Hw. cbn zeta.
  destruct (handleMessage_without_interrupt env msg s Hi) as (_ & -> & ->).
  destruct (audioOf msg) as [d|] eqn:Ha.
  - destruct (outputAudioContextRef (playback s)) as [ctx|] eqn:Hc.
    + destruct (decodedChunk d) as [b|] eqn:Hd.
      * rewrite (handleAudioOutput_enqueues env msg s d ctx b Ha Hc Hd).
        cbn [state trace started flat_map app playback onPlayback sourcesRef].
        assert (E : setAdd (scheduled env b (playback s)) (sourcesRef (playback s))
                    = sourcesRef (playback s) ++ [scheduled env b (playback s)]).
        { apply setAdd_fresh. exact Hw. }
        destruct s as [p t c f cn fb]. cbn in *. rewrite E. split; [reflexivity|].
        unfold wellAllocated in *. cbn. apply Forall_app. split.
        -- eapply Forall_impl; [|exact Hw]. cbn. intros; lia.
        -- constructor; [cbn; lia | constructor].
      * destruct (handleAudioOutput_throws env msg s d ctx Ha Hc Hd) as [e ->].
        destruct s as [p t c f cn fb]. cbn. rewrite app_nil_r. auto.
    + rewrite (handleAudioOutput_no_context env msg s d Ha Hc).
      destruct s as [p t c f cn fb]. cbn. rewrite app_nil_r. auto.
  - rewrite (handleAudioOutput_none env msg s Ha). cbn. rewrite app_nil_r. auto.
Qed.

(** The live set is what was started.  Over any sequence of server messages
    without the interrupted signal, whatever their audio payloads -- absent,
    empty, undecodable or sound -- the live set grows by exactly the sources
    that were started, in the order they were started: no source plays
    without being tracked and none is tracked without playing. *)
Theorem live_set_tracks_started_sources
    (evs : list (Env * Msg.LiveServerMessage)) : forall (s : State),
  Forall (fun ev => interruptedOf (snd ev) = false) evs ->
  wellAllocated (playback s) ->
  let r := runMessages evs s in
  sourcesRef (playback (state r))
  = sourcesRef (playback s) ++ started (trace r)
  /\ wellAllocated (playback (state r)).
Proof.
  induction evs as [|[env msg] evs IH]; intros s Hall Hw; cbn zeta.
  - cbn. rewrite app_nil_r. auto.
  - inversion Hall as [|? ? Hi Hrest]; subst. cbn [snd] in Hi.
    unfold runMessages. cbn [forEach fst snd]. fold (runMessages evs).
    destruct (handleMessage_without_interrupt env msg s Hi) as (Hn & _).
    rewrite seq_normal by exact Hn. cbn [state trace].
    destruct (live_step env msg s Hi Hw) as (E1 & W1).
    destruct (IH (state (handleMessage env msg s)) Hrest W1) as (E2 & W2).
    rewrite started_app, E2, E1, app_assoc. auto.
Qed.

Lemma live_set_tracks_started_sources_witness :
  let r := runMessages [chunkAt 0; chunkAt 5] openState in
  map sourceId (sourcesRef (playback (state r))) = [0%nat; 1%nat]
  /\ sourcesRef (playback (state r)) = started (trace r).
Proof.
  cbn zeta.
  destruct (live_set_tracks_started_sources [chunkAt 0; chunkAt 5] openState)
    as (E & _).
  - repeat constructor.
  - constructor.
  - split; [reflexivity | exact E].
Defined.

Lemma onended_step src s :
  let r := onended src s in
  completion r = Normal /\ trace r = []
  /\ sourcesRef (playback (state r)) = setDelete src (sourcesRef (playback s))
  /\ isSpeaking (playback (state r))
     = (if (length (setDelete src (sourcesRef (playback s))) =? 0)%nat
        then false else isSpeaking (playback s))
  /\ nextStartTimeRef (playback (state r)) = nextStartTimeRef (playback s)
  /\ onlyPlayback s (state r).
Proof.
  unfold onended, seq, get, update, when, setIsSpeaking, skip, onlyPlayback.
  cbn.
  destruct (length (setDelete src (sourcesRef (playback s))) =? 0)%nat eqn:E;
    cbn; rewrite ?E; repeat split; reflexivity.
Qed.

Lemma setDelete_among src l y :
  among (setDelete src l) y = among l y && negb (sameSource src y).
Proof.
  unfold among, setDelete. induction l as [|x l IH]; [reflexivity|].
  cbn [filter existsb].
  destruct (sameSource src x) eqn:E; cbn [negb existsb]; rewrite IH.
  - unfold sameSource in *. apply Nat.eqb_eq in E.
    destruct (sourceId y =? sourceId x)%nat eqn:F; [|reflexivity].
    apply Nat.eqb_eq in F. cbn [orb andb].
    replace (sourceId src =? sourceId y)%nat with true
      by (symmetry; apply Nat.eqb_eq; lia).
    cbn. apply andb_false_r.
  - unfold sameSource in *.
    destruct (sourceId y =? sourceId x)%nat eqn:F; [|reflexivity].
    apply Nat.eqb_eq in F. cbn [orb andb].
    replace (sourceId src =? sourceId y)%nat with false
      by (rewrite F; symmetry; exact E).
    reflexivity.
Qed.

Lemma sameSource_sym a b : sameSource a b = sameSource b a.
Proof. unfold sameSource. apply Nat.eqb_sym. Qed.

Lemma among_nil_iff l : (forall y, among l y = false) <-> l = [].
Proof.
  split; [|intros -> y; destruct y; reflexivity].
  destruct l as [|x l]; [reflexivity|]. intros H. specialize (H x).
  unfold among in H. cbn in H. unfold sameSource in H at 1.
  rewrite Nat.eqb_refl in H. discriminate.
Qed.

(** What a run of endings leaves of the set, and of the signal. *)
Lemma runEnds_run ends : forall s,
  let r := runEnds ends s in
  completion r = Normal /\ trace r = []
  /\ (forall y, among (sourcesRef (playback (state r))) y
                = among (sourcesRef (playback s)) y && negb (among ends y))
  /\ nextStartTimeRef (playback (state r)) = nextStartTimeRef (playback s)
  /\ onlyPlayback s (state r)
  /\ (ends <> [] -> sourcesRef (playback (state r)) = [] ->
      isSpeaking (playback (state r)) = false)
  /\ (sourcesRef (playback (state r)) <> [] ->
      isSpeaking (playback (state r)) = isSpeaking (playback s)).
Proof.
  induction ends as [|src ends IH]; intros s; cbn zeta.
  - cbn. unfold onlyPlayback. repeat split; try reflexivity.
    + intros y. cbn. rewrite andb_true_r. reflexivity.
    + intros H; contradiction.
  - unfold runEnds. cbn [forEach]. fold (runEnds ends).
    destruct (onended_step src s) as (C1 & T1 & S1 & K1 & N1 & F1).
    rewrite seq_normal by exact C1. cbn [completion state trace].
    destruct (IH (state (onended src s))) as (C2 & T2 & S2 & N2 & F2 & Off & On).
    rewrite T1, T2, C2, N2, N1. repeat split; try reflexivity.
    + intros y. rewrite S2, S1, setDelete_among. unfold among at 4.
      cbn [existsb]. rewrite negb_orb, (sameSource_sym y src), andb_assoc.
      reflexivity.
    + destruct F1 as (? & ? & ? & ? & ?), F2 as (? & ? & ? & ? & ?). congruence.
    + destruct F1 as (? & ? & ? & ? & ?), F2 as (? & ? & ? & ? & ?). congruence.
    + destruct F1 as (? & ? & ? & ? & ?), F2 as (? & ? & ? & ? & ?). congruence.
    + destruct F1 as (? & ? & ? & ? & ?), F2 as (? & ? & ? & ? & ?). congruence.
    + destruct F1 as (? & ? & ? & ? & ?), F2 as (? & ? & ? & ? & ?). congruence.
    + intros _ He. destruct ends as [|e2 ends'].
      * unfold runEnds, forEach, skip in *. cbn [state] in *.
        rewrite K1. rewrite S1 in He. rewrite He. reflexivity.
      * apply Off; [discriminate | exact He].
    + intros Hne. rewrite (On Hne), K1.
      destruct (length (setDelete src (sourcesRef (playback s))) =? 0)%nat eqn:E;
        [|reflexivity].
      exfalso. apply Hne. apply among_nil_iff. intros y. rewrite S2, S1.
      destruct (setDelete src (sourcesRef (playback s))); [reflexivity|discriminate].
Qed.

(** Playback drains.  When sources end one after the other, in any order and
    however often, nothing is thrown or emitted and the cursor stays where it
    is.  Once every source of the live set has ended the set is empty and the
    speaking signal is off; as long as one of them has not ended, the set is
    not empty and the signal is what it was. *)
Theorem signal_goes_off_when_last_source_ends (ends : list Source)
    (s : State) :
  let r := runEnds ends s in
  completion r = Normal /\ trace r = []
  /\ nextStartTimeRef (playback (state r)) = nextStartTimeRef (playback s)
  /\ onlyPlayback s (state r)
  /\ (ends <> [] ->
      Forall (fun src => among ends src = true) (sourcesRef (playback s)) ->
      sourcesRef (playback (state r)) = []
      /\ isSpeaking (playback (state r)) = false)
  /\ (Exists (fun src => among ends src = false) (sourcesRef (playback s)) ->
      sourcesRef (playback (state r)) <> []
      /\ isSpeaking (playback (state r)) = isSpeaking (playback s)).
Proof.
  cbn zeta.
  destruct (runEnds_run ends s) as (C & T & S & N & F & Off & On).
  repeat split; try assumption; try (destruct F as (? & ? & ? & ? & ?); assumption).
  - apply among_nil_iff. intros y. rewrite S.
    destruct (among (sourcesRef (playback s)) y) eqn:E; [|reflexivity].
    unfold among in E. apply existsb_exists in E. destruct E as (x & Hx & Hxy).
    rewrite Forall_forall in H0. specialize (H0 x Hx).
    unfold among in H0 |- *. apply existsb_exists in H0.
    destruct H0 as (z & Hz & Hzx). cbn.
    replace (existsb (sameSource y) ends) with true; [reflexivity|].
    symmetry. apply existsb_exists. exists z. split; [exact Hz|].
    unfold sameSource in *. apply Nat.eqb_eq in Hxy, Hzx. apply Nat.eqb_eq. lia.
  - apply Off; [exact H|].
    apply among_nil_iff. intros y. rewrite S.
    destruct (among (sourcesRef (playback s)) y) eqn:E; [|reflexivity].
    unfold among in E. apply existsb_exists in E. destruct E as (x & Hx & Hxy).
    rewrite Forall_forall in H0. specialize (H0 x Hx).
    unfold among in H0 |- *. apply existsb_exists in H0.
    destruct H0 as (z & Hz & Hzx). cbn.
    replace (existsb (sameSource y) ends) with true; [reflexivity|].
    symmetry. apply existsb_exists. exists z. split; [exact Hz|].
    unfold sameSource in *. apply Nat.eqb_eq in Hxy, Hzx. apply Nat.eqb_eq. lia.
  - intros He. apply Exists_exists in H. destruct H as (x & Hx & Hxe).
    pose proof (S x) as Sx. rewrite He, Hxe in Sx. cbn in Sx.
    assert (among (sourcesRef (playback s)) x = true).
    { unfold among. apply existsb_exists. exists x. split; [exact Hx|].
      unfold sameSource. apply Nat.eqb_refl. }
    rewrite H in Sx. discriminate.
  - apply On. intros He. apply Exists_exists in H. destruct H as (x & Hx & Hxe).
    pose proof (S x) as Sx. rewrite He, Hxe in Sx. cbn in Sx.
    assert (among (sourcesRef (playback s)) x = true).
    { unfold among. apply existsb_exists. exists x. split; [exact Hx|].
      unfold sameSource. apply Nat.eqb_refl. }
    rewrite H in Sx. discriminate.
Qed.

(** ** A message that fails, a feedback call that settles *)

(** A message whose audio does not decode loses the rest of what it carries.
    When the audio payload of a message is present, the output context
    exists and the payload does not decode, the exception leaves the handler
    body at the audio block: the handler logs it and does nothing else.  The
    transcript, the accumulators and the interim display are as before, even
    when the message carries text or the turn-complete signal; the live set
    is as before and nothing is stopped, even when the message carries the
    interrupted signal.  All that has changed is the speaking signal, now on,
    and the cursor, moved up to the clock. *)
Theorem failed_audio_drops_rest_of_message (env : Env)
    (msg : Msg.LiveServerMessage) (s : State) (d : JsString) (ctx : nat) :
  audioOf msg = Some d ->
  outputAudioContextRef (playback s) = Some ctx ->
  decodedChunk d = None ->
  let r := handleMessage env msg s in
  (exists e, trace r = [ConsoleError (lit "Error handling message:") e])
  /\ transcript (state r) = transcript s
  /\ sourcesRef (playback (state r)) = sourcesRef (playback s)
  /\ isSpeaking (playback (state r)) = true
  /\ nextStartTimeRef (playback (state r))
     = Qmax (nextStartTimeRef (playback s)) (currentTime env).
Proof.
  intros Ha Hc Hd. cbn zeta. rewrite handleMessage_of_body.
  destruct (handleAudioOutput_throws env msg s d ctx Ha Hc Hd) as [e He].
  assert (Hb : handleMessageBody env msg s = handleAudioOutput env msg s).
  { apply handleMessageBody_abrupt with e. rewrite He. reflexivity. }
  rewrite Hb, He. cbn [completion state trace app].
  split; [exists e; reflexivity|]. destruct s; repeat split.
Qed.

Lemma failed_audio_drops_rest_of_message_witness :
  let r := handleMessage sampleEnv garbled playingState in
  transcript (state r) = transcript playingState
  /\ sourcesRef (playback (state r)) = sourcesRef (playback playingState)
  /\ sourcesRef (playback playingState) <> [].
Proof.
  cbn zeta.
  destruct (failed_audio_drops_rest_of_message sampleEnv garbled playingState
              (lit "!") 1%nat) as (_ & T & S & _).
  - vm_compute. reflexivity.
  - vm_compute. reflexivity.
  - vm_compute. reflexivity.
  - split; [exact T|]. split; [exact S|]. vm_compute. discriminate.
Defined.

(** The feedback call always ends with text on the screen.  However the
    request settles, the rest of the synthesizer completes normally, clears
    the busy flag and shows a text that is not empty: the text of the
    response when it has one, a fixed message otherwise.  It touches nothing
    but the feedback shown and the busy flag, and logs only a rejection. *)
Theorem feedback_settles_with_text (o : GenerateOutcome) (s : State) :
  let r := generateFeedbackSettled o s in
  completion r = Normal
  /\ isGeneratingFeedback (feedback (state r)) = false
  /\ (exists m, endFeedback (feedback (state r)) = Some m /\ m <> [])
  /\ (forall t, o = Resolved (Some t) -> t <> [] ->
        endFeedback (feedback (state r)) = Some t /\ trace r = [])
  /\ onlyFeedback s (state r)
  /\ interviewContextRef (feedback (state r))
     = interviewContextRef (feedback s).
Proof.
  cbn zeta. rewrite generateFeedbackSettled_run.
  destruct o as [responseText|err]; cbn [completion state trace feedback
    onFeedback isGeneratingFeedback endFeedback interviewContextRef].
  - split; [reflexivity|]. split; [destruct s; reflexivity|]. split.
    + destruct s as [p t c f cn fb]. cbn. eexists. split; [reflexivity|].
      unfold orElse. destruct (stringOr responseText) as [|a l]; cbn;
        discriminate.
    + split; [|destruct s; repeat split].
      intros t [= ->] Ht. destruct s as [p tt c f cn fb]. cbn.
      destruct t; [contradiction|]. split; reflexivity.
  - split; [reflexivity|]. split; [destruct s; reflexivity|]. split.
    + destruct s as [p t c f cn fb]. cbn. eexists. split; [reflexivity|].
      discriminate.
    + split; [|destruct s; repeat split]. intros t H. discriminate H.
Qed.

(* ================================================================== *)
(** * Properties of the session lifecycle *)
(* ================================================================== *)

Import Lifecycle.

(** ** Running procedures *)

Lemma andThen_done (p1 p2 : Proc) k :
  outcome (p1 k) = Done ->
  (p1 ;; p2)%proc k
  = mkRun (outcome (p2 (component (p1 k)))) (component (p2 (component (p1 k))))
      (effects (p1 k) ++ effects (p2 (component (p1 k)))).
Proof. intros H. unfold andThen. rewrite H. reflexivity. Qed.

Lemma lift_cleanup_run k :
  lift cleanup k
  = mkRun Done (onApp cleaned k) (map Did (teardownOrder (controller k))).
Proof. unfold lift. rewrite cleanup_run. reflexivity. Qed.

Lemma lift_stopSession_run tr k :
  lift (stopSession tr) k
  = mkRun Done (onApp (stopped tr) k)
      (map Did (trace (stopSession tr (controller k)))).
Proof. unfold lift. rewrite stopSession_run. reflexivity. Qed.

Lemma stoppedTracks_app l1 l2 :
  stoppedTracks (l1 ++ l2) = stoppedTracks l1 ++ stoppedTracks l2.
Proof. apply flat_map_app. Qed.

Lemma stoppedTracks_stops l :
  stoppedTracks (map Did (map TrackStop l)) = l.
Proof.
  unfold stoppedTracks. induction l as [|a l IH]; [reflexivity|].
  cbn. f_equal. exact IH.
Qed.

Lemma stoppedTracks_sources l :
  stoppedTracks (map Did (map SourceStop l)) = [].
Proof. induction l as [|a l IH]; [reflexivity|]. exact IH. Qed.

(** The tracks a teardown stops are those of the stream held. *)
Lemma stoppedTracks_teardown s :
  stoppedTracks (map Did (teardownOrder s))
  = match streamRef (capture s) with
    | Some m => getTracks m
    | None => []
    end.
Proof.
  unfold teardownOrder. rewrite !map_app, !stoppedTracks_app.
  rewrite stoppedTracks_sources.
  destruct (scriptProcessorRef (capture s)), (mediaSourceRef (capture s)),
    (streamRef (capture s)) as [m|]; cbn;
    rewrite ?map_app, ?stoppedTracks_app, ?stoppedTracks_stops, ?app_nil_r;
    reflexivity.
Qed.

Lemma connects_app l1 l2 : connects (l1 ++ l2) = connects l1 ++ connects l2.
Proof. apply filter_app. Qed.

Lemma connects_did l : connects (map Did l) = [].
Proof. induction l as [|a l IH]; [reflexivity|]. exact IH. Qed.

(** The catch block of [startSession] on a value that is not nullish. *)
Lemma startFailed_run err name asString k :
  startFailed (Value err name asString) k
  = mkRun Done
      (onApp (fun s =>
         onConnection (fun c =>
           mkConnection (sessionRef c) false (isActive c) false
             (Some (startErrorMessage name
                      (describe (Value err name asString) [])))
             (statusMessage c) true)
           (cleaned s)) k)
      (Did (ConsoleError (lit "Failed to start session:") err)
         :: map Did (teardownOrder (controller k))).
Proof.
  unfold startFailed. cbn [thrownError].
  unfold andThen at 1. cbn [effect outcome component effects].
  rewrite andThen_done by (rewrite lift_cleanup_run; reflexivity).
  rewrite lift_cleanup_run. cbn [outcome component effects].
  destruct k as [[p t cp f cn fb] a]. cbn. rewrite app_nil_r. reflexivity.
Qed.

Lemma startErrorMessage_not_empty name errorMessage :
  startErrorMessage name errorMessage <> [].
Proof.
  unfold startErrorMessage.
  repeat match goal with
         | |- (if ?b then _ else _) <> [] => destruct b; [discriminate|]
         end.
  discriminate.
Qed.
(** A blank key starts nothing.  When the API key field is empty or holds
    only white space, [startSession] shows the request for a key and does
    nothing else: no microphone is asked for, no context is constructed, no
    connection is made, the interview context of an earlier session is kept,
    and the setup form stays as it is. *)
Theorem blank_key_starts_nothing (apiKey_ jobDescription resumeContent
    : JsString) (io : StartEnv) (k : Component) :
  trim apiKey_ = [] ->
  startSession apiKey_ jobDescription resumeContent io k
  = mkRun Done (onApp (onConnection (withError (Some BLANK_KEY_MESSAGE))) k)
      [].
Proof.
  intros H. unfold startSession. rewrite H. reflexivity.
Qed.

Lemma blank_key_starts_nothing_witness :
  effects (startSession (lit "   ") (lit "jd") [] deniedMicrophone mounted)
  = []
  /\ error (connection (controller (component
       (startSession (lit "   ") (lit "jd") [] deniedMicrophone mounted))))
     = Some BLANK_KEY_MESSAGE.
Proof.
  rewrite (blank_key_starts_nothing (lit "   ") (lit "jd") [] deniedMicrophone
             mounted); [|vm_compute; reflexivity].
  split; reflexivity.
Defined.

(** The [try] block of [startSession] when a step fails: it throws the
    failure, having asked for the microphone, holding the stream if it was
    granted, and without a connect call. *)
Lemma startSteps_fail key jd res io k t :
  startFailure io k = Some t ->
  let r := startSteps key jd res io k in
  outcome r = Threw t
  /\ connects (effects r) = []
  /\ stoppedTracks (effects r) = []
  /\ streamRef (capture (controller (component r)))
     = match getUserMedia io with
       | Fulfilled stream => Some stream
       | RejectedWith _ => streamRef (capture (controller k))
       end
  /\ truthy (statusMessage (connection (controller (component r)))) = true
  /\ sessionRef (connection (controller (component r)))
     = sessionRef (connection (controller k))
  /\ isActive (connection (controller (component r)))
     = isActive (connection (controller k))
  /\ feedback (controller (component r)) = feedback (controller k).
Proof.
  intros Hf. unfold startFailure in Hf. cbn zeta.
  destruct k as [[[octx nst srcs spk made] tr cp f cn fb] a].
  destruct io as [gum nic noc ri ro].
  cbn [getUserMedia newInputContext newOutputContext resumeInput resumeOutput
       audioContextRef controller playback outputAudioContextRef] in Hf.
  destruct gum as [stream|t0]; [|injection Hf as <-; vm_compute; repeat split].
  destruct a as [ctx|], nic as [ctx'|t1], octx as [octx|], noc as [octx'|t2],
    ri as [t3|], ro as [t4|];
    try discriminate Hf; injection Hf as <-; vm_compute; repeat split.
Qed.
Lemma tryCatch_threw (p : Proc) (h : Thrown -> Proc) k t :
  outcome (p k) = Threw t ->
  tryCatch p h k
  = mkRun (outcome (h t (component (p k)))) (component (h t (component (p k))))
      (effects (p k) ++ effects (h t (component (p k)))).
Proof. intros H. unfold tryCatch. rewrite H. reflexivity. Qed.

Lemma startSession_run key jd res io k :
  trim key <> [] ->
  startSession key jd res io k
  = tryCatch (startSteps key jd res io) startFailed
      (onApp (onFeedback (withInterviewContext
                (mkInterviewContext jd res (trim key)))) k).
Proof.
  intros H. unfold startSession.
  destruct (trim key) as [|c l]; [contradiction|]. cbn [truthy negb].
  unfold andThen, modify. cbn [outcome component effects app].
  destruct (tryCatch _ _ _); reflexivity.
Qed.

(** A failed start gives the microphone back and says why.  When a step of
    [startSession] before the connect call fails with a value that is not
    nullish -- the microphone is refused, a context cannot be constructed or
    resumed -- the function completes normally without a connect call; the
    failure is logged; the capture refs are empty and every track of the
    stream that was granted has been stopped; the setup form is back, the
    component is neither connecting nor open, and an error message that is
    not empty is shown, chosen from the name and the text of the failure.
    The progress message set before the failure stays.  A rejected connect
    call is answered in the same way. *)
Theorem failed_start_gives_microphone_back (key jobDescription resumeContent
    : JsString) (io : StartEnv) (k : Component) (err : JsError)
    (name : option JsString) (asString : JsString) :
  trim key <> [] ->
  startFailure io k = Some (Value err name asString) ->
  let t := Value err name asString in
  let m := startErrorMessage name (describe t []) in
  let r := startSession key jobDescription resumeContent io k in
  (outcome r = Done
   /\ connects (effects r) = []
   /\ In (Did (ConsoleError (lit "Failed to start session:") err)) (effects r)
   /\ capture (controller (component r)) = mkCapture None None None
   /\ stoppedTracks (effects r)
      = match getUserMedia io, streamRef (capture (controller k)) with
        | Fulfilled stream, _ => getTracks stream
        | RejectedWith _, Some stream => getTracks stream
        | RejectedWith _, None => []
        end
   /\ startRefused m (connection (controller (component r)))
   /\ m <> []
   /\ truthy (statusMessage (connection (controller (component r)))) = true)
  /\ (let r' := connectSettled (RejectedWith t) k in
      outcome r' = Done
      /\ capture (controller (component r')) = mkCapture None None None
      /\ stoppedTracks (effects r')
         = match streamRef (capture (controller k)) with
           | Some stream => getTracks stream
           | None => []
           end
      /\ startRefused m (connection (controller (component r')))).
Proof.
  intros Hk Hf. cbn zeta. split.
  - rewrite (startSession_run key jobDescription resumeContent io k Hk).
    set (k1 := onApp _ k).
    assert (Hf1 : startFailure io k1 = Some (Value err name asString))
      by (destruct k as [[p tr cp f cn fb] a]; exact Hf).
    destruct (startSteps_fail key jobDescription resumeContent io k1 _ Hf1)
      as (Ho & Hc & Ht & Hs & Hm & _).
    rewrite (tryCatch_threw _ _ _ _ Ho), startFailed_run.
    cbn [outcome component effects].
    set (r1 := startSteps key jobDescription resumeContent io k1) in *.
    split; [reflexivity|]. split.
    { rewrite connects_app, Hc. cbn [app connects filter].
      apply connects_did. }
    split; [apply in_or_app; right; left; reflexivity|].
    split; [destruct (component r1) as [[p tr cp f cn fb] a]; reflexivity|].
    split.
    { rewrite stoppedTracks_app, Ht.
      change (stoppedTracks (Did (ConsoleError (lit "Failed to start session:") err)
                :: map Did (teardownOrder (controller (component r1)))))
        with (stoppedTracks (map Did (teardownOrder (controller (component r1))))).
      rewrite stoppedTracks_teardown, Hs.
      destruct (getUserMedia io); [reflexivity|].
      destruct k as [[p tr cp f cn fb] a]. reflexivity. }
    split.
    { destruct (component r1) as [[p tr cp f cn fb] a]. repeat split. }
    split; [apply startErrorMessage_not_empty|].
    destruct (component r1) as [[p tr cp f cn fb] a]. exact Hm.
  - unfold connectSettled. rewrite startFailed_run.
    cbn [outcome component effects].
    split; [reflexivity|].
    split; [destruct k as [[p tr cp f cn fb] a]; reflexivity|].
    split.
    { change (stoppedTracks (Did (ConsoleError (lit "Failed to start session:") err)
                :: map Did (teardownOrder (controller k))))
        with (stoppedTracks (map Did (teardownOrder (controller k)))).
      apply stoppedTracks_teardown. }
    destruct k as [[p tr cp f cn fb] a]. repeat split.
Qed.

Lemma failed_start_gives_microphone_back_witness :
  let r := startSession (lit "key") [] [] deniedMicrophone mounted in
  error (connection (controller (component r))) = Some MICROPHONE_DENIED
  /\ showSetupForm (connection (controller (component r))) = true
  /\ connects (effects r) = [].
Proof.
  cbn zeta.
  destruct (failed_start_gives_microphone_back (lit "key") [] []
              deniedMicrophone mounted (mkJsError true (lit "Permission denied"))
              (Some (lit "NotAllowedError"))
              (lit "NotAllowedError: Permission denied"))
    as ((_ & C & _ & _ & _ & (E & F & _) & _) & _).
  - vm_compute. discriminate.
  - reflexivity.
  - split; [exact E|]. split; [exact F | exact C].
Defined.
(** The component after a start, the session handle and the open callback,
    when every step succeeds. *)
Lemma opened_run key jd res io stream sess source proc tr k :
  trim key <> [] ->
  startFailure io k = None ->
  getUserMedia io = Fulfilled stream ->
  let l := live key jd res io stream sess source proc tr k in
  (outcome (afterStart l) = Done
   /\ connects (effects (afterStart l))
      = [LiveConnect (trim key) MODEL_NAME jd res]
   /\ connection (controller (component (afterStart l)))
      = mkConnection (sessionRef (connection (controller k)))
          (isSessionOpenRef (connection (controller k)))
          (isActive (connection (controller k))) true None
          (lit "Connecting to Gemini...") false
   /\ interviewContextRef (feedback (controller (component (afterStart l))))
      = mkInterviewContext jd res (trim key))
  /\ (outcome (afterOpen l) = Done
      /\ capture (controller (component (afterOpen l)))
         = mkCapture (Some proc) (Some source) (Some stream)
      /\ connection (controller (component (afterOpen l)))
         = mkConnection (Some sess) true true false None
             (lit "Connected! Starting interview...") false
      /\ sourcesRef (playback (controller (component (afterOpen l))))
         = sourcesRef (playback (controller k))
      /\ audioContextRef (component (afterOpen l)) <> None
      /\ outputAudioContextRef
           (playback (controller (component (afterOpen l)))) <> None
      /\ (audioContextRef k <> None ->
          outputAudioContextRef (playback (controller k)) <> None ->
          constructed (effects (afterStart l)) = []
          /\ audioContextRef (component (afterOpen l)) = audioContextRef k
          /\ outputAudioContextRef
               (playback (controller (component (afterOpen l))))
             = outputAudioContextRef (playback (controller k)))).
Proof.
  intros Hk Hf Hg. unfold live. cbn zeta.
  cbn [afterStart afterConnect afterOpen afterStop].
  rewrite (startSession_run key jd res io k Hk).
  destruct (trim key) as [|c0 key'] eqn:Ek; [contradiction|]. clear Hk.
  unfold startFailure in Hf. rewrite Hg in Hf.
  destruct k as [[[octx nst srcs spk made] tr0 cp f cn fb] a].
  destruct io as [gum nic noc ri ro].
  cbn [getUserMedia newInputContext newOutputContext resumeInput resumeOutput
       audioContextRef controller playback outputAudioContextRef] in Hf, Hg.
  subst gum.
  destruct cn as [se op ac co er sm sf].
  destruct a as [ctx|], nic as [ctx'|t1], octx as [octx|], noc as [octx'|t2],
    ri as [t3|], ro as [t4|]; try discriminate Hf; clear Hf;
    unfold startSteps; rewrite Ek; vm_compute;
    (split; [repeat split | repeat split; congruence]).
Qed.
Lemma stoppedTracks_did_no_stop l :
  Forall (fun a => match a with TrackStop _ => False | _ => True end) l ->
  stoppedTracks (map Did l) = [].
Proof.
  induction 1 as [|a l Ha _ IH]; [reflexivity|].
  destruct a; try contradiction; exact IH.
Qed.

Lemma closing_shape s :
  exists l, closing s = l
  /\ Forall (fun a => match a with
                      | TrackStop _ | NodeDisconnect _ => False
                      | _ => True
                      end) l.
Proof.
  eexists. split; [reflexivity|]. unfold closing.
  destruct (sessionRef (connection s)) as [[id [|] [e|]]|]; repeat constructor.
Qed.

Lemma feedbackRequest_shape tr s :
  Forall (fun a => match a with
                   | TrackStop _ | NodeDisconnect _ | SessionClose _ => False
                   | _ => True
                   end) (feedbackRequest tr s).
Proof.
  unfold feedbackRequest. destruct (feedbackDue tr s); repeat constructor.
Qed.

(** The tracks a stop stops are those of the stream held. *)
Lemma stoppedTracks_stop tr s :
  stoppedTracks (map Did (trace (stopSession tr s)))
  = match streamRef (capture s) with
    | Some m => getTracks m
    | None => []
    end.
Proof.
  rewrite stopSession_run. cbn [trace map].
  change (stoppedTracks (Did (ConsoleLog (lit "Stopping session...")) :: ?l))
    with (stoppedTracks l).
  rewrite !map_app, !stoppedTracks_app, stoppedTracks_teardown.
  rewrite (stoppedTracks_did_no_stop (closing s)).
  - rewrite (stoppedTracks_did_no_stop (feedbackRequest tr s)).
    + rewrite app_nil_r. reflexivity.
    + eapply Forall_impl; [|apply feedbackRequest_shape].
      intros a; destruct a; auto.
  - destruct (closing_shape s) as (l & -> & H).
    eapply Forall_impl; [|exact H]. intros a; destruct a; auto.
Qed.

Lemma disconnectedNodes_app l1 l2 :
  disconnectedNodes (l1 ++ l2) = disconnectedNodes l1 ++ disconnectedNodes l2.
Proof. apply flat_map_app. Qed.

Lemma disconnectedNodes_none l :
  Forall (fun a => match a with NodeDisconnect _ => False | _ => True end) l ->
  disconnectedNodes (map Did l) = [].
Proof.
  induction 1 as [|a l Ha _ IH]; [reflexivity|].
  destruct a; try contradiction; exact IH.
Qed.

(** The nodes a stop disconnects are those held, the processor first. *)
Lemma disconnectedNodes_stop tr s :
  disconnectedNodes (map Did (trace (stopSession tr s)))
  = some_list (scriptProcessorRef (capture s))
    ++ some_list (mediaSourceRef (capture s)).
Proof.
  rewrite stopSession_run. cbn [trace map].
  change (disconnectedNodes (Did (ConsoleLog (lit "Stopping session...")) :: ?l))
    with (disconnectedNodes l).
  rewrite !map_app, !disconnectedNodes_app.
  rewrite (disconnectedNodes_none (closing s)).
  - rewrite (disconnectedNodes_none (feedbackRequest tr s)).
    + rewrite app_nil_r. cbn [app]. unfold teardownOrder.
      rewrite !map_app, !disconnectedNodes_app.
      rewrite (disconnectedNodes_none [FlagSessionClosed]) by repeat constructor.
      rewrite (disconnectedNodes_none (released _)).
      * rewrite (disconnectedNodes_none (map SourceStop _)).
        -- rewrite (disconnectedNodes_none [SourcesCleared]),
             (disconnectedNodes_none [CursorReset]) by repeat constructor.
           rewrite !app_nil_r. cbn [app].
           destruct (scriptProcessorRef (capture s)),
             (mediaSourceRef (capture s)); reflexivity.
        -- apply Forall_forall. intros a Ha. apply in_map_iff in Ha.
           destruct Ha as (x & <- & _). exact I.
      * destruct (streamRef (capture s)) as [m|]; [|constructor].
        cbn [released]. apply Forall_app. split; [|repeat constructor].
        apply Forall_forall. intros a Ha. apply in_map_iff in Ha.
        destruct Ha as (x & <- & _). exact I.
    + eapply Forall_impl; [|apply feedbackRequest_shape].
      intros a; destruct a; auto.
  - destruct (closing_shape s) as (l & -> & H).
    eapply Forall_impl; [|exact H]. intros a; destruct a; auto.
Qed.

Lemma closedSessions_app l1 l2 :
  closedSessions (l1 ++ l2) = closedSessions l1 ++ closedSessions l2.
Proof. apply flat_map_app. Qed.

Lemma closedSessions_none l :
  Forall (fun a => match a with SessionClose _ => False | _ => True end) l ->
  closedSessions (map Did l) = [].
Proof.
  induction 1 as [|a l Ha _ IH]; [reflexivity|].
  destruct a; try contradiction; exact IH.
Qed.

Lemma teardownOrder_no_close s :
  Forall (fun a => match a with SessionClose _ => False | _ => True end)
    (teardownOrder s).
Proof.
  unfold teardownOrder. repeat (apply Forall_app; split);
    try (repeat constructor; fail).
  - destruct (scriptProcessorRef (capture s)); repeat constructor.
  - destruct (mediaSourceRef (capture s)); repeat constructor.
  - destruct (streamRef (capture s)) as [m|]; [|constructor].
    cbn [released]. apply Forall_app. split; [|repeat constructor].
    apply Forall_forall. intros a Ha. apply in_map_iff in Ha.
    destruct Ha as (x & <- & _). exact I.
  - apply Forall_forall. intros a Ha. apply in_map_iff in Ha.
    destruct Ha as (x & <- & _). exact I.
Qed.

(** A stop closes the session held, when it has a [close]. *)
Lemma closedSessions_stop tr s :
  closedSessions (map Did (trace (stopSession tr s)))
  = match sessionRef (connection s) with
    | Some sess => if hasClose sess then [sess] else []
    | None => []
    end.
Proof.
  rewrite stopSession_run. cbn [trace map].
  change (closedSessions (Did (ConsoleLog (lit "Stopping session...")) :: ?l))
    with (closedSessions l).
  rewrite !map_app, !closedSessions_app.
  rewrite (closedSessions_none (teardownOrder s)) by apply teardownOrder_no_close.
  rewrite (closedSessions_none (feedbackRequest tr s)).
  - rewrite !app_nil_r. unfold closing.
    destruct (sessionRef (connection s)) as [[id [|] [e|]]|]; reflexivity.
  - eapply Forall_impl; [|apply feedbackRequest_shape].
    intros a; destruct a; auto.
Qed.

(** A stop releases what the start acquired.  A session whose start
    succeeds makes exactly one connect call, with the trimmed key; once the
    open callback has run the interview is active, the stream, the two nodes
    and the session handle are held.  The stop then completes normally,
    stops every track of the stream, disconnects the processor and the
    source node, closes the session when it can, and leaves no capture ref,
    no session handle and all the flags down; only the two audio contexts
    stay, for the next session. *)
Theorem stop_releases_what_start_acquired (key jobDescription resumeContent
    : JsString) (io : StartEnv) (stream : MediaStream) (sess : Session)
    (source scriptProcessor : AudioNode) (tr : list TranscriptionEntry)
    (k : Component) :
  trim key <> [] ->
  startFailure io k = None ->
  getUserMedia io = Fulfilled stream ->
  let l := live key jobDescription resumeContent io stream sess source
             scriptProcessor tr k in
  connects (effects (afterStart l))
  = [LiveConnect (trim key) MODEL_NAME jobDescription resumeContent]
  /\ isActive (connection (controller (component (afterOpen l)))) = true
  /\ outcome (afterStop l) = Done
  /\ capture (controller (component (afterStop l))) = mkCapture None None None
  /\ connection (controller (component (afterStop l)))
     = mkConnection None false false false None [] false
  /\ stoppedTracks (effects (afterStop l)) = getTracks stream
  /\ disconnectedNodes (effects (afterStop l)) = [scriptProcessor; source]
  /\ closedSessions (effects (afterStop l))
     = (if hasClose sess then [sess] else [])
  /\ audioContextRef (component (afterStop l)) <> None
  /\ outputAudioContextRef (playback (controller (component (afterStop l))))
     <> None.
Proof.
  intros Hk Hf Hg.
  destruct (opened_run key jobDescription resumeContent io stream sess source
              scriptProcessor tr k Hk Hf Hg)
    as ((_ & Hc & _) & (_ & Hcap & Hconn & _ & Ha & Ho & _)).
  cbn zeta in *. split; [exact Hc|].
  split; [rewrite Hconn; reflexivity|].
  set (l := live _ _ _ _ _ _ _ _ _ _) in *.
  assert (E : afterStop l
              = lift (stopSession tr) (component (afterOpen l))) by reflexivity.
  rewrite E, lift_stopSession_run. cbn [outcome component effects].
  rewrite stoppedTracks_stop, disconnectedNodes_stop, closedSessions_stop.
  rewrite Hcap, Hconn. cbn [streamRef scriptProcessorRef mediaSourceRef
    sessionRef some_list app].
  split; [reflexivity|].
  destruct (component (afterOpen l)) as [[p t cp f cn fb] a].
  cbn in Hcap, Hconn, Ha, Ho |- *. subst cp cn.
  repeat split; try reflexivity; assumption.
Qed.

Lemma stop_releases_what_start_acquired_witness :
  let l := live (lit " key ") [] [] (granted (mkMediaStream [7%nat; 8%nat]))
             (mkMediaStream [7%nat; 8%nat]) (mkSession 1 true None)
             (mkAudioNode 2 None) (mkAudioNode 1 None) [] mounted in
  stoppedTracks (effects (afterStop l)) = [7%nat; 8%nat]
  /\ connects (effects (afterStart l))
     = [LiveConnect (lit "key") MODEL_NAME [] []].
Proof.
  cbn zeta.
  destruct (stop_releases_what_start_acquired (lit " key ") [] []
              (granted (mkMediaStream [7%nat; 8%nat]))
              (mkMediaStream [7%nat; 8%nat]) (mkSession 1 true None)
              (mkAudioNode 2 None) (mkAudioNode 1 None) [] mounted)
    as (C & _ & _ & _ & _ & T & _).
  - vm_compute. discriminate.
  - reflexivity.
  - reflexivity.
  - split; [exact T|]. rewrite C. vm_compute. reflexivity.
Defined.
(** A stop does not read the open flag or the status message, and does not
    touch the error. *)
Lemma stopSession_after_close tr s m :
  stopSession tr
    (onConnection (withStatusMessage m)
       (onConnection (withIsSessionOpen false) s))
  = stopSession tr s.
Proof.
  rewrite !stopSession_run.
  destruct s as [p t cp f [se op ac co er sm sf] fb]. reflexivity.
Qed.

Lemma stopSession_after_error tr s e :
  stopSession tr
    (onConnection (withError e) (onConnection (withIsSessionOpen false) s))
  = mkResult Normal (onConnection (withError e) (stopped tr s))
      (trace (stopSession tr s)).
Proof.
  rewrite !stopSession_run.
  destruct s as [p t cp f [se op ac co er sm sf] fb]. reflexivity.
Qed.

Lemma requested_did l : requested (map Did l) = requests l.
Proof.
  unfold requested, requests. induction l as [|a l IH]; [reflexivity|].
  destruct a; cbn; rewrite ?IH; reflexivity.
Qed.

Lemma onclose_run captured k :
  onclose captured k
  = mkRun Done (onApp (stopped captured) k)
      (Did (ConsoleLog (lit "Session closed:"))
         :: map Did (trace (stopSession captured (controller k)))).
Proof.
  unfold onclose, andThen, effect, setSessionOpen, setStatusMessage, modify.
  cbn [outcome component effects app].
  unfold lift, onApp. cbn [controller audioContextRef].
  rewrite stopSession_after_close, stopSession_run. reflexivity.
Qed.

Lemma onerror_run captured e k :
  onerror captured e k
  = mkRun Done
      (onApp (fun s =>
         onConnection
           (withError (Some (lit "Connection error: "
                             ++ describe e (lit "Unknown error occurred"))))
           (stopped captured s)) k)
      (Did (ConsoleError (lit "Session error:") (thrownError e))
         :: map Did (trace (stopSession captured (controller k)))).
Proof.
  unfold onerror, andThen, effect, setSessionOpen, setError, modify.
  cbn [outcome component effects app].
  unfold lift, onApp. cbn [controller audioContextRef].
  rewrite stopSession_after_error. reflexivity.
Qed.

(** A connection that closes or fails is answered by a stop.  The close
    callback leaves the component exactly as a stop does, with the effects of
    that stop after its log line: the status message it sets does not outlast
    the callback.  The error callback does the same and leaves its error
    message, which always carries a description.  Both stop with the
    transcript of the render that started the session: when that transcript
    was empty no feedback is requested, whatever has been said since. *)
Theorem connection_loss_is_a_stop (captured : list TranscriptionEntry)
    (e : Thrown) (k : Component) :
  let stop := lift (stopSession captured) k in
  let closed := onclose captured k in
  let failed := onerror captured e k in
  (outcome closed = Done
   /\ component closed = component stop
   /\ effects closed
      = Did (ConsoleLog (lit "Session closed:")) :: effects stop
   /\ statusMessage (connection (controller (component closed))) = [])
  /\ (outcome failed = Done
      /\ component failed
         = onApp (onConnection
             (withError (Some (lit "Connection error: "
                               ++ describe e (lit "Unknown error occurred")))))
             (component stop)
      /\ effects failed
         = Did (ConsoleError (lit "Session error:") (thrownError e))
             :: effects stop
      /\ describe e (lit "Unknown error occurred") <> [])
  /\ (captured = [] ->
      requested (effects closed) = [] /\ requested (effects failed) = []).
Proof.
  cbn zeta. rewrite onclose_run, onerror_run, lift_stopSession_run.
  cbn [outcome component effects].
  split; [|split].
  - repeat split; destruct k as [[p t cp f cn fb] a]; reflexivity.
  - split; [reflexivity|]. split; [reflexivity|]. split; [reflexivity|].
    destruct e as [|err name str]; cbn [describe]; [discriminate|].
    unfold orElse. destruct (message err); cbn [truthy]; [|discriminate].
    destruct str; cbn [truthy]; discriminate.
  - intros ->.
    change (requested (?a :: map Did ?l)) with (requested (map Did l)).
    rewrite requested_did, requests_of_stop_trace. split; reflexivity.
Qed.
(** ** Streaming the microphone *)

Lemma onaudioprocess_idle samples fails k :
  streaming k = false -> onaudioprocess samples fails k = mkRun Done k [].
Proof.
  unfold streaming, onaudioprocess, read.
  destruct (sessionRef (connection (controller k))); [|reflexivity].
  intros ->. reflexivity.
Qed.

Lemma runAudio_idle evs k :
  streaming k = false -> runAudio evs k = mkRun Done k [].
Proof.
  intros H. unfold runAudio. induction evs as [|ev evs IH]; [reflexivity|].
  cbn [inOrder]. unfold andThen. rewrite onaudioprocess_idle by exact H.
  cbn [outcome component effects]. rewrite IH. reflexivity.
Qed.

Lemma onaudioprocess_sent samples k :
  streaming k = true ->
  exists sess,
    sessionRef (connection (controller k)) = Some sess
    /\ onaudioprocess samples None k
       = mkRun Done k [SendAudio sess (AudioProcessing.createPcmBlob samples)].
Proof.
  unfold streaming, onaudioprocess, read.
  destruct (sessionRef (connection (controller k))) as [sess|]; [|discriminate].
  intros ->. exists sess. split; reflexivity.
Qed.

Lemma onaudioprocess_failed samples t k :
  streaming k = true ->
  exists sess,
    sessionRef (connection (controller k)) = Some sess
    /\ onaudioprocess samples (Some t) k
       = if hangsUp t then
           mkRun Done (onApp (onConnection (withIsSessionOpen false)) k)
             [SendAudio sess (AudioProcessing.createPcmBlob samples)]
         else
           mkRun Done k
             [SendAudio sess (AudioProcessing.createPcmBlob samples);
              Did (ConsoleError (lit "Error sending audio:") (thrownError t))].
Proof.
  unfold streaming, onaudioprocess, read, hangsUp.
  destruct (sessionRef (connection (controller k))) as [sess|]; [|discriminate].
  intros ->. exists sess. split; [reflexivity|].
  unfold tryCatch, andThen, effect, orRaise, raise.
  cbn [outcome component effects].
  destruct (isErrorInstance (thrownError t) && _); reflexivity.
Qed.

(** Every buffer of the microphone is sent, in order.  While the open flag
    is up and a session handle is held, and the sends succeed, each buffer
    the processor delivers is encoded and sent to the session, in the order
    of delivery; nothing else happens and the component is as before.  With
    the flag down or no handle, nothing is sent at all. *)
Theorem every_audio_buffer_is_sent (evs : list AudioEvent) (k : Component) :
  Forall (fun ev => audioSendFails ev = None) evs ->
  let r := runAudio evs k in
  outcome r = Done /\ component r = k
  /\ sentAudio (effects r)
     = (if streaming k
        then map (fun ev => AudioProcessing.createPcmBlob (inputData ev)) evs
        else [])
  /\ length (effects r) = (if streaming k then length evs else 0%nat).
Proof.
  intros Hall. cbn zeta. destruct (streaming k) eqn:Hs.
  - induction Hall as [|ev evs Hev _ IH]; [repeat split|].
    unfold runAudio. cbn [inOrder]. fold (runAudio evs).
    destruct (onaudioprocess_sent (inputData ev) k Hs) as (sess & _ & E).
    rewrite Hev. unfold andThen. rewrite E. cbn [outcome component effects].
    destruct IH as (O & C & S & L). unfold sentAudio in *.
    cbn [app flat_map map length]. rewrite O, C, S, L. repeat split.
  - rewrite runAudio_idle by exact Hs. repeat split.
Qed.

Lemma every_audio_buffer_is_sent_witness :
  let r := runAudio [mkAudioEvent clickChunk None; mkAudioEvent [] None]
             (mkComponent openState (Some 0%nat)) in
  map AudioProcessing.data (sentAudio (effects r))
  = [lit "AAAAAP8/"; []].
Proof.
  cbn zeta.
  destruct (every_audio_buffer_is_sent
              [mkAudioEvent clickChunk None; mkAudioEvent [] None]
              (mkComponent openState (Some 0%nat))) as (_ & _ & S & _).
  - repeat constructor.
  - rewrite S. vm_compute. reflexivity.
Defined.

(** A socket that has closed silences the microphone and the camera.  When
    a send of audio fails while the session is streaming, the buffer is
    dropped and the handler completes normally.  If the failure is an
    [Error] whose message speaks of a closing or closed socket, or of one
    that is not open, the open flag goes down and nothing is logged: from
    then on every buffer of the microphone and every frame of the camera is
    dropped without a send.  Any other failure is logged and changes
    nothing, so that the next buffer is sent again.  Whatever lowers the flag
    for a frame lowers it for a buffer. *)
Theorem closed_socket_silences_microphone (samples : list Q) (t : Thrown)
    (k : Component) :
  streaming k = true ->
  let r := onaudioprocess samples (Some t) k in
  outcome r = Done
  /\ sentAudio (effects r) = [AudioProcessing.createPcmBlob samples]
  /\ (hangsUp t = true ->
      length (effects r) = 1%nat
      /\ isSessionOpenRef (connection (controller (component r))) = false
      /\ (forall evs, runAudio evs (component r) = mkRun Done (component r) [])
      /\ (forall evs,
            runFramesOn evs (component r) = mkRun Done (component r) []))
  /\ (hangsUp t = false ->
      component r = k
      /\ In (Did (ConsoleError (lit "Error sending audio:") (thrownError t)))
           (effects r))
  /\ (looksClosed (thrownError t) = true -> hangsUp t = true).
Proof.
  intros Hs. cbn zeta.
  destruct (onaudioprocess_failed samples t k Hs) as (sess & Hsess & ->).
  destruct (hangsUp t) eqn:Hh; cbn [outcome component effects].
  - split; [reflexivity|]. split; [reflexivity|]. split.
    + intros _. split; [reflexivity|].
      split; [destruct k as [[p tr cp f cn fb] a]; reflexivity|]. split.
      * intros evs. apply runAudio_idle. unfold streaming.
        destruct k as [[p tr cp f cn fb] a]. cbn. 
        destruct (sessionRef cn); reflexivity.
      * intros evs. unfold runFramesOn, lift. rewrite runFrames_idle.
        -- destruct k as [[p tr cp f cn fb] a]. reflexivity.
        -- unfold forwarding. destruct k as [[p tr cp f cn fb] a]. cbn.
           destruct (sessionRef cn); reflexivity.
    + split; [discriminate|]. reflexivity.
  - split; [reflexivity|]. split; [reflexivity|]. split; [discriminate|].
    split.
    + intros _. split; [reflexivity|]. right. left. reflexivity.
    + unfold looksClosed, hangsUp in *. intros H.
      apply andb_true_iff in H. destruct H as (H1 & H2).
      rewrite H1, H2 in Hh. discriminate Hh.
Qed.

Lemma closed_socket_silences_microphone_witness :
  let r := onaudioprocess clickChunk (Some socketNotOpen)
             (mkComponent openState (Some 0%nat)) in
  isSessionOpenRef (connection (controller (component r))) = false
  /\ effects (runFramesOn (everySecond 7 6) (component r)) = [].
Proof.
  cbn zeta.
  destruct (closed_socket_silences_microphone clickChunk socketNotOpen
              (mkComponent openState (Some 0%nat)) eq_refl)
    as (_ & _ & H & _).
  destruct (H eq_refl) as (_ & F & _ & G).
  split; [exact F|]. rewrite G. reflexivity.
Defined.
(** ** The component under a run of events *)

Lemma constructed_app l1 l2 :
  constructed (l1 ++ l2) = constructed l1 ++ constructed l2.
Proof. apply filter_app. Qed.

Lemma constructed_did l : constructed (map Did l) = [].
Proof. induction l as [|a l IH]; [reflexivity|]. exact IH. Qed.

(** Commands of the controller construct nothing and leave the capture
    context alone. *)
Lemma lift_contexts (c : Cmd) k :
  outputAudioContextRef (playback (state (c (controller k))))
  = outputAudioContextRef (playback (controller k)) ->
  constructed (effects (lift c k)) = []
  /\ contexts (component (lift c k)) = contexts k.
Proof.
  intros H. unfold lift, contexts. cbn [effects component audioContextRef
    controller]. rewrite H. split; [apply constructed_did | reflexivity].
Qed.

Lemma handleAudioOutput_context env msg s :
  outputAudioContextRef (playback (state (handleAudioOutput env msg s)))
  = outputAudioContextRef (playback s).
Proof.
  destruct (audioOf msg) as [d|] eqn:Hd.
  - destruct (outputAudioContextRef (playback s)) as [ctx|] eqn:Hc.
    + destruct (decodedChunk d) as [b|] eqn:Hb.
      * rewrite (handleAudioOutput_enqueues env msg s d ctx b Hd Hc Hb).
        cbn. exact Hc.
      * destruct (handleAudioOutput_throws env msg s d ctx Hd Hc Hb)
          as [e ->]. cbn. exact Hc.
    + rewrite (handleAudioOutput_no_context env msg s d Hd Hc).
      cbn. exact Hc.
  - rewrite (handleAudioOutput_none env msg s Hd). reflexivity.
Qed.

Lemma handleMessage_context env msg s :
  outputAudioContextRef (playback (state (handleMessage env msg s)))
  = outputAudioContextRef (playback s).
Proof.
  rewrite handleMessage_of_body.
  assert (H : outputAudioContextRef
                (playback (state (handleMessageBody env msg s)))
              = outputAudioContextRef (playback s)).
  { destruct (completion (handleAudioOutput env msg s)) as [|e] eqn:Ha.
    - destruct (handleMessageBody_normal env msg s Ha) as (_ & ->).
      rewrite afterAudio_playback, handleInterruptions_run.
      destruct (interruptedOf msg); apply handleAudioOutput_context.
    - rewrite (handleMessageBody_abrupt env msg s e Ha).
      apply handleAudioOutput_context. }
  destruct (completion (handleMessageBody env msg s)); exact H.
Qed.

Lemma startFailed_nullish_run k :
  startFailed Nullish k
  = mkRun (Threw TYPE_ERROR)
      (onApp (fun s =>
         onConnection (fun c =>
           mkConnection (sessionRef c) false (isActive c) false (error c)
             (statusMessage c) true)
           (cleaned s)) k)
      (Did (ConsoleError (lit "Failed to start session:") (mkJsError false []))
         :: map Did (teardownOrder (controller k))).
Proof.
  unfold startFailed. cbn [thrownError].
  unfold andThen at 1. cbn [effect outcome component effects].
  rewrite andThen_done by (rewrite lift_cleanup_run; reflexivity).
  rewrite lift_cleanup_run. cbn [outcome component effects].
  destruct k as [[p t cp f cn fb] a]. cbn. rewrite app_nil_r. reflexivity.
Qed.

Lemma startFailed_contexts t k :
  constructed (effects (startFailed t k)) = []
  /\ contexts (component (startFailed t k)) = contexts k.
Proof.
  destruct t as [|err name str].
  - rewrite startFailed_nullish_run. cbn [effects component]. split.
    + apply (constructed_did (ConsoleError _ _ :: teardownOrder (controller k))).
    + destruct k as [[p tr cp f cn fb] a]. reflexivity.
  - rewrite startFailed_run. cbn [effects component]. split.
    + apply (constructed_did (ConsoleError _ _ :: teardownOrder (controller k))).
    + destruct k as [[p tr cp f cn fb] a]. reflexivity.
Qed.

Lemma contextStep_same k r :
  constructed (effects r) = [] -> contexts (component r) = contexts k ->
  contextStep k r.
Proof.
  unfold contextStep, contexts, missing, keeps. intros -> [= -> ->].
  split; [reflexivity|].
  destruct (audioContextRef k),
    (outputAudioContextRef (playback (controller k))); auto.
Qed.

Lemma startSteps_contexts key jd res io k :
  contextStep k (startSteps key jd res io k).
Proof.
  destruct k as [[[octx nst srcs spk made] tr cp f cn fb] a].
  destruct io as [gum nic noc ri ro].
  destruct gum as [stream|t0], a as [ctx|], nic as [ctx'|t1], octx as [octx|],
    noc as [octx'|t2], ri as [t3|], ro as [t4|];
    vm_compute; repeat split.
Qed.

Lemma contextStep_trans k r1 r2 :
  contextStep k r1 -> contextStep (component r1) r2 ->
  contextStep k (mkRun (outcome r2) (component r2) (effects r1 ++ effects r2)).
Proof.
  unfold contextStep, keeps. cbn [effects component].
  intros (L1 & A1 & O1) (L2 & A2 & O2). rewrite constructed_app, length_app.
  split; [lia|].
  destruct (audioContextRef k),
    (outputAudioContextRef (playback (controller k)));
    rewrite ?A1, ?O1 in *; auto.
Qed.

(** What one event does to the contexts. *)
Lemma handle_contexts ev k : contextStep k (handle ev k).
Proof.
  destruct ev as [key jd res io|o|stream source proc|[samples fails]|env msg
                  |src| |fev|captured e|captured| |o| ]; cbn [handle].
  - (* Start *)
    destruct (trim key) as [|c0 key'] eqn:Ek.
    + unfold startSession. rewrite Ek.
      apply contextStep_same; destruct k as [[p tr cp f cn fb] a]; reflexivity.
    + rewrite startSession_run by (rewrite Ek; discriminate).
      set (k1 := onApp _ k).
      assert (Hk1 : forall r, contextStep k1 r -> contextStep k r)
        by (destruct k as [[p tr cp f cn fb] a]; auto).
      apply Hk1. unfold tryCatch.
      pose proof (startSteps_contexts key jd res io k1) as Hs.
      destruct (outcome (startSteps key jd res io k1)) as [|t] eqn:Ho.
      * exact Hs.
      * apply contextStep_trans; [exact Hs|].
        apply contextStep_same; apply startFailed_contexts.
  - (* connect settled *)
    destruct o as [sess|t]; cbn [connectSettled].
    + apply contextStep_same; destruct k as [[p tr cp f cn fb] a]; reflexivity.
    + apply contextStep_same; apply startFailed_contexts.
  - (* open *)
    destruct k as [[p tr cp f cn fb] [ctx|]];
      apply contextStep_same; reflexivity.
  - (* audio *)
    cbn [inputData audioSendFails].
    destruct (streaming k) eqn:Hs.
    + destruct fails as [t|].
      * destruct (onaudioprocess_failed samples t k Hs) as (sess & _ & ->).
        destruct (hangsUp t); apply contextStep_same;
          destruct k as [[p tr cp f cn fb] a]; reflexivity.
      * destruct (onaudioprocess_sent samples k Hs) as (sess & _ & ->).
        apply contextStep_same; reflexivity.
    + rewrite (onaudioprocess_idle samples fails k Hs).
      apply contextStep_same; reflexivity.
  - (* message *)
    apply contextStep_same; apply lift_contexts, handleMessage_context.
  - (* source ended *)
    apply contextStep_same; apply lift_contexts;
      unfold onended, seq, get, update, when, setIsSpeaking, skip; cbn;
      destruct (length _ =? 0)%nat; reflexivity.
  - (* animation frame *)
    apply contextStep_same; apply lift_contexts; reflexivity.
  - (* video frame *)
    apply contextStep_same; apply lift_contexts.
    + destruct (forwarding (controller k)) eqn:Hf.
      * destruct (sendFails fev) as [e|] eqn:He.
        -- destruct (handleFrameEvent_failed fev (controller k) e Hf He)
             as (sess & _ & ->).
           destruct (looksClosed e); reflexivity.
        -- destruct (handleFrameEvent_sent fev (controller k) Hf He)
             as (_ & _ & _ & -> & _). reflexivity.
      * rewrite (handleFrameEvent_idle fev (controller k) Hf). reflexivity.
    + destruct (forwarding (controller k)) eqn:Hf.
      * destruct (sendFails fev) as [e|] eqn:He.
        -- destruct (handleFrameEvent_failed fev (controller k) e Hf He)
             as (sess & _ & ->).
           destruct (looksClosed e); reflexivity.
        -- destruct (handleFrameEvent_sent fev (controller k) Hf He)
             as (_ & _ & _ & -> & _). reflexivity.
      * rewrite (handleFrameEvent_idle fev (controller k) Hf). reflexivity.
  - (* error *)
    rewrite onerror_run. apply contextStep_same.
    + apply (constructed_did (ConsoleError _ _ :: _)).
    + destruct k as [[p tr cp f cn fb] a]. reflexivity.
  - (* close *)
    rewrite onclose_run. apply contextStep_same.
    + apply (constructed_did (ConsoleLog _ :: _)).
    + destruct k as [[p tr cp f cn fb] a]. reflexivity.
  - (* stop *)
    apply contextStep_same; apply lift_contexts; unfold get;
      rewrite stopSession_run; reflexivity.
  - (* feedback settled *)
    apply contextStep_same; apply lift_contexts;
      rewrite generateFeedbackSettled_run; destruct o; reflexivity.
  - (* new interview *)
    apply contextStep_same; destruct k as [[p tr cp f cn fb] a]; reflexivity.
Qed.

(** The audio contexts are made once.  Over any run of events, in any order
    and from any state of the component, a context is constructed only into
    a ref that is empty, and a ref that holds a context keeps that very
    context: the contexts constructed and the refs still empty add up to the
    refs that were empty at the start.  So at most two contexts are
    constructed however many sessions are started, none while both refs are
    filled, and no handler drops one. *)
Theorem audio_contexts_are_made_once (evs : list Event) (k : Component) :
  let after := runEvents evs k in
  (length (constructed (snd after)) + missing (fst after) = missing k)%nat
  /\ keeps (audioContextRef k) (audioContextRef (fst after))
  /\ keeps (outputAudioContextRef (playback (controller k)))
       (outputAudioContextRef (playback (controller (fst after))))
  /\ (length (constructed (snd after)) <= 2)%nat.
Proof.
  cbn zeta.
  assert (H : contextStep k (mkRun Done (fst (runEvents evs k))
                               (snd (runEvents evs k)))).
  { revert k. induction evs as [|ev evs IH]; intros k.
    - apply contextStep_same; reflexivity.
    - cbn [runEvents fst snd].
      apply (contextStep_trans k (handle ev k)
               (mkRun Done (fst (runEvents evs (component (handle ev k))))
                  (snd (runEvents evs (component (handle ev k)))))).
      + apply handle_contexts.
      + apply IH. }
  destruct H as (L & A & O). cbn [effects component] in *.
  repeat split; try assumption.
  assert (missing k <= 2)%nat
    by (unfold missing; destruct (audioContextRef k),
          (outputAudioContextRef (playback (controller k))); cbn; lia).
  lia.
Qed.

(** Two sessions on one page: the contexts of the first serve the second. *)
Example contexts_of_two_sessions :
  constructed (snd (runEvents twoSessions mounted))
  = [NewAudioContext 16000 1; NewAudioContext 24000 2]
  /\ stoppedTracks (snd (runEvents twoSessions mounted)) = [7%nat; 9%nat]
  /\ contexts (fst (runEvents twoSessions mounted))
     = (Some 1%nat, Some 2%nat).
Proof. vm_compute. repeat split. Qed.

(* ================================================================== *)
(** * Properties of the camera preview *)
(* ================================================================== *)

Module PreviewProperties.
Import Lifecycle VideoPreview.

Lemma stops_app l1 l2 : stops (l1 ++ l2) = stops l1 ++ stops l2.
Proof. apply flat_map_app. Qed.

Lemma stops_tracks l : stops (map TrackStop l) = l.
Proof.
  unfold stops. induction l as [|a l IH]; [reflexivity|].
  cbn. f_equal. exact IH.
Qed.

Lemma grants_cons ev evs : grants (ev :: evs) = grants [ev] ++ grants evs.
Proof. unfold grants. cbn [flat_map]. rewrite app_nil_r. reflexivity. Qed.

(** Events that neither grant a stream nor unmount leave the stream ref and
    the [mounted] variable alone, and stop no track. *)
Lemma handle_other ev p :
  isMount ev = false -> isUnmount ev = false -> grants [ev] = [] ->
  let r := handle ev p in
  mounted (preview r) = mounted p
  /\ streamRef (preview r) = streamRef p
  /\ stops (calls r) = [].
Proof.
  destruct ev as [ |[stream|err] video|video|[e|]| |a f id|shot];
    try discriminate; intros _ _ _; cbn zeta; cbn [handle].
  - unfold cameraSettled. destruct (mounted p) eqn:Hm; [|cbn; auto].
    destruct err; cbn; auto.
  - destruct (onloadedmetadata p); [|cbn; auto].
    unfold loadedmetadata. cbn. destruct (mounted p && video); cbn; auto.
  - cbn. auto.
  - cbn. auto.
  - unfold frameEffect, clearFrames.
    destruct (interval p); cbn;
      destruct (a && f && _); cbn; auto.
  - destruct (interval p); [|cbn; auto]. unfold tick.
    destruct (videoWidth shot); [|cbn; auto].
    destruct (canvas shot && _); [|cbn; auto].
    destruct (context2d shot); cbn; auto.
Qed.

Lemma unmount_run p :
  let r := handle Unmounted p in
  mounted (preview r) = false /\ streamRef (preview r) = None
  /\ stops (calls r)
     = match streamRef p with
       | Some stream => getTracks stream
       | None => []
       end.
Proof.
  cbn zeta. cbn [handle]. unfold unmount, clearFrames.
  destruct p as [m [stream|] so ol cs em [id|]]; cbn;
    rewrite ?stops_app, ?stops_tracks, ?app_nil_r; repeat split.
Qed.

Lemma granted_run stream video p :
  let r := handle (CameraSettled (Fulfilled stream) video) p in
  mounted (preview r) = mounted p
  /\ streamRef (preview r)
     = (if mounted p then Some stream else streamRef p)
  /\ stops (calls r) = (if mounted p then [] else getTracks stream).
Proof.
  cbn zeta. cbn [handle]. unfold cameraSettled.
  destruct (mounted p) eqn:Hm; cbn [negb].
  - destruct video; cbn; rewrite ?Hm; repeat split.
  - cbn. rewrite Hm, stops_tracks. repeat split.
Qed.

(** After the unmount, nothing is held and a stream that is granted is
    stopped at once. *)
Lemma after_unmount evs : forall p,
  forallb (fun ev => negb (isMount ev)) evs = true ->
  mounted p = false -> streamRef p = None ->
  let after := runEvents evs p in
  mounted (fst after) = false /\ streamRef (fst after) = None
  /\ stops (snd after) = flat_map getTracks (grants evs).
Proof.
  induction evs as [|ev evs IH]; intros p Hone Hm Hs; cbn zeta.
  - repeat split; assumption.
  - cbn [forallb] in Hone. apply andb_true_iff in Hone.
    destruct Hone as (Hev & Hone). apply negb_true_iff in Hev.
    cbn [runEvents fst snd]. rewrite stops_app.
    rewrite grants_cons, flat_map_app.
    assert (Hstep : mounted (preview (handle ev p)) = false
                    /\ streamRef (preview (handle ev p)) = None
                    /\ stops (calls (handle ev p))
                       = flat_map getTracks (grants [ev])).
    { destruct (isUnmount ev) eqn:Hu.
      - destruct ev; try discriminate.
        destruct (unmount_run p) as (A & B & C). rewrite Hs in C. auto.
      - destruct (grants [ev]) as [|s l] eqn:Hg.
        + destruct (handle_other ev p Hev Hu Hg) as (A & B & C).
          rewrite A, B, C. auto.
        + destruct ev as [ |[stream|err] video|video|[e|]| |a f id|shot];
            try discriminate Hg.
          cbn in Hg. injection Hg as <- <-.
          destruct (granted_run stream video p) as (A & B & C).
          rewrite Hm in A, B, C. rewrite A, B, C, Hs.
          cbn [flat_map]. rewrite app_nil_r. auto. }
    destruct Hstep as (A & B & C).
    destruct (IH (preview (handle ev p)) Hone A B) as (A' & B' & C').
    rewrite C, C'. auto.
Qed.

(** While a stream is held, it is stopped at the unmount. *)
Lemma while_held evs : forall p stream,
  forallb (fun ev => negb (isMount ev)) evs = true ->
  mounted p = true -> streamRef p = Some stream ->
  grants evs = [] -> existsb isUnmount evs = true ->
  let after := runEvents evs p in
  streamRef (fst after) = None /\ stops (snd after) = getTracks stream.
Proof.
  induction evs as [|ev evs IH]; intros p stream Hone Hm Hs Hg Hu; cbn zeta.
  - discriminate Hu.
  - cbn [forallb] in Hone. apply andb_true_iff in Hone.
    destruct Hone as (Hev & Hone). apply negb_true_iff in Hev.
    rewrite grants_cons in Hg.
    apply app_eq_nil in Hg. destruct Hg as (Hg1 & Hg2).
    cbn [runEvents fst snd]. rewrite stops_app.
    destruct (isUnmount ev) eqn:Hue.
    + destruct ev; try discriminate.
      destruct (unmount_run p) as (A & B & C). rewrite Hs in C.
      destruct (after_unmount evs (preview (handle Unmounted p)) Hone A B)
        as (_ & B' & C').
      rewrite C, C', Hg2. cbn. rewrite app_nil_r. auto.
    + cbn [existsb] in Hu. rewrite Hue in Hu. cbn [orb] in Hu.
      destruct (handle_other ev p Hev Hue Hg1) as (A & B & C).
      destruct (IH (preview (handle ev p)) stream Hone) as (B' & C');
        try congruence.
      rewrite C, C'. auto.
Qed.

(** The camera is released whatever the order.  In one life of the
    component, from the mount on, if the camera grants one stream and the
    component is unmounted, then every track of that stream is stopped,
    exactly once, and no stream is held in the end: whether the stream
    arrives before the unmount, and is stopped by the cleanup, or after it,
    and is stopped on arrival; and whatever else happens in between. *)
Theorem camera_is_released_in_any_order (evs : list Event)
    (stream : MediaStream) (p : Preview) :
  mounted p = true -> streamRef p = None ->
  forallb (fun ev => negb (isMount ev)) evs = true ->
  grants evs = [stream] ->
  existsb isUnmount evs = true ->
  let after := runEvents evs p in
  streamRef (fst after) = None /\ stops (snd after) = getTracks stream.
Proof.
  revert p. induction evs as [|ev evs IH]; intros p Hm Hs Hone Hg Hu;
    cbn zeta; [discriminate Hu|].
  cbn [forallb] in Hone. apply andb_true_iff in Hone.
  destruct Hone as (Hev & Hone). apply negb_true_iff in Hev.
  rewrite grants_cons in Hg.
  cbn [runEvents fst snd]. rewrite stops_app.
  destruct (isUnmount ev) eqn:Hue.
  - destruct ev; try discriminate. cbn [grants flat_map app] in Hg.
    fold (grants evs) in Hg.
    destruct (unmount_run p) as (A & B & C). rewrite Hs in C.
    destruct (after_unmount evs (preview (handle Unmounted p)) Hone A B)
      as (_ & B' & C').
    rewrite C, C', Hg. cbn. rewrite app_nil_r. auto.
  - cbn [existsb] in Hu. rewrite Hue in Hu. cbn [orb] in Hu.
    destruct (grants [ev]) as [|s l] eqn:Hg1.
    + destruct (handle_other ev p Hev Hue Hg1) as (A & B & C).
      destruct (IH (preview (handle ev p))) as (B' & C');
        [congruence | congruence | exact Hone | exact Hg | exact Hu |].
      rewrite C, C'. auto.
    + destruct ev as [ |[stream'|err] video|video|[e|]| |a f id|shot];
        try discriminate Hg1.
      cbn in Hg1. injection Hg1 as <- <-.
      cbn [app] in Hg. injection Hg as -> Hg2.
      destruct (granted_run stream video p) as (A & B & C).
      rewrite Hm in A, B, C.
      destruct (while_held evs
                  (preview (handle (CameraSettled (Fulfilled stream) video) p))
                  stream Hone A B Hg2 Hu) as (B' & C').
      rewrite C, C'. auto.
Qed.

Lemma camera_is_released_in_any_order_witness :
  stops (snd (runEvents leftEarly (preview (startPreview rendered))))
  = [3%nat; 4%nat]
  /\ stops (snd (runEvents leftLate (preview (startPreview rendered))))
     = [3%nat; 4%nat].
Proof.
  split.
  - apply (camera_is_released_in_any_order leftEarly webcam
             (preview (startPreview rendered))); reflexivity.
  - apply (camera_is_released_in_any_order leftLate webcam
             (preview (startPreview rendered))); reflexivity.
Defined.
Lemma liveTimers_app l1 l2 : forall live,
  liveTimers (l1 ++ l2) live = liveTimers l2 (liveTimers l1 live).
Proof.
  induction l1 as [|c l1 IH]; intros live; [reflexivity|].
  destruct c; cbn [app liveTimers]; apply IH.
Qed.

Lemma liveTimers_tracks l live :
  liveTimers (map TrackStop l) live = live.
Proof. induction l as [|a l IH]; [reflexivity|]. exact IH. Qed.

Lemma clearFrames_timer p :
  liveTimers (calls (clearFrames p)) (held p) = []
  /\ held (preview (clearFrames p)) = [].
Proof.
  unfold clearFrames, held. destruct p as [m st so ol cs em [id|]]; cbn.
  - rewrite Nat.eqb_refl. split; reflexivity.
  - split; reflexivity.
Qed.

(** What one event does to the timer. *)
Lemma handle_timer ev p :
  liveTimers (calls (handle ev p)) (held p) = held (preview (handle ev p)).
Proof.
  destruct ev as [ |[stream|err] video|video|[e|]| |a f id|shot];
    cbn [handle].
  - reflexivity.
  - unfold cameraSettled. destruct (mounted p); cbn [negb].
    + destruct video; reflexivity.
    + cbn [calls preview]. apply liveTimers_tracks.
  - unfold cameraSettled. destruct (mounted p); [|reflexivity].
    destruct err; reflexivity.
  - destruct (onloadedmetadata p); [|reflexivity].
    unfold loadedmetadata. destruct (mounted p && video); reflexivity.
  - reflexivity.
  - reflexivity.
  - cbn [calls preview]. rewrite liveTimers_app.
    assert (H : liveTimers (calls (unmount p)) (held p)
                = held (preview (unmount p))
                /\ held (preview (unmount p)) = held p).
    { unfold unmount. destruct p as [m [stream|] so ol cs em iv]; cbn;
        rewrite ?liveTimers_tracks; auto. }
    destruct H as (-> & _).
    destruct (clearFrames_timer (preview (unmount p))) as (-> & ->).
    reflexivity.
  - unfold frameEffect.
    destruct (clearFrames_timer p) as (H1 & H2).
    destruct (a && f && _); [|rewrite H1, H2; reflexivity].
    cbn [calls preview]. rewrite liveTimers_app, H1. reflexivity.
  - destruct (interval p) eqn:Hi; [|reflexivity]. unfold tick.
    destruct (videoWidth shot); [|reflexivity].
    destruct (canvas shot && _); [|reflexivity].
    destruct (context2d shot); reflexivity.
Qed.

(** One frame timer at a time.  Over any run of events the timers that have
    been set and not cleared are exactly the one the component holds, if it
    holds one: a new timer is set only after the one before is cleared, so no
    timer is left ticking behind the component's back.  After an unmount
    none is left at all, and a tick that finds no timer hands nothing
    over. *)
Theorem one_frame_timer_at_a_time (evs : list Event) (p : Preview) :
  let after := runEvents evs p in
  liveTimers (snd after) (held p) = held (fst after)
  /\ (length (held (fst after)) <= 1)%nat
  /\ held (fst (runEvents (evs ++ [Unmounted]) p)) = []
  /\ (forall shot,
        held (fst after) = [] ->
        calls (handle (Tick shot) (fst after)) = []).
Proof.
  cbn zeta.
  assert (H : forall evs p,
             liveTimers (snd (runEvents evs p)) (held p)
             = held (fst (runEvents evs p))).
  { clear. induction evs as [|ev evs IH]; intros p; [reflexivity|].
    cbn [runEvents fst snd]. rewrite liveTimers_app, handle_timer. apply IH. }
  split; [apply H|]. split.
  - unfold held. destruct (interval _); cbn; lia.
  - split.
    + clear H. revert p. induction evs as [|ev evs IH]; intros p.
      * cbn [app runEvents fst]. cbn [handle preview].
        apply clearFrames_timer.
      * cbn [app runEvents fst]. apply IH.
    + intros shot Hh. cbn [handle]. unfold held in Hh.
      destruct (interval _); [discriminate|reflexivity].
Qed.

Lemma handedOver_app l1 l2 :
  handedOver (l1 ++ l2) = handedOver l1 ++ handedOver l2.
Proof. apply flat_map_app. Qed.

(** Without a timer, an event hands no frame over; and it sets a timer only
    if it is a render that asks for frames while the camera is ready. *)
Lemma handedOver_tracks l : handedOver (map TrackStop l) = [].
Proof. induction l as [|a l IH]; [reflexivity | exact IH]. Qed.

Ltac idle Hn :=
  cbn; unfold isReady; cbn;
  split; [reflexivity|];
  split;
    [ first [intros H; exact (Hn _ H) | intros _; split; reflexivity]
    | first [intros H; left; exact H | intros _; right; reflexivity
            | discriminate] ].

Lemma handle_idle ev p :
  interval p = None ->
  handedOver (calls (handle ev p)) = []
  /\ (interval (preview (handle ev p)) <> None ->
      asksForFrames ev = true /\ isReady p = true)
  /\ (isReady (preview (handle ev p)) = true ->
      isReady p = true \/ playsVideo ev = true).
Proof.
  intros Hi. destruct p as [m st so ol cs em iv]. cbn in Hi. subst iv.
  assert (Hn : forall A : Prop, @None nat <> None -> A)
    by (intros A H; exfalso; apply H; reflexivity).
  destruct ev as [ |[stream|err] video|video|[e|]| |a f id|shot];
    cbn [handle].
  - idle Hn.
  - unfold cameraSettled. cbn [mounted]. destruct m; cbn [negb].
    + destruct video; idle Hn.
    + cbn [calls preview interval]. rewrite handedOver_tracks. idle Hn.
  - unfold cameraSettled. cbn [mounted]. destruct m.
    + destruct err; idle Hn.
    + idle Hn.
  - cbn [onloadedmetadata]. destruct ol; [|idle Hn].
    unfold loadedmetadata. destruct (mounted _ && video); idle Hn.
  - idle Hn.
  - idle Hn.
  - unfold unmount, clearFrames. destruct st as [stream|]; cbn.
    + rewrite app_nil_r, handedOver_tracks. idle Hn.
    + idle Hn.
  - unfold frameEffect, clearFrames. cbn [interval preview calls cameraState].
    destruct a, f, cs; idle Hn.
  - idle Hn.
Qed.

(** No frame before the camera is ready, none while the interview is
    inactive.  From a component that holds no timer, a run of events hands
    no frame to the parent and leaves no timer, however often the timer's
    callback is tried, as long as the camera is not ready and no video starts
    to play, or as long as no render asks for frames. *)
Theorem no_frame_unless_ready_and_active (evs : list Event) (p : Preview) :
  interval p = None ->
  (isReady p = false /\ existsb playsVideo evs = false)
  \/ existsb asksForFrames evs = false ->
  let after := runEvents evs p in
  handedOver (snd after) = [] /\ interval (fst after) = None.
Proof.
  revert p. induction evs as [|ev evs IH]; intros p Hi Hc; cbn zeta;
    [auto|].
  cbn [runEvents fst snd]. rewrite handedOver_app.
  destruct (handle_idle ev p Hi) as (H1 & H2 & H3).
  assert (Hi' : interval (preview (handle ev p)) = None).
  { destruct (interval (preview (handle ev p))) eqn:E; [|reflexivity].
    destruct H2 as (Ha & Hr); [congruence|].
    destruct Hc as [(Hn & _) | Hn]; [congruence|].
    cbn [existsb] in Hn. rewrite Ha in Hn. discriminate. }
  destruct (IH (preview (handle ev p)) Hi') as (A & B).
  - destruct Hc as [(Hn & Hp) | Hn].
    + left. cbn [existsb] in Hp. apply orb_false_iff in Hp.
      destruct Hp as (Hp1 & Hp2). split; [|exact Hp2].
      destruct (isReady (preview (handle ev p))) eqn:E; [|reflexivity].
      destruct (H3 eq_refl); congruence.
    + right. cbn [existsb] in Hn. apply orb_false_iff in Hn. apply Hn.
  - rewrite H1, A. auto.
Qed.

Lemma no_frame_unless_ready_and_active_witness :
  handedOver (snd (runEvents activeBeforeReady (preview (startPreview rendered))))
  = [].
Proof.
  apply (no_frame_unless_ready_and_active activeBeforeReady
           (preview (startPreview rendered)) eq_refl).
  left. split; reflexivity.
Defined.

(** Once the video plays and the interview is active, the same ticks hand
    their frames over. *)
Example frames_when_ready_and_active :
  handedOver (snd (runEvents leftLate (preview (startPreview rendered))))
  = [Some (lit "QUJD")].
Proof. vm_compute. reflexivity. Qed.

End PreviewProperties.

(* ================================================================== *)
(** * Properties of the prompts and of the feedback view *)
(* ================================================================== *)

(** ** Trimming *)

Lemma trimStart_nil s : trimStart s = [] <-> forallb isWhiteSpace s = true.
Proof.
  induction s as [|c r IH]; [split; reflexivity|].
  cbn [trimStart forallb]. destruct (isWhiteSpace c); cbn [andb].
  - exact IH.
  - split; discriminate.
Qed.

Lemma forallb_rev {A : Type} (p : A -> bool) l :
  forallb p (rev l) = forallb p l.
Proof.
  induction l as [|a l IH]; [reflexivity|].
  cbn [rev forallb]. rewrite forallb_app, IH. cbn. rewrite andb_true_r.
  apply andb_comm.
Qed.

Lemma trimStart_head s :
  trimStart s = []
  \/ exists c r, trimStart s = c :: r /\ isWhiteSpace c = false.
Proof.
  induction s as [|c r IH]; [left; reflexivity|].
  cbn [trimStart]. destruct (isWhiteSpace c) eqn:E; [exact IH|].
  right. exists c, r. auto.
Qed.

(** A string trims to nothing exactly when it is white space throughout. *)
Lemma trim_nil s : trim s = [] <-> forallb isWhiteSpace s = true.
Proof.
  unfold trim, trimEnd. split.
  - intros H. apply (f_equal (@rev Z)) in H. rewrite rev_involutive in H.
    cbn in H. apply trimStart_nil in H. rewrite forallb_rev in H.
    destruct (trimStart_head s) as [E | (c & r & E & Hc)].
    + apply trimStart_nil. exact E.
    + rewrite E in H. cbn in H. rewrite Hc in H. discriminate.
  - intros H. apply trimStart_nil in H. rewrite H. reflexivity.
Qed.

Lemma trim_head c r : isWhiteSpace c = false -> trim (c :: r) <> [].
Proof.
  intros Hc H. apply trim_nil in H. cbn in H. rewrite Hc in H. discriminate.
Qed.

Module PromptProperties.
Import Prompts.

Lemma present_trimmed x : present x = truthy (trimmed x).
Proof.
  destruct x as [s|]; [|reflexivity]. cbn [present trimmed].
  destruct s as [|c r]; [reflexivity|]. reflexivity.
Qed.

(** The feedback prompt reads its arguments trimmed.  The prompt for the
    synthesizer depends on the job description and on the resume only
    through their trimmed text: padding them with white space changes
    nothing, and a text of white space only is as good as none. *)
Theorem feedback_prompt_reads_trimmed_text (c : Copy)
    (jd jd' resume_ resume' : option JsString) :
  trimmed jd = trimmed jd' -> trimmed resume_ = trimmed resume' ->
  getFeedbackPrompt c jd resume_ = getFeedbackPrompt c jd' resume'.
Proof.
  intros Hj Hr. unfold getFeedbackPrompt.
  rewrite !present_trimmed, Hj, Hr. reflexivity.
Qed.

Lemma feedback_prompt_reads_trimmed_text_witness :
  getFeedbackPrompt sampleCopy (Some (lit "  ")) (Some (lit " cv "))
  = getFeedbackPrompt sampleCopy None (Some (lit "cv"))
  /\ getFeedbackPrompt sampleCopy None (Some (lit "cv"))
     = lit "<feedback><resume-alignment><next-steps><resume:cv>".
Proof.
  split; [|vm_compute; reflexivity].
  apply (feedback_prompt_reads_trimmed_text sampleCopy);
    vm_compute; reflexivity.
Defined.

(** The system instruction takes a blank resume for a resume.  The
    instruction for the interviewer depends on the job description only
    through its trimmed text, and on the resume through its trimmed text and
    through whether it is empty.  So a resume of white space only, which
    contributes no resume section, still changes the instruction: the
    interviewer is told to acknowledge a resume it is not given. *)
Theorem system_instruction_takes_blank_resume_for_one (c : Copy) :
  (forall jd jd' r,
      trimmed jd = trimmed jd' ->
      getSystemInstruction c jd r = getSystemInstruction c jd' r)
  /\ (forall jd r r',
        trimmed r = trimmed r' -> given r = given r' ->
        getSystemInstruction c jd r = getSystemInstruction c jd r')
  /\ (forall jd r,
        r <> [] -> trim r = [] ->
        present (Some r) = false
        /\ getSystemInstruction c jd (Some r) <> getSystemInstruction c jd None).
Proof.
  split; [|split].
  - intros jd jd' r H. unfold getSystemInstruction.
    rewrite !present_trimmed, H. reflexivity.
  - intros jd r r' H G. unfold getSystemInstruction.
    rewrite !present_trimmed, H, G. reflexivity.
  - intros jd r Hr Ht.
    assert (Hp : present (Some r) = false)
      by (rewrite present_trimmed; cbn [trimmed]; rewrite Ht; reflexivity).
    split; [exact Hp|].
    unfold getSystemInstruction. rewrite Hp.
    change (present None) with false.
    assert (Hg : given (Some r) = true)
      by (destruct r; [contradiction | reflexivity]).
    rewrite Hg. change (given None) with false. cbn [app].
    destruct (present jd); intros H;
      apply app_inv_head in H; rewrite <- !app_assoc in H;
      apply app_inv_head in H; vm_compute in H; discriminate H.
Qed.

Example blank_resume_is_acknowledged :
  getSystemInstruction sampleCopy None (Some (lit " "))
  = lit "<base><without-jd-0>- Acknowledge that you've reviewed their resume<without-jd-1>- Reference specific experiences from their resume when asking questions<without-jd-2><common>"
  /\ getSystemInstruction sampleCopy None None
     = lit "<base><without-jd-0>- Ask what role they're preparing for<without-jd-1><without-jd-2><common>".
Proof. vm_compute. split; reflexivity. Qed.

End PromptProperties.

Module FeedbackViewProperties.
Import Lifecycle FeedbackView.

Lemma whitespace_is_no_marker c :
  isWhiteSpace c = true ->
  (35 =? c) = false /\ (45 =? c) = false /\ isDigit c = false.
Proof.
  intros H. repeat split.
  - destruct (35 =? c) eqn:E; [|reflexivity].
    apply Z.eqb_eq in E. subst c. discriminate H.
  - destruct (45 =? c) eqn:E; [|reflexivity].
    apply Z.eqb_eq in E. subst c. discriminate H.
  - unfold isDigit. destruct ((48 <=? c) && (c <=? 57)) eqn:E; [|reflexivity].
    apply andb_true_iff in E. destruct E as (E1 & E2).
    apply Z.leb_le in E1, E2.
    assert (Hc : c = 48 \/ c = 49 \/ c = 50 \/ c = 51 \/ c = 52 \/ c = 53
                 \/ c = 54 \/ c = 55 \/ c = 56 \/ c = 57) by lia.
    repeat (destruct Hc as [-> | Hc]; [discriminate H|]). subst c.
    discriminate H.
Qed.

Lemma blank_line_shape line :
  blank line = true ->
  line = [] \/ exists c r, line = c :: r /\ isWhiteSpace c = true.
Proof.
  destruct line as [|c r]; [left; reflexivity|].
  cbn [blank forallb]. intros H. apply andb_true_iff in H.
  right. exists c, r. split; [reflexivity | apply H].
Qed.

(** Only blank lines are dropped.  A line of the feedback text is rendered
    as nothing exactly when it is empty or white space throughout; every
    other line gives one element.  So the view shows as many elements as the
    text has lines that are not blank. *)
Theorem only_blank_lines_are_dropped (endFeedback : JsString) :
  (forall line, renderLine line = None <-> blank line = true)
  /\ length (shown (renderFeedback endFeedback))
     = length (filter (fun line => negb (blank line)) (split 10 endFeedback)).
Proof.
  assert (H : forall line, renderLine line = None <-> blank line = true).
  { intros line. split.
    - unfold renderLine.
      destruct (startsWith (lit "## ") line); [discriminate|].
      destruct (if startsWith (lit "- **") line then matchBold line else None)
        as [[label rest]|]; [discriminate|].
      destruct (numbered line); [discriminate|].
      destruct (startsWith (lit "- ") line); [discriminate|].
      destruct (sameString line (lit "---")); [discriminate|].
      destruct (truthy (trim line)) eqn:E; [discriminate|]. intros _.
      apply trim_nil. destruct (trim line); [reflexivity | discriminate E].
    - intros Hb. pose proof (proj2 (trim_nil line) Hb) as Ht.
      destruct (blank_line_shape line Hb) as [-> | (c & r & -> & Hc)];
        [reflexivity|].
      destruct (whitespace_is_no_marker c Hc) as (H1 & H2 & H3).
      unfold renderLine, numbered.
      change (lit "## ") with (35 :: lit "# ").
      change (lit "- **") with (45 :: lit " **").
      change (lit "- ") with (45 :: lit " ").
      change (lit "---") with (45 :: lit "--").
      cbn [startsWith takeWhile sameString].
      rewrite H1, H2, H3, Z.eqb_sym, H2. cbn [andb truthy]. rewrite Ht.
      reflexivity. }
  split; [exact H|].
  unfold renderFeedback. induction (split 10 endFeedback) as [|line l IH];
    [reflexivity|].
  cbn [map shown flat_map filter]. rewrite length_app. fold (shown (map renderLine l)).
  rewrite IH. destruct (renderLine line) as [e|] eqn:E.
  - destruct (blank line) eqn:B; [|reflexivity].
    apply H in B. congruence.
  - apply H in E. rewrite E. reflexivity.
Qed.

Lemma takeWhile_all (p : Z -> bool) s : forallb p (takeWhile p s) = true.
Proof.
  induction s as [|c r IH]; [reflexivity|]. cbn [takeWhile].
  destruct (p c) eqn:E; [|reflexivity]. cbn [forallb]. rewrite E. exact IH.
Qed.

Lemma dropWhile_head (p : Z -> bool) s :
  match dropWhile p s with
  | c :: _ => p c = false
  | [] => True
  end.
Proof.
  induction s as [|c r IH]; [exact I|]. cbn [dropWhile].
  destruct (p c) eqn:E; [exact IH | exact E].
Qed.

Lemma takeWhile_head (p : Z -> bool) s :
  match takeWhile p s with
  | c :: _ => exists r, s = c :: r
  | [] => True
  end.
Proof. destruct s as [|c r]; [exact I|]. cbn. destruct (p c); eauto. Qed.

Lemma matchBoldAt_groups s label rest :
  matchBoldAt s = Some (label, rest) -> boldGroups label rest.
Proof.
  unfold matchBoldAt. destruct (startsWith (lit "- **") s); [|discriminate].
  lazy zeta.
  set (lbl := takeWhile (fun c => negb (isStar c)) (skipn 4 s)).
  set (s2 := dropWhile (fun c => negb (isStar c)) (skipn 4 s)).
  set (s4 := match skipn 2 s2 with 58 :: r => r | _ => skipn 2 s2 end).
  destruct (truthy lbl && _) eqn:E; [|discriminate].
  apply andb_true_iff in E. destruct E as (E1 & _).
  intros H. injection H as Hl Hr. subst label rest.
  unfold boldGroups. split; [|split; [|split]].
  - intros H. rewrite H in E1. discriminate.
  - apply takeWhile_all.
  - apply takeWhile_all.
  - pose proof (dropWhile_head isWhiteSpace s4) as Hd.
    pose proof (takeWhile_head (fun c => negb (isLineTerminator c))
                  (dropWhile isWhiteSpace s4)) as Ht.
    destruct (takeWhile _ (dropWhile isWhiteSpace s4)) as [|c t]; [exact I|].
    destruct Ht as (r & Hr). rewrite Hr in Hd. exact Hd.
Qed.

Lemma matchBold_groups s : forall label rest,
  matchBold s = Some (label, rest) -> boldGroups label rest.
Proof.
  induction s as [|c r IH]; intros label rest; cbn [matchBold].
  - destruct (matchBoldAt []) as [[l t]|] eqn:E; [|discriminate].
    intros [= <- <-]. exact (matchBoldAt_groups _ _ _ E).
  - destruct (matchBoldAt (c :: r)) as [[l t]|] eqn:E.
    + intros [= <- <-]. exact (matchBoldAt_groups _ _ _ E).
    + apply IH.
Qed.

Lemma removeFirst_prefix pattern s :
  startsWith pattern s = true ->
  removeFirst pattern s = skipn (length pattern) s.
Proof. intros H. destruct s; cbn [removeFirst]; rewrite H; reflexivity. Qed.

(** Markers are stripped, and nothing else.  A line that starts with the
    heading marker is rendered as a heading with the line less its first
    three characters.  A line that starts with a dash and a space is rendered
    as a bullet: with a bold label, when it starts with the bold marker and
    the pattern matches -- then the label is not empty and holds no star, and
    the text after it starts with no white space -- and otherwise with the
    line less its first two characters, stars and all. *)
Theorem markers_are_stripped (line : JsString) :
  (startsWith (lit "## ") line = true ->
   renderLine line = Some (Heading (skipn 3 line)))
  /\ (startsWith (lit "- ") line = true ->
      renderLine line = Some (ListItem (skipn 2 line))
      \/ exists label rest,
           renderLine line = Some (BoldItem label rest)
           /\ startsWith (lit "- **") line = true
           /\ boldGroups label rest).
Proof.
  split.
  - intros H. unfold renderLine. rewrite H.
    rewrite (removeFirst_prefix _ _ H). reflexivity.
  - intros H. unfold renderLine.
    change (lit "- ") with [45; 32] in *.
    destruct line as [|c [|d r]]; cbn [startsWith] in H;
      [discriminate H | rewrite andb_false_r in H; discriminate H |].
    apply andb_true_iff in H. destruct H as (Hc & H).
    apply andb_true_iff in H. destruct H as (Hd & _).
    apply Z.eqb_eq in Hc, Hd. subst c d.
    change (startsWith (lit "## ") (45 :: 32 :: r)) with false. cbn iota.
    destruct (startsWith (lit "- **") (45 :: 32 :: r)) eqn:Hb.
    + destruct (matchBold (45 :: 32 :: r)) as [[label rest]|] eqn:Hm.
      * right. exists label, rest. split; [reflexivity|]. split; [reflexivity|].
        exact (matchBold_groups _ _ _ Hm).
      * left. reflexivity.
    + left. reflexivity.
Qed.

Example feedback_lines :
  renderFeedback
    (lit "## Strengths" ++ [10] ++ lit "- **Pace**: steady" ++ [10]
     ++ lit "- **unfinished" ++ [10] ++ [32; 9] ++ [10] ++ lit "1. Practise"
     ++ [10] ++ lit "---")
  = [Some (Heading (lit "Strengths"));
     Some (BoldItem (lit "Pace") (lit "steady"));
     Some (ListItem (lit "**unfinished"));
     None;
     Some (NumberedItem (lit "1. Practise"));
     Some Separator].
Proof. vm_compute. reflexivity. Qed.
End FeedbackViewProperties.
